(** * SMACK driver (share/smack/top.py): outcome classification and
      error-trace reconstruction

    A shallow embedding of the text-processing core of [top.py]:
    [transform_out], [verification_result], [error_step], [error_trace] and
    [smackdOutput]; and of the driver around it: the tables [languages],
    [frontends], [extra_libs] and [results], [validate_input_file], the
    dispatch of [frontend], [procedure_annotation], [annotate_bpl],
    [property_selection], [transform_bpl] and [verify_bpl].  The source is
    Python 2, where the verifier output is a byte string; texts are therefore
    lists of 8-bit characters.  The regular expressions of the source are
    transcribed into a small abstract syntax and run by a backtracking
    matcher that follows the search order of Python's [re] module (leftmost
    alternative first, greedy repetition).  The programs the driver starts
    and the functions it imports from other files are parameters. *)

From Stdlib Require Import Ascii String Bool Arith NArith ZArith DecimalString Lia List.
Import ListNotations.

Set Implicit Arguments.
Local Open Scope list_scope.
Local Open Scope char_scope.

(** ** Texts *)

Module Text.

Definition text := list ascii.

(** String literals are written with the Standard Library's [string]
    notation and read as texts. *)
Definition lit (s : string) : text := list_ascii_of_string s.
Coercion lit : string >-> text.

Definition text_eqb (a b : text) : bool :=
  if list_eq_dec ascii_dec a b then true else false.

(** [s.startswith(p)], returning the remainder. *)
Fixpoint strip_prefix (p s : text) : option text :=
  match p with
  | [] => Some s
  | a :: p' =>
      match s with
      | [] => None
      | b :: s' => if Ascii.eqb a b then strip_prefix p' s' else None
      end
  end.

(** Character classes of Python 2's [re] on byte strings (no LOCALE, no
    UNICODE flag). *)
Definition in_range (lo hi c : ascii) : bool :=
  (N.leb (N_of_ascii lo) (N_of_ascii c) && N.leb (N_of_ascii c) (N_of_ascii hi))%bool.

Definition is_digit (c : ascii) : bool := in_range "0" "9" c.
Definition is_nonzero_digit (c : ascii) : bool := in_range "1" "9" c.
Definition is_upper (c : ascii) : bool := in_range "A" "Z" c.
Definition is_lower (c : ascii) : bool := in_range "a" "z" c.
Definition is_word (c : ascii) : bool :=
  (is_lower c || is_upper c || is_digit c || Ascii.eqb c "_")%bool.
Definition newline : ascii := "010".
Definition dquote : ascii := "034".
Definition carriage_return : ascii := "013".
Definition is_space (c : ascii) : bool :=
  (Ascii.eqb c " " || in_range "009" "013" c)%bool.
(** [.] without DOTALL: anything but a newline. *)
Definition is_dot (c : ascii) : bool := negb (Ascii.eqb c newline).
Definition one_of (cs : text) (c : ascii) : bool :=
  existsb (Ascii.eqb c) cs.

(** [int(s)] on a string of decimal digits; Python integers are unbounded. *)
Definition digit_value (c : ascii) : N := (N_of_ascii c - 48)%N.
Definition int_of_digits (s : text) : N :=
  fold_left (fun acc c => (10 * acc + digit_value c)%N) s 0%N.

(** [str.splitlines(True)] on a Python 2 byte string: lines end at "\n",
    "\r" or "\r\n", and keep their terminator. *)
Fixpoint splitlines_from (cur : text) (s : text) : list text :=
  match s with
  | [] => match cur with [] => [] | _ => [rev cur] end
  | c :: s' =>
      if Ascii.eqb c carriage_return then
        match s' with
        | d :: s'' =>
            if Ascii.eqb d newline
            then rev (d :: c :: cur) :: splitlines_from [] s''
            else rev (c :: cur) :: splitlines_from [] s'
        | [] => [rev (c :: cur)]
        end
      else if Ascii.eqb c newline then rev (c :: cur) :: splitlines_from [] s'
      else splitlines_from (c :: cur) s'
  end.

Definition splitlines (s : text) : list text := splitlines_from [] s.

End Text.
Export Text.

(** ** Regular expressions, as Python's [re] runs them *)

Module Re.

Inductive regex : Type :=
| Eps : regex
| Chr : (ascii -> bool) -> regex        (* one character of a class *)
| Lit : text -> regex                   (* a literal string *)
| Seq : regex -> regex -> regex
| Alt : regex -> regex -> regex         (* r1|r2, r1 tried first *)
| Star : regex -> regex                 (* r*, greedy *)
| Group : nat -> regex -> regex         (* numbered capture group *)
| Eol : regex.                          (* $ without MULTILINE *)

Definition Plus (r : regex) : regex := Seq r (Star r).
Definition Opt (r : regex) : regex := Alt r Eps.

(** Captured groups; a group that took no part in the match is absent
    ([m.group(i)] is [None]). *)
Definition caps := list (nat * text).

Fixpoint group (c : caps) (i : nat) : option text :=
  match c with
  | [] => None
  | (j, v) :: c' => if Nat.eqb i j then Some v else group c' i
  end.

Section Matcher.
Variable A : Type.

Definition cont := text -> caps -> option A.

(** Greedy iteration: one more round of the body when it succeeds and
    consumes something, the continuation otherwise.  The counter bounds the
    number of rounds by the length of the input. *)
Fixpoint star_loop (body : text -> caps -> cont -> option A) (k : cont)
    (n : nat) (s : text) (c : caps) : option A :=
  match n with
  | O => k s c
  | S n' =>
      match body s c (fun s' c' =>
                if Nat.ltb (length s') (length s)
                then star_loop body k n' s' c' else None) with
      | Some x => Some x
      | None => k s c
      end
  end.

(** [exec r s c k]: match [r] at the head of [s], then hand the rest of the
    input and the captures to [k]; when [k] fails the matcher backtracks
    to the next way of matching [r]. *)
Fixpoint exec (r : regex) (s : text) (c : caps) (k : cont) : option A :=
  match r with
  | Eps => k s c
  | Chr p =>
      match s with
      | a :: s' => if p a then k s' c else None
      | [] => None
      end
  | Lit l =>
      match strip_prefix l s with
      | Some s' => k s' c
      | None => None
      end
  | Seq r1 r2 => exec r1 s c (fun s' c' => exec r2 s' c' k)
  | Alt r1 r2 =>
      match exec r1 s c k with
      | Some x => Some x
      | None => exec r2 s c k
      end
  | Star r1 => star_loop (exec r1) k (length s) s c
  | Group i r1 =>
      exec r1 s c (fun s' c' =>
        k s' ((i, firstn (length s - length s') s) :: c'))
  | Eol =>
      match s with
      | [] => k s c
      | a :: [] => if Ascii.eqb a newline then k s c else None
      | _ => None
      end
  end.

End Matcher.

(** [re.match(r, s)]: the captures of the first successful match at the
    start of [s]; group 0 is the matched text. *)
Definition re_match (r : regex) (s : text) : option caps :=
  exec (Group 0 r) s [] (fun _ c => Some c).

(** [re.search(r, s)]: the leftmost position where [r] matches. *)
Fixpoint re_search (r : regex) (s : text) : option caps :=
  match re_match r s with
  | Some c => Some c
  | None =>
      match s with
      | [] => None
      | _ :: s' => re_search r s'
      end
  end.

Definition found (m : option caps) : bool :=
  match m with Some _ => true | None => false end.

(** The scan shared by [re.findall] and [re.sub]: non-overlapping matches
    from left to right.  [skip] counts the characters of the current match
    still to be passed over; [emit] is what a match contributes and [keep]
    what an unmatched character contributes. *)
Section Scan.
Variable B : Type.
Variable r : regex.
Variable emit : caps -> list B.
Variable keep : ascii -> list B.

Fixpoint scan (skip : nat) (s : text) : list B :=
  match skip with
  | S n => match s with [] => [] | _ :: s' => scan n s' end
  | O =>
      match exec (Group 0 r) s [] (fun s' c => Some (length s - length s', c)) with
      | Some (len, c) =>
          emit c ++
          match s with
          | [] => []
          | a :: s' =>
              match len with
              | O => keep a ++ scan 0 s'
              | S n => scan n s'
              end
          end
      | None =>
          match s with
          | [] => []
          | a :: s' => keep a ++ scan 0 s'
          end
      end
  end.
End Scan.

(** [re.findall(r, s)] for a pattern without groups: the matched texts. *)
Definition re_findall (r : regex) (s : text) : list text :=
  scan r (fun c => match group c 0 with Some m => [m] | None => [] end)
         (fun _ => []) 0 s.

(** [re.sub(r, repl, s)], the template given as a function of the groups. *)
Definition re_sub (r : regex) (repl : caps -> text) (s : text) : text :=
  scan r repl (fun a => [a]) 0 s.

End Re.
Export Re.

Declare Scope re_scope.
Delimit Scope re_scope with re.
Bind Scope re_scope with regex.
Infix ">>" := Seq (at level 41, right associativity) : re_scope.
Infix "<|>" := Alt (at level 42, right associativity) : re_scope.

(** ** Exceptions *)

Inductive exn : Type :=
| IOError : text -> exn          (* open() of a file that cannot be read *)
| OSError : list text -> exn     (* Popen of a program that cannot start *)
| ValueError : text -> exn.      (* shlex.split of an unbalanced command *)

Inductive result (A : Type) : Type :=
| Ok : A -> result A
| Raise : exn -> result A.
Arguments Ok {A} _.
Arguments Raise {A} _.

Definition bind {A B} (m : result A) (f : A -> result B) : result B :=
  match m with
  | Ok a => f a
  | Raise e => Raise e
  end.

Notation "x <- m ;; f" := (bind m (fun x => f))
  (at level 61, m at next level, right associativity).

(** ** The driver *)

Module Smack.

Local Open Scope string_scope.
Local Open Scope list_scope.
Local Open Scope re_scope.

(** *** verification_result (top.py, lines 641-662) *)

(** Line 642: [1-9]\d* time out|Z3 ran out of resources|timed out|ERRORS_TIMEOUT *)
Definition timeout_re : regex :=
  (Chr is_nonzero_digit >> Star (Chr is_digit) >> Lit " time out")
  <|> Lit "Z3 ran out of resources"
  <|> Lit "timed out"
  <|> Lit "ERRORS_TIMEOUT".

(** Line 644: [1-9]\d* verified, 0 errors?|no bugs|NO_ERRORS_NO_TIMEOUT *)
Definition verified_re : regex :=
  (Chr is_nonzero_digit >> Star (Chr is_digit) >> Lit " verified, 0 error"
     >> Opt (Lit "s"))
  <|> Lit "no bugs"
  <|> Lit "NO_ERRORS_NO_TIMEOUT".

(** Line 646: \d* verified, [1-9]\d* errors?|can fail|ERRORS_NO_TIMEOUT *)
Definition failure_re : regex :=
  (Star (Chr is_digit) >> Lit " verified, " >> Chr is_nonzero_digit
     >> Star (Chr is_digit) >> Lit " error" >> Opt (Lit "s"))
  <|> Lit "can fail"
  <|> Lit "ERRORS_NO_TIMEOUT".

(** Lines 647-657: the category markers, the calls and the deallocation
    prefix.  A brace that opens no repetition count is a literal brace. *)
Definition valid_deref_re : regex := Lit "ASSERTION FAILS assert {:valid_deref}".
Definition valid_free_re : regex := Lit "ASSERTION FAILS assert {:valid_free}".
Definition valid_memtrack_re : regex := Lit "ASSERTION FAILS assert {:valid_memtrack}".
Definition overflow_re : regex := Lit "ASSERTION FAILS assert {:overflow}".
Definition call_re : regex := Lit "(CALL " >> Plus (Chr is_dot) >> Lit ")".
Definition free_re : regex := Lit "free_".

Definition verification_result (verifier_output : text) : string :=
  if found (re_search timeout_re verifier_output) then "timeout"
  else if found (re_search verified_re verifier_output) then "verified"
  else if found (re_search failure_re verifier_output) then
    if found (re_search valid_deref_re verifier_output) then "invalid-deref"
    else if found (re_search valid_free_re verifier_output) then "invalid-free"
    else if found (re_search valid_memtrack_re verifier_output) then "invalid-memtrack"
    else if found (re_search overflow_re verifier_output) then "overflow"
    else
      let listCall := re_findall call_re verifier_output in
      if (Nat.ltb 0 (length listCall)
          && found (re_search free_re (nth (length listCall - 1) listCall [])))%bool
      then "invalid-free"
      else "error"
  else "unknown".

(** *** error_step and error_trace (top.py, lines 739-769) *)

(** FILENAME = '[\w#$~%.\/-]' *)
Definition is_filename_char (c : ascii) : bool :=
  (is_word c || one_of "#$~%./-" c)%bool.

(** Line 741: indentation, file name, "(", line, ",", column, "): ",
    message; the groups are the indentation, the file name, the line and the
    message. *)
Definition step_re : regex :=
  Group 1 (Star (Chr is_space)) >> Group 2 (Star (Chr is_filename_char))
  >> Lit "(" >> Group 3 (Plus (Chr is_digit)) >> Lit ","
  >> Plus (Chr is_digit) >> Lit "): " >> Group 4 (Star (Chr is_dot)).

(** Line 743: anything followed by ".bpl" at the end. *)
Definition bpl_re : regex := Star (Chr is_dot) >> Lit ".bpl" >> Eol.

(** Line 746: a basic-block label, "$bb" and digits, anywhere. *)
Definition bb_re : regex :=
  Star (Chr is_dot) >> Lit "$bb" >> Plus (Chr is_digit) >> Star (Chr is_dot).

(** The literal parts of the annotation around the quoted file name. *)
Definition sourceloc_open : text := lit "{:sourceloc " ++ [dquote].
Definition sourceloc_sep : text := dquote :: lit ", ".

(** Line 750: anything, then the attribute with the quoted file name, the
    line and the column. *)
Definition sourceloc_re : regex :=
  Star (Chr is_dot) >> Lit sourceloc_open >> Group 1 (Star (Chr is_filename_char))
  >> Lit sourceloc_sep >> Group 2 (Plus (Chr is_digit)) >> Lit ", "
  >> Group 3 (Plus (Chr is_digit)) >> Lit "}".

(** Line 763: location, ": ", "Error" or "error", a code of capitals and
    digits, ": ", description. *)
Definition error_header_re : regex :=
  Group 1 (Star (Chr is_dot)) >> Lit ": " >> Chr (one_of "Ee") >> Lit "rror "
  >> Plus (Chr (fun c => (is_upper c || is_digit c)%bool)) >> Lit ": "
  >> Group 2 (Star (Chr is_dot)).

(** [m.group(i)] of a group that took part in the match. *)
Definition grp (c : caps) (i : nat) : text :=
  match group c i with Some v => v | None => [] end.

(** The annotation of one artifact line: the three groups of the sourceloc
    pattern, when the line matches it. *)
Definition sourceloc (line : text) : option (text * text * text) :=
  match re_match sourceloc_re line with
  | Some src => Some (grp src 1, grp src 2, grp src 3)
  | None => None
  end.

(** The loop of lines 749-752: the first line of the window that matches. *)
Fixpoint first_sourceloc (window : list text) : option (text * text * text) :=
  match window with
  | [] => None
  | line :: rest =>
      match sourceloc line with
      | Some src => Some src
      | None => first_sourceloc rest
      end
  end.

(** [lines[line_no:line_no+10]] *)
Definition window (lines : list text) (line_no : nat) : list text :=
  firstn 10 (skipn line_no lines).

Section Files.
(** The files the driver can read: [open(path)] raises IOError on [None]. *)
Variable fs : text -> option text.

Definition open_read (path : text) : result text :=
  match fs path with
  | Some content => Ok content
  | None => Raise (IOError path)
  end.

Definition error_step (step : text) : result (option text) :=
  match re_match step_re step with
  | Some m =>
      if found (re_match bpl_re (grp m 2)) then
        let line_no := N.to_nat (int_of_digits (grp m 3)) in
        let message := grp m 4 in
        let message := if found (re_match bb_re message) then [] else message in
        content <- open_read (grp m 2) ;;
        match first_sourceloc (window (splitlines content) line_no) with
        | Some (src1, src2, src3) =>
            Ok (Some (grp m 1 ++ src1 ++ lit "(" ++ src2 ++ lit "," ++ src3
                        ++ lit "): " ++ message))
        | None => Ok None
        end
      else Ok (Some (grp m 0))
  | None => Ok None
  end.

(** Python truth value of [step]: neither None nor the empty string. *)
Definition truthy (step : option text) : option text :=
  match step with
  | Some [] => None
  | other => other
  end.

Fixpoint error_trace_loop (lines : list text) (trace : text) : result text :=
  match lines with
  | [] => Ok trace
  | line :: rest =>
      step <- error_step line ;;
      match truthy step with
      | Some step =>
          match re_match error_header_re step with
          | Some m =>
              error_trace_loop rest
                (trace ++ grp m 1 ++ lit ": " ++ grp m 2
                       ++ [newline] ++ lit "Execution trace:" ++ [newline])
          | None =>
              error_trace_loop rest
                (trace ++ (match step with
                           | " "%char :: _ => []
                           | _ => lit "    "
                           end) ++ step ++ [newline])
          end
      | None => error_trace_loop rest trace
      end
  end.

Definition error_trace (verifier_output : text) : result text :=
  error_trace_loop (splitlines verifier_output) [].

End Files.

(** *** smackdOutput (top.py, lines 771-826) *)

(** FILENAME = '[\w#$~%.\/-]+' *)
Definition filename_re : regex := Plus (Chr is_filename_char).

(** The common start of the three patterns of lines 789-791:
    file name, "(", line, ",", column, "): ". *)
Definition located_re : regex :=
  Group 1 filename_re >> Lit "(" >> Group 2 (Plus (Chr is_digit)) >> Lit ","
  >> Group 3 (Plus (Chr is_digit)) >> Lit "): ".

(** Line 789: the thread id, two spaces, an optional parenthesised
    fragment, end of line. *)
Definition trace_re : regex :=
  located_re >> Lit "Trace: Thread=" >> Group 4 (Plus (Chr is_digit)) >> Lit "  "
  >> Opt (Group 5 (Lit "(" >> Group 6 (Star (Chr is_dot)) >> Lit ")")) >> Eol.

(** Line 790: the same with a fragment of the shape word = word, spaces
    allowed around the words. *)
Definition trace_assume_re : regex :=
  located_re >> Lit "Trace: Thread=" >> Group 4 (Plus (Chr is_digit)) >> Lit "  "
  >> Group 5 (Lit "("
       >> Group 6 (Star (Chr is_space) >> Plus (Chr is_word) >> Star (Chr is_space)
                   >> Lit "=" >> Star (Chr is_space) >> Plus (Chr is_word)
                   >> Star (Chr is_space))
       >> Lit ")")
  >> Eol.

(** Line 791: "error " and the rest of the line as description. *)
Definition error_re : regex :=
  located_re >> Group 4 (Lit "error " >> Star (Chr is_dot)) >> Eol.

(** Line 774. *)
Definition passed_re : regex := Lit "Program has no bugs".

(** Line 802: "=", spaces and digits (group 1), "bv", digits; replaced by
    "=" and group 1. *)
Definition bv_re : regex :=
  Lit "=" >> Group 1 (Star (Chr is_space) >> Plus (Chr is_digit)) >> Lit "bv"
  >> Plus (Chr is_digit).
Definition bv_repl (c : caps) : text := lit "=" ++ grp c 1.

(** [str(m.group(i))]: the string 'None' for a group that took no part. *)
Definition py_str (v : option text) : text :=
  match v with Some t => t | None => lit "None" end.

Record trace : Type := mk_trace {
  threadid : N;
  file : text;
  line : N;
  column : N;
  description : text;
  assumption : text
}.

Record fails_at : Type := mk_fails_at {
  fa_file : text;
  fa_line : N;
  fa_column : N;
  fa_description : text
}.

(** The dictionary [json_data]; the function returns its serialisation by
    [json.dumps], which is not modelled. *)
Inductive json_data : Type :=
| Passed (verifier : text)
| Failed (verifier : text) (failsAt : fails_at) (threadCount : N)
         (traces : list trace).

(** The variables of the loop over the lines. *)
Record loop_state : Type := mk_state {
  st_traces : list trace;
  st_filename : text;
  st_lineno : N;
  st_colno : N;
  st_threadid : N;
  st_desc : text
}.

Definition init_state : loop_state := mk_state [] [] 0 0 0 [].

Definition smackd_line (st : loop_state) (traceLine : text) : loop_state :=
  let traceMatch := re_match trace_re traceLine in
  let traceAssumeMatch := re_match trace_assume_re traceLine in
  let errorMatch := re_match error_re traceLine in
  match traceMatch with
  | Some tm =>
      let filename := grp tm 1 in
      let lineno := int_of_digits (grp tm 2) in
      let colno := int_of_digits (grp tm 3) in
      let threadid := int_of_digits (grp tm 4) in
      let desc := py_str (group tm 6) in
      let assm :=
        match traceAssumeMatch with
        | Some am => re_sub bv_re bv_repl (grp am 6)
        | None => []
        end in
      let trace :=
        mk_trace threadid filename lineno colno
                 (if text_eqb desc "None" then [] else desc) assm in
      mk_state (st_traces st ++ [trace]) filename lineno colno threadid desc
  | None =>
      match errorMatch with
      | Some em =>
          mk_state (st_traces st) (grp em 1) (int_of_digits (grp em 2))
                   (int_of_digits (grp em 3)) (st_threadid st) (grp em 4)
      | None => st
      end
  end.

Definition smackdOutput (corralOutput : text) : json_data :=
  if found (re_search passed_re corralOutput) then Passed "corral"
  else
    let st := fold_left smackd_line (splitlines corralOutput) init_state in
    let failsAt := mk_fails_at (st_filename st) (st_lineno st) (st_colno st)
                               (st_desc st) in
    Failed "corral" failsAt 1 (st_traces st).

(** *** transform_out (top.py, lines 634-639) *)

Section Process.
(** The operating system, as far as [transform_out] sees it:
    [shlex.split] of the command line, and [Popen(argv, ...)] followed by
    [communicate(input)], which yields the standard output, the standard
    error and the exit status of the child, or raises when the program
    cannot be started.  [communicate] of Python 2 ignores a broken pipe on
    the child's input. *)
Variable shlex_split : text -> result (list text).
Variable popen_communicate : list text -> text -> result (text * text * N).

(** The processes started so far, oldest first. *)
Definition world := list (list text * text).

Definition transform_out (args_transform_out : option text) (old : text)
    (w : world) : result text * world :=
  match truthy args_transform_out with
  | Some cmd =>
      match shlex_split cmd with
      | Ok argv =>
          match popen_communicate argv old with
          | Ok (out, err, returncode) => (Ok out, w ++ [(argv, old)])
          | Raise e => (Raise e, w ++ [(argv, old)])
          end
      | Raise e => (Raise e, w)
      end
  | None => (Ok old, w)
  end.

End Process.

(** *** The command line (top.py, lines 103-279), as far as the functions
    below read it *)

Module Args.
Record t : Type := mk {
  language : option text;
  entry_points : list text;
  modular : bool;
  verifier : text;
  float : bool;
  bit_precise : bool;
  unroll : Z;
  loop_limit : Z;
  context_bound : Z;
  time_limit : Z;
  max_violations : Z;
  verifier_options : text;
  bpl_file : text;
  only_check_valid_deref : bool;
  only_check_valid_free : bool;
  only_check_memleak : bool;
  smackd : bool;
  quiet : bool;
  replay : bool;
  error_file : option text;
  transform_bpl : option text;
  transform_out : option text
}.
End Args.

(** [str(n)], ['%s' % n] and ['%d' % n] of an integer. *)
Definition py_str_int (n : Z) : text := lit (NilZero.string_of_int (Z.to_int n)).

(** [sep.join(parts)] *)
Fixpoint join (sep : text) (parts : list text) : text :=
  match parts with
  | [] => []
  | [x] => x
  | x :: rest => x ++ sep ++ join sep rest
  end.

(** [s.split()]: the maximal runs of characters other than white space. *)
Fixpoint py_split_from (cur : text) (s : text) : list text :=
  match s with
  | [] => match cur with [] => [] | _ => [rev cur] end
  | c :: s' =>
      if is_space c
      then match cur with
           | [] => py_split_from [] s'
           | _ => rev cur :: py_split_from [] s'
           end
      else py_split_from (c :: cur) s'
  end.

Definition py_split (s : text) : list text := py_split_from [] s.

(** [key in d] and [d[key]] on a dictionary; [None] stands for KeyError. *)
Fixpoint lookup (A : Type) (d : list (text * A)) (key : text) : option A :=
  match d with
  | [] => None
  | (k, v) :: d' => if text_eqb key k then Some v else lookup d' key
  end.

(** [x in l] on a list of strings. *)
Definition member (x : text) (l : list text) : bool := existsb (text_eqb x) l.

(** *** languages, frontends, extra_libs (top.py, lines 19-60) *)

Definition languages : list (text * text) :=
  [ (lit "c", lit "C"); (lit "i", lit "C"); (lit "cc", lit "CXX");
    (lit "cpp", lit "CXX"); (lit "m", lit "OBJC"); (lit "d", lit "D");
    (lit "json", lit "JSON"); (lit "svcomp", lit "SVCOMP");
    (lit "bc", lit "LLVM"); (lit "ll", lit "LLVM"); (lit "bpl", lit "BOOGIE");
    (lit "f", lit "FORTRAN"); (lit "for", lit "FORTRAN");
    (lit "f90", lit "FORTRAN"); (lit "f95", lit "FORTRAN");
    (lit "f03", lit "FORTRAN") ].

(** The front ends are functions of the driver; they are named here. *)
Inductive frontend_function : Type :=
| clang_frontend | clang_plusplus_frontend | clang_objc_frontend | d_frontend
| json_compilation_database_frontend | svcomp_frontend | llvm_frontend
| boogie_frontend | fortran_frontend.

Definition frontends : list (text * frontend_function) :=
  [ (lit "C", clang_frontend); (lit "CXX", clang_plusplus_frontend);
    (lit "OBJC", clang_objc_frontend); (lit "D", d_frontend);
    (lit "JSON", json_compilation_database_frontend);
    (lit "SVCOMP", svcomp_frontend); (lit "LLVM", llvm_frontend);
    (lit "BOOGIE", boogie_frontend); (lit "FORTRAN", fortran_frontend) ].

Inductive build_libs_function : Type :=
| fortran_build_libs | cplusplus_build_libs.

Definition extra_libs : list (text * build_libs_function) :=
  [ (lit "FORTRAN", fortran_build_libs); (lit "CXX", cplusplus_build_libs) ].

(** *** results (top.py, lines 62-73) *)

Definition results (args : Args.t) : list (text * text) :=
  [ (lit "verified",
     if Args.modular args then lit "SMACK found no errors."
     else lit "SMACK found no errors with unroll bound "
            ++ py_str_int (Args.unroll args) ++ lit ".");
    (lit "error", lit "SMACK found an error.");
    (lit "invalid-deref", lit "SMACK found an error: invalid pointer dereference.");
    (lit "invalid-free", lit "SMACK found an error: invalid memory deallocation.");
    (lit "invalid-memtrack", lit "SMACK found an error: memory leak.");
    (lit "overflow", lit "SMACK found an error: integer overflow.");
    (lit "timeout", lit "SMACK timed out.");
    (lit "unknown", lit "SMACK result is unknown.") ].

(** *** validate_input_file and the dispatch of frontend (top.py, lines
    90-101 and 298-325) *)

Section Paths.
(** [os.path.isfile], and [os.path.splitext(file)[1][1:]], the extension
    without its dot. *)
Variable isfile : text -> bool.
Variable extension : text -> text.

Definition validate_input_file (file : text) : option text :=
  let file_extension := extension file in
  if negb (isfile file) then
    Some (lit "Cannot find file " ++ file ++ lit ".")
  else if negb (match lookup languages file_extension with
                | Some _ => true | None => false end) then
    Some (lit "Unexpected source file extension '" ++ file_extension ++ lit "'.")
  else None.

(** What [frontend] decides before it calls the front ends: the libraries
    to build and, for each input file, the front end to call.  [None]
    stands for the KeyError of a failed dictionary lookup. *)
Definition add_libs (libs : list build_libs_function) (lang : text)
    : list build_libs_function :=
  match lookup extra_libs lang with
  | Some build => libs ++ [build]
  | None => libs
  end.

Fixpoint frontend_per_file (input_files : list text)
    (libs : list build_libs_function)
    (calls : list (frontend_function * text))
    : option (list build_libs_function * list (frontend_function * text)) :=
  match input_files with
  | [] => Some (libs, calls)
  | input_file :: rest =>
      match lookup languages (extension input_file) with
      | Some lang =>
          let libs := add_libs libs lang in
          match lookup frontends lang with
          | Some f => frontend_per_file rest libs (calls ++ [(f, input_file)])
          | None => None
          end
      | None => None
      end
  end.

Definition frontend_dispatch (args : Args.t) (input_files : list text)
    : option (list build_libs_function * list (frontend_function * text)) :=
  match truthy (Args.language args) with
  | Some language =>
      match lookup languages language with
      | Some lang =>
          let libs := add_libs [] lang in
          match lookup frontends lang with
          | Some f => Some (libs, map (fun input_file => (f, input_file)) input_files)
          | None => None
          end
      | None => None
      end
  | None => frontend_per_file input_files [] []
  end.

End Paths.

(** *** procedure_annotation and annotate_bpl (top.py, lines 75-88 and
    573-594) *)

Definition VERSION : text := lit "1.9.0".

Definition inlined_procedures : list text :=
  [ lit "$galloc"; lit "$alloc"; lit "$malloc"; lit "$free"; lit "$memset";
    lit "$memcpy"; lit "__VERIFIER_"; lit "$initialize";
    lit "__SMACK_static_init"; lit "__SMACK_init_func_memory_model";
    lit "__SMACK_check_overflow" ].

(** ["|".join(names).replace("$","\$")] as a pattern: the names hold
    letters, "_" and "$" only, so with "$" escaped each is a literal. *)
Fixpoint alternation (names : list text) : regex :=
  match names with
  | [] => Eps
  | [name] => Lit name
  | name :: rest => Alt (Lit name) (alternation rest)
  end.

Definition procedure_annotation (name : text) (args : Args.t) : text :=
  if member name (Args.entry_points args) then lit "{:entrypoint}"
  else if (Args.modular args
           && found (re_match (alternation inlined_procedures) name))%bool
  then lit "{:inline 1}"
  else if (negb (Args.modular args)
           && (text_eqb (Args.verifier args) "boogie" || Args.float args))%bool
  then lit "{:inline " ++ py_str_int (Args.unroll args) ++ lit "}"
  else [].

(** Line 586: "procedure", white space, a name without white space or "("
    (group 1), optional white space, "(". *)
Definition proc_decl : regex :=
  Lit "procedure" >> Plus (Chr is_space)
  >> Group 1 (Star (Chr (fun c => negb (is_space c || Ascii.eqb c "(")%bool)))
  >> Star (Chr is_space) >> Lit "(".

Definition proc_decl_repl (args : Args.t) (m : caps) : text :=
  lit "procedure " ++ procedure_annotation (grp m 1) args ++ lit " "
  ++ grp m 1 ++ lit "(".

(** Line 591: [proc_decl.sub(lambda m: ..., f.read())] *)
Definition annotate_procedures (args : Args.t) (content : text) : text :=
  re_sub proc_decl (proc_decl_repl args) content.

(** The text written back by [annotate_bpl]. *)
Definition annotated (args : Args.t) (argv : list text) (content : text) : text :=
  lit "// generated by SMACK version " ++ VERSION ++ lit " for "
  ++ Args.verifier args ++ [newline]
  ++ lit "// via " ++ join (lit " ") argv ++ [newline] ++ [newline]
  ++ annotate_procedures args content.

(** The files, and [f.write] of a whole file. *)
Definition files := text -> option text.

Definition write_file (fs : files) (path content : text) : files :=
  fun p => if text_eqb p path then Some content else fs p.

Definition annotate_bpl (args : Args.t) (argv : list text) (fs : files)
    : result files :=
  content <- open_read fs (Args.bpl_file args) ;;
  Ok (write_file fs (Args.bpl_file args) (annotated args argv content)).

(** *** property_selection (top.py, lines 596-623) *)

Definition selected_props (args : Args.t) : list text :=
  if Args.only_check_valid_deref args then [lit "valid_deref"]
  else if Args.only_check_valid_free args then [lit "valid_free"]
  else if Args.only_check_memleak args then [lit "valid_memtrack"]
  else [].

(** Line 622, after the "^": "assert" with the white space around it
    (group 1), an optional attribute in braces (group 2, its name group 3),
    the expression (group 4), ";". *)
Definition assert_re : regex :=
  Group 1 (Star (Chr is_space) >> Lit "assert" >> Star (Chr is_space))
  >> Opt (Group 2 (Lit "{:" >> Group 3 (Plus (Chr is_dot)) >> Lit "}"))
  >> Group 4 (Plus (Chr is_dot)) >> Lit ";".

Definition replace_assertion (args : Args.t) (m : caps) : text :=
  if Nat.ltb 0 (length (selected_props args)) then
    let keep :=
      match truthy (group m 2) with
      | Some _ => member (grp m 3) (selected_props args)
      | None => false
      end in
    let attrib := if keep then grp m 2 else [] in
    let expr := if keep then grp m 4 else lit "true" in
    grp m 1 ++ attrib ++ expr ++ lit ";"
  else grp m 0.

(** [re.sub] of a pattern that starts with "^" (without MULTILINE): only a
    match at the start of the text is replaced. *)
Definition re_sub_at_start (r : regex) (repl : caps -> text) (s : text) : text :=
  match exec (Group 0 r) s [] (fun s' c => Some (s', c)) with
  | Some (rest, c) => repl c ++ rest
  | None => s
  end.

(** [f.readlines()]: the lines end after each newline. *)
Fixpoint readlines_from (cur : text) (s : text) : list text :=
  match s with
  | [] => match cur with [] => [] | _ => [rev cur] end
  | c :: s' =>
      if Ascii.eqb c newline then rev (c :: cur) :: readlines_from [] s'
      else readlines_from (c :: cur) s'
  end.

Definition readlines (s : text) : list text := readlines_from [] s.

(** The text written back by [property_selection]. *)
Definition selected (args : Args.t) (content : text) : text :=
  concat (map (re_sub_at_start assert_re (replace_assertion args))
              (readlines content)).

Definition property_selection (args : Args.t) (fs : files) : result files :=
  content <- open_read fs (Args.bpl_file args) ;;
  Ok (write_file fs (Args.bpl_file args) (selected args content)).

(** *** transform_bpl (top.py, lines 625-632) *)

Section Filter.
Variable shlex_split : text -> result (list text).
(** [Popen(argv, stdin=PIPE, stdout=bpl)] and [communicate(input)]: what
    the child writes to its standard output, that is, into the file. *)
Variable popen_into_file : list text -> text -> result text.

(** The file is emptied before the command line is split and the process
    started. *)
Definition transform_bpl (args : Args.t) (fs : files) : result files * files :=
  match truthy (Args.transform_bpl args) with
  | Some cmd =>
      match open_read fs (Args.bpl_file args) with
      | Ok old =>
          let emptied := write_file fs (Args.bpl_file args) [] in
          match shlex_split cmd with
          | Ok argv =>
              match popen_into_file argv old with
              | Ok out =>
                  let fs' := write_file fs (Args.bpl_file args) out in
                  (Ok fs', fs')
              | Raise e => (Raise e, emptied)
              end
          | Raise e => (Raise e, emptied)
          end
      | Raise e => (Raise e, fs)
      end
  | None => (Ok fs, fs)
  end.

End Filter.

(** *** verify_bpl (top.py, lines 664-737) *)

(** What [verify_bpl] does to the outside, in order. *)
Inductive event : Type :=
| CallSvcomp : event                          (* verify_bpl_svcomp(args) *)
| RunVerifier : list text -> Z -> event       (* try_command(command, timeout) *)
| RunFilter : list text -> text -> event      (* the output filter *)
| PrintReport : json_data -> event            (* print smackdOutput(...) *)
| Print : text -> event                       (* print *)
| WriteFile : text -> text -> event           (* the error file *)
| Replay : text -> event.                     (* replay_error_trace(...) *)

(** How it ends: by returning, by [sys.exit(message)], by an exception
    ([KeyError] is the one of a failed lookup in [results]), or inside
    [verify_bpl_svcomp], when that call does not return. *)
Inductive ending : Type :=
| Returns : ending
| Exits : text -> ending
| Raises : exn -> ending
| KeyError : text -> ending
| EndsInSvcomp : ending.

Definition verifier_command (args : Args.t) : list text :=
  let command :=
    if (text_eqb (Args.verifier args) "boogie" || Args.modular args)%bool then
      [lit "boogie"; Args.bpl_file args; lit "/nologo"; lit "/noinfer";
       lit "/doModSetAnalysis";
       lit "/timeLimit:" ++ py_str_int (Args.time_limit args);
       lit "/errorLimit:" ++ py_str_int (Args.max_violations args)]
      ++ (if negb (Args.modular args)
          then [lit "/loopUnroll:" ++ py_str_int (Args.unroll args)] else [])
    else if text_eqb (Args.verifier args) "corral" then
      [lit "corral"; Args.bpl_file args; lit "/tryCTrace"; lit "/noTraceOnDisk";
       lit "/printDataValues:1";
       lit "/k:" ++ py_str_int (Args.context_bound args);
       lit "/useProverEvaluate";
       lit "/timeLimit:" ++ py_str_int (Args.time_limit args);
       lit "/cex:" ++ py_str_int (Args.max_violations args);
       lit "/maxStaticLoopBound:" ++ py_str_int (Args.loop_limit args);
       lit "/recursionBound:" ++ py_str_int (Args.unroll args)]
    else if text_eqb (Args.verifier args) "symbooglix" then
      [lit "symbooglix"; Args.bpl_file args; lit "--file-logging=0";
       lit "--entry-points=" ++ join (lit ",") (Args.entry_points args);
       lit "--timeout=" ++ py_str_int (Args.time_limit args);
       lit "--max-loop-depth=" ++ py_str_int (Args.unroll args)]
    else
      [lit "corral"; Args.bpl_file args; lit "/tryCTrace"; lit "/noTraceOnDisk";
       lit "/useDuality"; lit "/oldStratifiedInlining";
       lit "/recursionBound:1073741824"; lit "/k:1"] in
  let command :=
    if ((Args.bit_precise args || Args.float args)
        && negb (text_eqb (Args.verifier args) "symbooglix"))%bool then
      let x := if negb (text_eqb (Args.verifier args) "boogie")
               then lit "bopt:" else [] in
      command ++ [lit "/" ++ x ++ lit "proverOpt:OPTIMIZE_FOR_BV=true";
                  lit "/" ++ x ++ lit "boolControlVC"]
    else command in
  match truthy (Some (Args.verifier_options args)) with
  | Some options => command ++ py_split options
  | None => command
  end.

Definition is_error_result (result : string) : bool :=
  (String.eqb result "error" || String.eqb result "invalid-deref"
   || String.eqb result "invalid-free" || String.eqb result "invalid-memtrack"
   || String.eqb result "overflow")%bool.

Section Verify.
(** [try_command] (utils.py), the operating system as [transform_out] sees
    it, and the files.  The calls out that are recorded as events are taken
    to return. *)
Variable try_command : list text -> Z -> result text.
Variable shlex_split : text -> result (list text).
Variable popen_communicate : list text -> text -> result (text * text * N).
Variable fs : files.
(** [verify_bpl_svcomp] (svcomp/utils.py) is not among these sources.  All
    that is taken of a call is whether it returns; when it does not (it
    exits or raises), the run ends there.  What it prints or writes is
    inside the event of the call. *)
Variable verify_bpl_svcomp_returns : Args.t -> bool.

(** Lines 722-733: the error trace, to the error file, to the screen and
    to the replay. *)
Definition report_error (args : Args.t) (verifier_output : text)
    : result (list event) :=
  error <- error_trace fs verifier_output ;;
  Ok ((match truthy (Args.error_file args) with
       | Some f => [WriteFile f error]
       | None => []
       end)
      ++ (if negb (Args.quiet args) then [Print error] else [])
      ++ (if Args.replay args then [Replay verifier_output] else [])).

(** Line 735: [sys.exit(results(args)[result])] *)
Definition exit_with (args : Args.t) (result : string) : ending :=
  match lookup (results args) (lit result) with
  | Some message => Exits message
  | None => KeyError (lit result)
  end.

Definition verify_bpl (args : Args.t) : list event * ending :=
  if text_eqb (Args.verifier args) "svcomp" then
    ([CallSvcomp],
     if verify_bpl_svcomp_returns args then Returns else EndsInSvcomp)
  else
    let command := verifier_command args in
    let ran := [RunVerifier command (Args.time_limit args)] in
    match try_command command (Args.time_limit args) with
    | Raise e => (ran, Raises e)
    | Ok verifier_output =>
        let (transformed, started) :=
          transform_out shlex_split popen_communicate
                        (Args.transform_out args) verifier_output [] in
        let ran := ran ++ map (fun p => RunFilter (fst p) (snd p)) started in
        match transformed with
        | Raise e => (ran, Raises e)
        | Ok verifier_output =>
            let result := verification_result verifier_output in
            if Args.smackd args then
              (ran ++ [PrintReport (smackdOutput verifier_output)], Returns)
            else if String.eqb result "verified" then
              match lookup (results args) (lit result) with
              | Some message => (ran ++ [Print message], Returns)
              | None => (ran, KeyError (lit result))
              end
            else if is_error_result result then
              match report_error args verifier_output with
              | Ok reported => (ran ++ reported, exit_with args result)
              | Raise e => (ran, Raises e)
              end
            else (ran, exit_with args result)
        end
    end.

End Verify.

End Smack.

(** * The vocabulary of the statements *)

Module Spec.
Import Smack.
Local Open Scope string_scope.
Local Open Scope list_scope.

(** ** What a pattern matches

    [Matches r s rest]: the pattern [r] can match the text [s] when [rest]
    is what follows in the input ([$] looks at what follows). *)
Inductive Matches : regex -> text -> text -> Prop :=
| M_Eps : forall rest, Matches Eps [] rest
| M_Chr : forall (p : ascii -> bool) a rest, p a = true -> Matches (Chr p) [a] rest
| M_Lit : forall l rest, Matches (Lit l) l rest
| M_Seq : forall r1 r2 s1 s2 rest,
    Matches r1 s1 (s2 ++ rest) -> Matches r2 s2 rest ->
    Matches (Seq r1 r2) (s1 ++ s2) rest
| M_AltL : forall r1 r2 s rest, Matches r1 s rest -> Matches (Alt r1 r2) s rest
| M_AltR : forall r1 r2 s rest, Matches r2 s rest -> Matches (Alt r1 r2) s rest
| M_Star0 : forall r rest, Matches (Star r) [] rest
| M_StarS : forall r s1 s2 rest,
    Matches r s1 (s2 ++ rest) -> Matches (Star r) s2 rest ->
    Matches (Star r) (s1 ++ s2) rest
| M_Group : forall i r s rest, Matches r s rest -> Matches (Group i r) s rest
| M_Eol : forall rest, rest = [] \/ rest = [newline] -> Matches Eol [] rest.

(** [m] occurs in [s]. *)
Definition occurs (m s : text) : Prop :=
  exists pre post, s = pre ++ m ++ post.

(** The pattern [r] matches somewhere in [s]. *)
Definition matches_in (r : regex) (s : text) : Prop :=
  exists pre m post, s = pre ++ m ++ post /\ Matches r m post.

(** A run of the matcher is sound when each of its results comes from a
    match; a continuation accepts an input when it succeeds on it whatever
    the groups. *)
Definition sound_body (A : Type) (body : text -> caps -> cont A -> option A)
    (r : regex) : Prop :=
  forall s c k x, body s c k = Some x ->
    exists s1 rest c', s = s1 ++ rest /\ Matches r s1 rest /\ k rest c' = Some x.

Definition accepts (A : Type) (k : cont A) (rest : text) : Prop :=
  forall c, k rest c <> None.

(** On a character class the greedy iteration is a plain recursion over
    the input: take the character if it is in the class and try the longer
    match first. *)
Fixpoint greedy_chr (A : Type) (p : ascii -> bool) (k : cont A) (s : text)
    (c : caps) : option A :=
  match s with
  | a :: s' =>
      if p a then
        match greedy_chr p k s' c with
        | Some x => Some x
        | None => k s c
        end
      else k s c
  | [] => k s c
  end.

(** The input stops the class: it is empty or starts outside the class. *)
Definition stops (p : ascii -> bool) (rest : text) : Prop :=
  match rest with
  | [] => True
  | a :: _ => p a = false
  end.

Definition all_in (p : ascii -> bool) (w : text) : Prop :=
  Forall (fun a => p a = true) w.

(** [runs r w rest f]: followed by [rest], the pattern [r] matches [w]
    first, and records its groups by [f]; whatever continuation succeeds
    there decides the result. *)
Definition runs (r : regex) (w rest : text) (f : caps -> caps) : Prop :=
  forall A (k : cont A) c x,
    k rest (f c) = Some x -> exec r (w ++ rest) c k = Some x.

Definition same : caps -> caps := fun c => c.

(** The continuation fails on every input that starts inside the class:
    the repetition before it has one useful length. *)
Definition fails_inside (A : Type) (p : ascii -> bool) (k : cont A) : Prop :=
  forall b t c, p b = true -> k (b :: t) c = None.

(** ** The markers of [verification_result], stated on the text *)

Definition digits (ds : text) : Prop := Forall (fun c => is_digit c = true) ds.

(** A count N >= 1 as a program prints it: a non-zero digit, then digits. *)
Definition positive_count (n : text) : Prop :=
  exists d ds, n = d :: ds /\ is_nonzero_digit d = true /\ digits ds.

(** "N<suffix>" with N >= 1 occurs in [s]. *)
Definition count_marker (suffix s : text) : Prop :=
  exists n, positive_count n /\ occurs (n ++ suffix) s.

Definition timeout_marker (s : text) : Prop :=
  count_marker " time out" s \/ occurs "Z3 ran out of resources" s
  \/ occurs "timed out" s \/ occurs "ERRORS_TIMEOUT" s.

Definition verified_marker (s : text) : Prop :=
  count_marker " verified, 0 error" s \/ occurs "no bugs" s
  \/ occurs "NO_ERRORS_NO_TIMEOUT" s.

(** "K verified, M error" with M >= 1 (the count K may be anything), or one
    of the two literal markers. *)
Definition failure_marker (s : text) : Prop :=
  (exists m, positive_count m /\ occurs (lit " verified, " ++ m ++ lit " error") s)
  \/ occurs "can fail" s \/ occurs "ERRORS_NO_TIMEOUT" s.

Definition valid_deref_marker : text := "ASSERTION FAILS assert {:valid_deref}".
Definition valid_free_marker : text := "ASSERTION FAILS assert {:valid_free}".
Definition valid_memtrack_marker : text := "ASSERTION FAILS assert {:valid_memtrack}".
Definition overflow_marker : text := "ASSERTION FAILS assert {:overflow}".

(** ** The generated artifact and its annotations *)

(** Line [n] of the artifact, numbered from 1 as the verifier reports it. *)
Definition line_at (lines : list text) (n : nat) : option text :=
  match n with
  | O => None
  | S i => nth_error lines i
  end.

(** The annotation as the artifact carries it. *)
Definition annotation (file ln col : text) : text :=
  sourceloc_open ++ file ++ sourceloc_sep ++ ln ++ lit ", " ++ col ++ lit "}".

(** The line carries the annotation, and no opening brace after it. *)
Definition carries (l file ln col : text) : Prop :=
  exists pre post,
    l = pre ++ annotation file ln col ++ post /\
    all_in is_dot pre /\ ~ In "{"%char post.

(** An artifact whose line 45 carries an annotation. *)
Definition scenario_D_artifact : text :=
  lit "procedure main()" ++ concat (repeat [newline] 43)
  ++ lit "  call $r := f();" ++ [newline]
  ++ lit "  assume " ++ annotation "main.c" "10" "2" ++ lit " true;" ++ [newline]
  ++ lit "  assert $r != 0;" ++ [newline].

(** ** The trace lines of Corral *)

(** A file name as the patterns of [smackdOutput] accept it, and a number. *)
Definition filename (w : text) : Prop := all_in is_filename_char w /\ w <> [].
Definition number (w : text) : Prop := all_in is_digit w /\ w <> [].

(** "file(line,col): " *)
Definition located (fname ln cn : text) : text :=
  fname ++ lit "(" ++ ln ++ lit "," ++ cn ++ lit "): ".

(** "file(line,col): Trace: Thread=T  " followed by the fragment, if any,
    and the line terminator. *)
Definition trace_line (fname ln cn tid fragment eol : text) : text :=
  located fname ln cn ++ lit "Trace: Thread=" ++ tid ++ lit "  " ++ fragment ++ eol.

(** What the groups 1 to 3 hold after the location. *)
Definition located_caps (fname ln cn : text) (c : caps) : caps :=
  (3, cn) :: (2, ln) :: (1, fname) :: c.

(** What follows the thread id in the two trace patterns. *)
Definition fragment_re : regex :=
  (Opt (Group 5 (Lit "(" >> Group 6 (Star (Chr is_dot)) >> Lit ")")) >> Eol)%re.

Definition assume_fragment_re : regex :=
  (Group 5 (Lit "("
       >> Group 6 (Star (Chr is_space) >> Plus (Chr is_word) >> Star (Chr is_space)
                   >> Lit "=" >> Star (Chr is_space) >> Plus (Chr is_word)
                   >> Star (Chr is_space))
       >> Lit ")")
  >> Eol)%re.

Definition trace_caps (fname ln cn tid : text) (c : caps) : caps :=
  (4, tid) :: located_caps fname ln cn c.

(** A word, and an assumption "variable = VALUEbvWIDTH". *)
Definition word (w : text) : Prop := all_in is_word w /\ w <> [].

Definition bv_assumption (var v w : text) : text :=
  var ++ lit " = " ++ v ++ lit "bv" ++ w.

(** The steps one line adds to the report. *)
Definition line_trace (l : text) : list trace :=
  st_traces (smackd_line init_state l).

(** What [re.sub] keeps of a character outside a match. *)
Definition keep_char (a : ascii) : text := [a].

(** ** Located diagnostics, as [error_step] reads them *)

(** indentation, file name, "(line,col): ", message *)
Definition diagnostic (indent fname ln cn msg : text) : text :=
  indent ++ fname ++ lit "(" ++ ln ++ lit "," ++ cn ++ lit "): " ++ msg.

Definition ends_with (suffix s : text) : Prop := exists pre, s = pre ++ suffix.

(** The message names a basic block: "$bb" and a digit, after characters
    other than a newline. *)
Definition has_block_label (msg : text) : Prop :=
  exists pre d post,
    msg = pre ++ lit "$bb" ++ d :: post /\ all_in is_dot pre /\ is_digit d = true.

(** The code of an error line: capitals and digits. *)
Definition is_code_char (c : ascii) : bool := (is_upper c || is_digit c)%bool.

(** The line terminators after which [$] and the end of [.*] agree. *)
Definition line_end (eol : text) : Prop := eol = [] \/ eol = [newline].

(** "file(line,col)" with its indentation, and the message of an error
    line: "error CODE: description" or "Error CODE: description". *)
Definition position (indent fname ln cn : text) : text :=
  indent ++ fname ++ lit "(" ++ ln ++ lit "," ++ cn ++ lit ")".

Definition error_message (e : ascii) (code desc : text) : text :=
  e :: lit "rror " ++ code ++ lit ": " ++ desc.

(** A character that ends no line. *)
Definition is_plain (c : ascii) : bool :=
  negb (Ascii.eqb c newline || Ascii.eqb c carriage_return).

(** An error line of Corral: "file(line,col): error description". *)
Definition error_line (fname ln cn desc eol : text) : text :=
  located fname ln cn ++ lit "error " ++ desc ++ eol.

(** ** The command line and the Boogie file *)

(** The defaults of [arguments] (top.py, lines 103-279), for the Boogie
    file [bpl]. *)
Definition default_arguments (bpl : text) : Args.t :=
  Args.mk None [lit "main"] false "corral" false false 1 1 1 1200 1 [] bpl
          false false false false false false None None None.

Definition starts_with (prefix s : text) : Prop := exists post, s = prefix ++ post.

(** The text is empty or ends a line. *)
Definition whole_lines (s : text) : Prop := s = [] \/ ends_with [newline] s.

(** The two comment lines and the empty line [annotate_bpl] puts first. *)
Definition generated_header (verifier : text) (argv : list text) : text :=
  lit "// generated by SMACK version 1.9.0 for " ++ verifier ++ [newline]
  ++ lit "// via " ++ join (lit " ") argv ++ [newline] ++ [newline].

(** A character of a procedure name: neither white space nor "(". *)
Definition is_name_char (c : ascii) : bool :=
  negb (is_space c || Ascii.eqb c "(")%bool.

(** The head of a procedure declaration, up to its "(", and what
    [annotate_bpl] makes of it. *)
Definition declaration (gap name gap' : text) : text :=
  lit "procedure" ++ gap ++ name ++ gap' ++ lit "(".

Definition annotated_declaration (attribute name : text) : text :=
  lit "procedure " ++ attribute ++ lit " " ++ name ++ lit "(".

(** An assertion up to its ";": indentation, "assert", white space, an
    attribute or nothing, the expression. *)
Definition attribute (name : text) : text := lit "{:" ++ name ++ lit "}".

Definition assertion (indent gap attr expr : text) : text :=
  indent ++ lit "assert" ++ gap ++ attr ++ expr ++ lit ";".

(** White space within a line, and the first character of an expression
    that does not start with an attribute: neither white space nor "{". *)
Definition is_blank (c : ascii) : bool := (is_space c && is_dot c)%bool.

Definition is_expression_start (c : ascii) : bool :=
  (negb (is_space c || Ascii.eqb c "{") && is_dot c)%bool.

(** Command lines: --modular, --only-check-valid-deref, -x LANG, --smackd
    and --transform-bpl COMMAND, the rest as by default. *)
Definition modular_arguments (bpl : text) : Args.t :=
  Args.mk None [lit "main"] true "corral" false false 1 1 1 1200 1 [] bpl
          false false false false false false None None None.

Definition valid_deref_arguments (bpl : text) : Args.t :=
  Args.mk None [lit "main"] false "corral" false false 1 1 1 1200 1 [] bpl
          true false false false false false None None None.

Definition language_arguments (language bpl : text) : Args.t :=
  Args.mk (Some language) [lit "main"] false "corral" false false 1 1 1 1200 1 []
          bpl false false false false false false None None None.


Definition filtered_arguments (command bpl : text) : Args.t :=
  Args.mk None [lit "main"] false "corral" false false 1 1 1 1200 1 [] bpl
          false false false false false false None (Some command) None.



(** An artifact whose line 2 carries two annotations. *)
Definition two_annotations_artifact : text :=
  lit "procedure main()" ++ [newline]
  ++ lit "  assume " ++ annotation "x.c" "1" "2" ++ lit " "
  ++ annotation "y.c" "30" "4" ++ lit " true;" ++ [newline].

(** A call of [verify_bpl_svcomp] that returns. *)
Definition svcomp_returns (args : Args.t) : bool := true.

(** A filter that cannot be started. *)
Definition missing_filter (argv : list text) (input : text) : result text :=
  Raise (OSError argv).

(** A verifier that answers with the given output. *)
Definition answering (output : text) (command : list text) (timeout : Z)
    : result text := Ok output.

(** ** An external filter *)

(** A command that writes part of its output and exits with status 1. *)
Definition failing_filter (argv : list text) (input : text)
    : result (text * text * N) :=
  Ok (lit "partial", lit "filter: broken", 1%N).

Definition split_words (cmd : text) : result (list text) := Ok [cmd].

End Spec.
Export Spec.

(** * Properties of the matcher *)

Module ReFacts.

Create HintDb re.
#[export] Hint Constructors Matches : re.

Lemma strip_prefix_app : forall l s, strip_prefix l (l ++ s) = Some s.
Proof.
  induction l as [|a l IH]; intros s; simpl; [reflexivity|].
  rewrite Ascii.eqb_refl. apply IH.
Qed.

Lemma strip_prefix_Some : forall l s s',
  strip_prefix l s = Some s' -> s = l ++ s'.
Proof.
  induction l as [|a l IH]; intros s s' H; simpl in *.
  - now inversion H.
  - destruct s as [|b s]; [discriminate|].
    destruct (Ascii.eqb a b) eqn:E; [|discriminate].
    apply Ascii.eqb_eq in E. subst b. f_equal. now apply IH.
Qed.

(** ** Soundness: a successful run exhibits a match *)

Section Soundness.
Variable A : Type.

Lemma star_loop_sound :
  forall (body : text -> caps -> cont A -> option A) r, sound_body body r ->
  forall n k s c x, star_loop body k n s c = Some x ->
    exists s1 rest c', s = s1 ++ rest /\ Matches (Star r) s1 rest /\ k rest c' = Some x.
Proof.
  intros body r Hb n. induction n as [|n IH]; intros k s c x H; simpl in H.
  - exists [], s, c. auto with re.
  - destruct (body s c _) as [y|] eqn:E.
    + inversion H; subst y; clear H.
      apply Hb in E. destruct E as (s1 & rest & c' & -> & Hm & Hk).
      destruct (Nat.ltb _ _); [|discriminate].
      apply IH in Hk. destruct Hk as (s2 & rest' & c'' & -> & Hm' & Hk).
      exists (s1 ++ s2), rest', c''. rewrite app_assoc. auto with re.
    + exists [], s, c. auto with re.
Qed.

Lemma exec_sound : forall r, sound_body (@exec A r) r.
Proof.
  induction r as [|p|l|r1 IH1 r2 IH2|r1 IH1 r2 IH2|r1 IH1|i r1 IH1|];
    intros s c k x H; simpl in H.
  - exists [], s, c. auto with re.
  - destruct s as [|a s]; [discriminate|].
    destruct (p a) eqn:E; [|discriminate].
    exists [a], s, c. auto with re.
  - destruct (strip_prefix l s) as [s'|] eqn:E; [|discriminate].
    apply strip_prefix_Some in E. exists l, s', c. auto with re.
  - apply IH1 in H. destruct H as (s1 & rest & c' & -> & Hm & Hk).
    apply IH2 in Hk. destruct Hk as (s2 & rest' & c'' & -> & Hm' & Hk).
    exists (s1 ++ s2), rest', c''. rewrite app_assoc. auto with re.
  - destruct (exec r1 s c k) as [y|] eqn:E.
    + inversion H; subst y. apply IH1 in E.
      destruct E as (s1 & rest & c' & -> & Hm & Hk).
      exists s1, rest, c'. auto with re.
    + apply IH2 in H. destruct H as (s1 & rest & c' & -> & Hm & Hk).
      exists s1, rest, c'. auto with re.
  - eapply star_loop_sound; eauto.
  - apply IH1 in H. destruct H as (s1 & rest & c' & -> & Hm & Hk).
    eexists s1, rest, _. eauto with re.
  - destruct s as [|a [|b s]]; try discriminate.
    + exists [], [], c. auto with re.
    + destruct (Ascii.eqb a newline) eqn:E; [|discriminate].
      apply Ascii.eqb_eq in E. subst a.
      exists [], [newline], c. auto with re.
Qed.

End Soundness.

(** ** Completeness: where a match exists, the run succeeds *)

Section Completeness.
Variable A : Type.

Lemma star_loop_complete : forall r,
  (forall s rest, Matches r s rest ->
     forall k, accepts k rest -> forall c, @exec A r (s ++ rest) c k <> None) ->
  forall s rest, Matches (Star r) s rest ->
  forall k, accepts k rest -> forall n c,
    length (s ++ rest) <= n -> star_loop (@exec A r) k n (s ++ rest) c <> None.
Proof.
  intros r Hr s rest H. remember (Star r) as r' eqn:E.
  induction H as [| | | | | |r0 rest|r0 s1 s2 rest H1 _ H2 IH2| |];
    try discriminate; inversion E; subst r0; clear E; intros k Hk n c Hn.
  - destruct n; simpl; [apply Hk|].
    destruct (exec r rest c _); [discriminate|apply Hk].
  - destruct s1 as [|a s1'] eqn:Es1; [now apply IH2|].
    assert (Hlen : 0 < length s1) by (subst s1; simpl; lia).
    rewrite <- Es1 in *. clear Es1 a s1'.
    rewrite <- app_assoc in *.
    destruct n as [|n]; [rewrite length_app in Hn; lia|]. simpl star_loop.
    match goal with |- match ?e with _ => _ end <> None => destruct e eqn:E end;
      [discriminate|].
    exfalso. revert E. apply (Hr _ _ H1).
    intros c'.
    replace (Nat.ltb _ _) with true.
    + apply IH2; auto. rewrite length_app in Hn. lia.
    + symmetry. apply Nat.ltb_lt. rewrite (length_app s1). lia.
Qed.

Theorem exec_complete : forall r s rest, Matches r s rest ->
  forall k, accepts k rest -> forall c, @exec A r (s ++ rest) c k <> None.
Proof.
  induction r as [|p|l|r1 IH1 r2 IH2|r1 IH1 r2 IH2|r1 IH1|i r1 IH1|];
    intros s rest H k Hk c.
  - inversion H; subst. apply Hk.
  - inversion H; subst. simpl. rewrite H1. apply Hk.
  - inversion H; subst. simpl. rewrite strip_prefix_app. apply Hk.
  - inversion H; subst. simpl. rewrite <- app_assoc.
    apply IH1; auto. intros c'. now apply IH2.
  - simpl. destruct (exec r1 (s ++ rest) c k) eqn:E; [discriminate|].
    inversion H; subst.
    + exfalso. revert E. now apply IH1.
    + now apply IH2.
  - simpl. apply star_loop_complete; auto.
  - inversion H; subst. simpl. apply IH1; auto. intros c'. apply Hk.
  - inversion H; subst. simpl.
    destruct H0 as [-> | ->]; simpl; apply Hk.
Qed.

End Completeness.

(** ** [re.search] finds a match exactly when there is one *)

Lemma re_match_found : forall r s,
  found (re_match r s) = true <-> exists m post, s = m ++ post /\ Matches r m post.
Proof.
  intros r s. unfold re_match. split.
  - destruct (exec _ _ _ _) as [x|] eqn:E; [intros _|discriminate].
    apply exec_sound in E. destruct E as (s1 & rest & c' & -> & Hm & _).
    inversion Hm; subst. eauto.
  - intros (m & post & -> & Hm).
    destruct (exec _ _ _ _) eqn:E; [reflexivity|].
    exfalso. revert E. apply exec_complete; auto with re.
    intros c. discriminate.
Qed.

Theorem re_search_found : forall r s,
  found (re_search r s) = true <-> matches_in r s.
Proof.
  intros r s. unfold matches_in. induction s as [|a s IH].
  - simpl. pose proof (re_match_found r []) as Hm.
    destruct (re_match r []) eqn:E; simpl in *.
    + split; [intros _|reflexivity].
      destruct (proj1 Hm eq_refl) as (m & post & Heq & HM).
      exists [], m, post. auto.
    + split; [discriminate|]. intros (pre & m & post & Heq & HM).
      apply Hm. destruct pre; [|discriminate Heq]. simpl in Heq. eauto.
  - simpl. pose proof (re_match_found r (a :: s)) as Hm.
    destruct (re_match r (a :: s)) eqn:E; simpl in *.
    + split; [intros _|reflexivity].
      destruct (proj1 Hm eq_refl) as (m & post & Heq & HM).
      exists [], m, post. auto.
    + rewrite IH. split.
      * intros (pre & m & post & -> & HM). exists (a :: pre), m, post. auto.
      * intros (pre & m & post & Heq & HM). destruct pre as [|b pre].
        -- exfalso. assert (Hf : false = true); [|discriminate Hf].
           apply Hm. simpl in Heq. eauto.
        -- inversion Heq; subst. eauto.
Qed.

Corollary re_search_none : forall r s,
  found (re_search r s) = false <-> ~ matches_in r s.
Proof.
  intros r s. rewrite <- re_search_found.
  destruct (found _); split; congruence.
Qed.

Lemma matches_in_lit : forall l s, matches_in (Lit l) s <-> occurs l s.
Proof.
  intros l s. split.
  - intros (pre & m & post & -> & H). inversion H; subst. now exists pre, post.
  - intros (pre & post & ->). exists pre, l, post. auto with re.
Qed.

Lemma firstn_consumed : forall (s1 rest : text),
  firstn (length (s1 ++ rest) - length rest) (s1 ++ rest) = s1.
Proof.
  intros s1 rest. rewrite length_app.
  replace (length s1 + length rest - length rest) with (length s1) by lia.
  rewrite firstn_app, firstn_all, Nat.sub_diag. simpl. apply app_nil_r.
Qed.

(** ** Greedy repetition of a character class *)

Section Greedy.
Variable A : Type.

Lemma star_loop_chr : forall p k s n c,
  length s <= n ->
  star_loop (@exec A (Chr p)) k n s c = greedy_chr p k s c.
Proof.
  intros p k s. induction s as [|a s IH]; intros n c Hn.
  - destruct n; reflexivity.
  - destruct n as [|n]; [simpl in Hn; lia|].
    cbn [star_loop exec greedy_chr]. destruct (p a); [|reflexivity].
    replace (Nat.ltb (length s) (length (a :: s))) with true
      by (symmetry; apply Nat.ltb_lt; simpl; lia).
    rewrite IH by (simpl in Hn; lia). reflexivity.
Qed.

Lemma exec_star_chr : forall p s c k,
  @exec A (Star (Chr p)) s c k = greedy_chr p k s c.
Proof. intros. cbn [exec]. now apply star_loop_chr. Qed.

Lemma greedy_chr_stop : forall p (k : cont A) rest c,
  stops p rest -> greedy_chr p k rest c = k rest c.
Proof.
  intros p k [|a rest] c H; simpl in *; [reflexivity|now rewrite H].
Qed.

(** The longest run is tried first. *)
Lemma greedy_chr_run : forall p (k : cont A) w rest c x,
  all_in p w -> stops p rest -> k rest c = Some x ->
  greedy_chr p k (w ++ rest) c = Some x.
Proof.
  intros p k w rest c x Hw Hs Hk. induction Hw as [|a w Ha _ IH].
  - simpl. now rewrite greedy_chr_stop.
  - simpl. now rewrite Ha, IH.
Qed.

(** When the continuation fails after every longer run, the iteration backs
    up to the split where it succeeds. *)
Lemma greedy_chr_later_fail : forall p (k : cont A) w c,
  (forall t1 t2, w = t1 ++ t2 -> t1 <> [] -> all_in p t1 -> k t2 c = None) ->
  greedy_chr p k w c = k w c.
Proof.
  intros p k w c. induction w as [|a w IH]; intros H; [reflexivity|].
  simpl. destruct (p a) eqn:Ha; [|reflexivity].
  rewrite IH.
  - rewrite (H [a] w); auto; [discriminate|]. now constructor.
  - intros t1 t2 -> Hne Ht. apply (H (a :: t1) t2); auto; [discriminate|].
    now constructor.
Qed.

Lemma greedy_chr_backtrack : forall p (k : cont A) w1 w2 c x,
  all_in p w1 -> k w2 c = Some x ->
  (forall t1 t2, w2 = t1 ++ t2 -> t1 <> [] -> all_in p t1 -> k t2 c = None) ->
  greedy_chr p k (w1 ++ w2) c = Some x.
Proof.
  intros p k w1 w2 c x Hw Hk Hlater. induction Hw as [|a w Ha _ IH].
  - simpl. now rewrite greedy_chr_later_fail.
  - simpl. now rewrite Ha, IH.
Qed.

End Greedy.

(** ** Runs: the deterministic part of a match *)
Lemma runs_lit : forall l rest, runs (Lit l) l rest same.
Proof. intros l rest A k c x H. simpl. now rewrite strip_prefix_app. Qed.

Lemma runs_star : forall p w rest,
  all_in p w -> stops p rest -> runs (Star (Chr p)) w rest same.
Proof.
  intros p w rest Hw Hs A k c x H. rewrite exec_star_chr.
  now apply greedy_chr_run.
Qed.

Lemma runs_plus : forall p w rest,
  all_in p w -> w <> [] -> stops p rest -> runs (Plus (Chr p)) w rest same.
Proof.
  intros p w rest Hw Hne Hs A k c x H. destruct Hw as [|a w Ha Hw]; [congruence|].
  change (exec (Plus (Chr p)) ((a :: w) ++ rest) c k)
    with (if p a then exec (Star (Chr p)) (w ++ rest) c k else None).
  rewrite Ha, exec_star_chr. now apply greedy_chr_run.
Qed.

Lemma runs_seq : forall r1 r2 w1 w2 rest f1 f2,
  runs r1 w1 (w2 ++ rest) f1 -> runs r2 w2 rest f2 ->
  runs (Seq r1 r2) (w1 ++ w2) rest (fun c => f2 (f1 c)).
Proof.
  intros r1 r2 w1 w2 rest f1 f2 H1 H2 A k c x H. cbn [exec].
  rewrite <- app_assoc. apply H1. now apply H2.
Qed.

Lemma runs_group : forall i r w rest f,
  runs r w rest f -> runs (Group i r) w rest (fun c => (i, w) :: f c).
Proof.
  intros i r w rest f Hr A k c x H. cbn [exec]. apply Hr.
  now rewrite firstn_consumed.
Qed.

Lemma runs_eol : forall rest,
  rest = [] \/ rest = [newline] -> runs Eol [] rest same.
Proof. intros rest [-> | ->] A k c x H; exact H. Qed.

Lemma runs_exec : forall r w rest f A (k : cont A) c x,
  runs r w rest f -> k rest (f c) = Some x -> exec r (w ++ rest) c k = Some x.
Proof. intros r w rest f A k c x H. apply H. Qed.

(** Build a run along the shape of the pattern; the side conditions on the
    character classes are left to the caller. *)
Ltac run_along :=
  lazymatch goal with
  | |- runs (Plus (Chr _)) _ _ _ => apply runs_plus
  | |- runs (Star (Chr _)) _ _ _ => apply runs_star
  | |- runs (Lit _) _ _ _ => apply runs_lit
  | |- runs (Group _ _) _ _ _ => eapply runs_group; run_along
  | |- runs (Seq _ _) _ _ _ => eapply runs_seq; [run_along|run_along]
  | |- runs Eol _ _ _ => apply runs_eol
  end.

(** ** Runs that are the only way to match

    When what follows a repetition cannot start inside the class, the
    repetition has one useful length, and the match is an equation. *)

Lemma greedy_chr_exact : forall A p (k : cont A) w rest c,
  all_in p w -> stops p rest -> fails_inside p k ->
  greedy_chr p k (w ++ rest) c = k rest c.
Proof.
  intros A p k w rest c Hw Hs Hk. induction Hw as [|a w Ha _ IH].
  - simpl. now apply greedy_chr_stop.
  - simpl. rewrite Ha, IH, (Hk a (w ++ rest) c Ha).
    now destruct (k rest c).
Qed.

Lemma exec_plus_exact : forall A p (k : cont A) w rest c,
  all_in p w -> w <> [] -> stops p rest -> fails_inside p k ->
  exec (Plus (Chr p)) (w ++ rest) c k = k rest c.
Proof.
  intros A p k w rest c Hw Hne Hs Hk. destruct Hw as [|a w Ha Hw]; [congruence|].
  change (exec (Plus (Chr p)) ((a :: w) ++ rest) c k)
    with (if p a then exec (Star (Chr p)) (w ++ rest) c k else None).
  rewrite Ha, exec_star_chr. now apply greedy_chr_exact.
Qed.

Lemma exec_group_plus_exact : forall A i p (k : cont A) w rest c,
  all_in p w -> w <> [] -> stops p rest -> fails_inside p k ->
  exec (Group i (Plus (Chr p))) (w ++ rest) c k = k rest ((i, w) :: c).
Proof.
  intros A i p k w rest c Hw Hne Hs Hk.
  change (exec (Group i (Plus (Chr p))) (w ++ rest) c k)
    with (exec (Plus (Chr p)) (w ++ rest) c
            (fun s' c' => k s' ((i, firstn (length (w ++ rest) - length s')
                                           (w ++ rest)) :: c'))).
  rewrite exec_plus_exact; auto.
  - now rewrite firstn_consumed.
  - intros b t c' Hb. now apply Hk.
Qed.

Lemma exec_group_eq : forall A i r s c (k : cont A),
  exec (Group i r) s c k =
  exec r s c (fun s' c' => k s' ((i, firstn (length s - length s') s) :: c')).
Proof. reflexivity. Qed.

Lemma exec_seq_eq : forall A r1 r2 s c (k : cont A),
  exec (Seq r1 r2) s c k = exec r1 s c (fun s' c' => exec r2 s' c' k).
Proof. reflexivity. Qed.

Lemma exec_alt_eq : forall A r1 r2 s c (k : cont A),
  exec (Alt r1 r2) s c k =
  match exec r1 s c k with
  | Some x => Some x
  | None => exec r2 s c k
  end.
Proof. reflexivity. Qed.

Lemma exec_lit_app : forall A l rest c (k : cont A),
  exec (Lit l) (l ++ rest) c k = k rest c.
Proof. intros. simpl. now rewrite strip_prefix_app. Qed.

Lemma exec_lit_head : forall A a l r t c (k : cont A),
  match t with [] => True | b :: _ => b <> a end ->
  exec (Seq (Lit (a :: l)) r) t c k = None.
Proof.
  intros A a l r [|b t] c k H; [reflexivity|]. cbn [exec strip_prefix].
  destruct (Ascii.eqb a b) eqn:E; [|reflexivity].
  apply Ascii.eqb_eq in E. congruence.
Qed.

(** A literal fails on an input that starts with another character. *)
Lemma lit_fails_inside : forall A (p : ascii -> bool) a l (k : cont A),
  p a = false -> fails_inside p (fun s c => exec (Lit (a :: l)) s c k).
Proof.
  intros A p a l k Ha b t c Hb. cbn [exec strip_prefix].
  destruct (Ascii.eqb a b) eqn:E; [|reflexivity].
  apply Ascii.eqb_eq in E. congruence.
Qed.

Lemma seq_lit_fails_inside : forall A (p : ascii -> bool) a l r (k : cont A),
  p a = false -> fails_inside p (fun s c => exec (Seq (Lit (a :: l)) r) s c k).
Proof.
  intros A p a l r k Ha b t c Hb. cbn [exec strip_prefix].
  destruct (Ascii.eqb a b) eqn:E; [|reflexivity].
  apply Ascii.eqb_eq in E. congruence.
Qed.

End ReFacts.

(** * The patterns of [verification_result] match the markers *)

Module Markers.
Import ReFacts Smack.
Local Open Scope string_scope.
Local Open Scope list_scope.

Lemma fold_digits_ge : forall ds acc,
  (1 <= acc)%N ->
  (1 <= fold_left (fun a c => (10 * a + digit_value c)%N) ds acc)%N.
Proof.
  induction ds as [|d ds IH]; intros acc H; cbn [fold_left]; [assumption|].
  apply IH. lia.
Qed.

Lemma nonzero_digit_value : forall d,
  is_nonzero_digit d = true -> (1 <= digit_value d)%N.
Proof.
  intros d H. unfold is_nonzero_digit, in_range in H.
  apply andb_true_iff in H. destruct H as [H1 _].
  apply N.leb_le in H1. unfold digit_value.
  change (N_of_ascii "1") with 49%N in H1. lia.
Qed.

(** A positive count denotes a number N >= 1. *)
Lemma positive_count_value : forall n,
  positive_count n -> (1 <= int_of_digits n)%N.
Proof.
  intros n (d & ds & -> & Hd & _). unfold int_of_digits. cbn [fold_left].
  apply fold_digits_ge. apply nonzero_digit_value in Hd. lia.
Qed.

Lemma star_chr_forall : forall (p : ascii -> bool) s rest,
  Matches (Star (Chr p)) s rest -> Forall (fun c => p c = true) s.
Proof.
  intros p s rest H. remember (Star (Chr p)) as r eqn:E.
  induction H; try discriminate; inversion E; subst.
  - constructor.
  - inversion H; subst. simpl. constructor; auto.
Qed.

Lemma forall_star_chr : forall (p : ascii -> bool) s rest,
  Forall (fun c => p c = true) s -> Matches (Star (Chr p)) s rest.
Proof.
  intros p s rest H. induction H as [|a s Ha _ IH].
  - constructor.
  - change (a :: s) with ([a] ++ s). constructor; auto with re.
Qed.

Lemma occurs_app_r : forall m x s, occurs (m ++ x) s -> occurs m s.
Proof.
  intros m x s (pre & post & ->). exists pre, (x ++ post).
  now rewrite <- app_assoc.
Qed.

(** Inversion of a match against a pattern whose shape is known. *)
Ltac inv_matches :=
  repeat match goal with
  | H : Matches (Seq _ _) _ _ |- _ => inversion H; subst; clear H
  | H : Matches (Alt _ _) _ _ |- _ => inversion H; subst; clear H
  | H : Matches (Opt _) _ _ |- _ => inversion H; subst; clear H
  | H : Matches (Plus _) _ _ |- _ => inversion H; subst; clear H
  | H : Matches (Lit _) _ _ |- _ => inversion H; subst; clear H
  | H : Matches (Chr _) _ _ |- _ => inversion H; subst; clear H
  | H : Matches (Group _ _) _ _ |- _ => inversion H; subst; clear H
  | H : Matches Eps _ _ |- _ => inversion H; subst; clear H
  | H : Matches Eol _ _ |- _ => inversion H; subst; clear H
  | H : Matches (Star (Chr _)) _ _ |- _ => apply star_chr_forall in H
  end.

(** The positive count found by inversion, with what precedes and follows it
    in the match. *)
Ltac count_found pre post :=
  match goal with
  | Ha : is_nonzero_digit ?a = true,
    Hs : Forall (fun c => is_digit c = true) ?ds |- _ =>
      exists (a :: ds); split; [exists a, ds; auto|];
      exists pre, post; rewrite <- ?app_assoc; try rewrite app_nil_r;
      rewrite <- ?app_assoc; reflexivity
  end.

Lemma timeout_re_spec : forall s, matches_in timeout_re s <-> timeout_marker s.
Proof.
  intros s. unfold timeout_marker, count_marker. split.
  - intros (pre & m & post & -> & H). unfold timeout_re in H. inv_matches.
    + left. count_found pre post.
    + right; left. now exists pre, post.
    + right; right; left. now exists pre, post.
    + right; right; right. now exists pre, post.
  - intros [(n & (d & ds & -> & Hd & Hds) & pre & post & ->)
           |[(pre & post & ->)|[(pre & post & ->)|(pre & post & ->)]]];
      eexists pre, _, post; (split; [reflexivity|]); unfold timeout_re.
    + apply M_AltL. change ((d :: ds) ++ lit " time out")
        with ([d] ++ ds ++ lit " time out").
      constructor; [now constructor|]. constructor; [|constructor].
      now apply forall_star_chr.
    + apply M_AltR, M_AltL. constructor.
    + apply M_AltR, M_AltR, M_AltL. constructor.
    + apply M_AltR, M_AltR, M_AltR. constructor.
Qed.

Lemma verified_re_spec : forall s, matches_in verified_re s <-> verified_marker s.
Proof.
  intros s. unfold verified_marker, count_marker. split.
  - intros (pre & m & post & -> & H). unfold verified_re in H. inv_matches.
    + left. count_found pre (lit "s" ++ post).
    + left. count_found pre post.
    + right; left. now exists pre, post.
    + right; right. now exists pre, post.
  - intros [(n & (d & ds & -> & Hd & Hds) & pre & post & ->)
           |[(pre & post & ->)|(pre & post & ->)]];
      eexists pre, _, post; (split; [|unfold verified_re]).
    + instantiate (1 := [d] ++ ds ++ lit " verified, 0 error" ++ []).
      rewrite app_nil_r. reflexivity.
    + apply M_AltL. constructor; [now constructor|].
      constructor; [now apply forall_star_chr|].
      constructor; [constructor|]. apply M_AltR. constructor.
    + reflexivity.
    + apply M_AltR, M_AltL. constructor.
    + reflexivity.
    + apply M_AltR, M_AltR. constructor.
Qed.

Lemma failure_re_spec : forall s, matches_in failure_re s <-> failure_marker s.
Proof.
  intros s. unfold failure_marker. split.
  - intros (pre & m & post & -> & H). unfold failure_re in H. inv_matches.
    + left. match goal with
            | H : Forall _ ?k, H' : Forall _ ?m |- _ =>
                first [count_found (pre ++ k) (lit "s" ++ post)
                      |count_found (pre ++ m) (lit "s" ++ post)]
            end.
    + left. match goal with
            | H : Forall _ ?k, H' : Forall _ ?m |- _ =>
                first [count_found (pre ++ k) post|count_found (pre ++ m) post]
            end.
    + right; left. now exists pre, post.
    + right; right. now exists pre, post.
  - intros [(n & (d & ds & -> & Hd & Hds) & pre & post & ->)
           |[(pre & post & ->)|(pre & post & ->)]];
      eexists pre, _, post; (split; [|unfold failure_re]).
    + instantiate (1 := [] ++ lit " verified, " ++ [d] ++ ds ++ lit " error" ++ []).
      rewrite app_nil_r. reflexivity.
    + apply M_AltL. constructor; [constructor|].
      constructor; [constructor|]. constructor; [now constructor|].
      constructor; [now apply forall_star_chr|].
      constructor; [constructor|]. apply M_AltR. constructor.
    + reflexivity.
    + apply M_AltR, M_AltL. constructor.
    + reflexivity.
    + apply M_AltR, M_AltR. constructor.
Qed.

End Markers.

(** * The outcome classifier *)

Module Classifier.
Import ReFacts Smack Markers.
Local Open Scope string_scope.
Local Open Scope list_scope.

Lemma found_timeout : forall s,
  found (re_search timeout_re s) = true <-> timeout_marker s.
Proof. intros s. now rewrite re_search_found, timeout_re_spec. Qed.

Lemma found_verified : forall s,
  found (re_search verified_re s) = true <-> verified_marker s.
Proof. intros s. now rewrite re_search_found, verified_re_spec. Qed.

Lemma found_failure : forall s,
  found (re_search failure_re s) = true <-> failure_marker s.
Proof. intros s. now rewrite re_search_found, failure_re_spec. Qed.

Lemma found_lit : forall l s, found (re_search (Lit l) s) = true <-> occurs l s.
Proof. intros l s. now rewrite re_search_found, matches_in_lit. Qed.

Lemma not_found : forall (b : bool) (P : Prop), (b = true <-> P) -> ~ P -> b = false.
Proof. intros [|] P H HP; [exfalso; now apply HP, H|reflexivity]. Qed.

Lemma not_found_inv : forall (b : bool) (P : Prop), (b = true <-> P) -> b = false -> ~ P.
Proof. intros b P H Hb HP. apply H in HP. congruence. Qed.


(** A run of [re.match]-like calls, with the text matched as group 0. *)
Lemma exec_group0_sound : forall r s (f : text -> nat) (x : nat * caps),
  exec (Group 0 r) s [] (fun s' c => Some (f s', c)) = Some x ->
  exists m post, s = m ++ post /\ Matches r m post /\
                 fst x = f post /\ group (snd x) 0 = Some m.
Proof.
  intros r s f x H. cbn [exec] in H.
  apply exec_sound in H. destruct H as (s1 & rest & c' & -> & Hm & Hk).
  inversion Hk; subst x; clear Hk. exists s1, rest. cbn [fst snd group].
  rewrite firstn_consumed. auto.
Qed.

(** What [re.findall] returns are matches of the pattern, found in the text. *)
Lemma scan_sound : forall r s skip x,
  In x (scan r (fun c => match group c 0 with Some m => [m] | None => [] end)
               (fun _ => []) skip s) ->
  exists pre post, s = pre ++ x ++ post /\ Matches r x post.
Proof.
  intros r s. induction s as [|a s IH]; intros skip x H.
  - destruct skip; cbn [scan] in H; [|contradiction].
    destruct (exec (Group 0 r) [] [] _) as [[len c]|] eqn:E; [|contradiction].
    apply exec_group0_sound with (f := fun s' => length (@nil ascii) - length s') in E.
    destruct E as (m & post & Hs & Hm & _ & Hg). cbn [snd] in Hg.
    rewrite Hg, app_nil_r in H. destruct H as [<-|[]].
    symmetry in Hs. apply app_eq_nil in Hs.
    destruct Hs as [-> ->]. exists [], []. auto.
  - assert (Hs : forall n y, In y (scan r
               (fun c => match group c 0 with Some m => [m] | None => [] end)
               (fun _ => []) n s) ->
             exists pre post, a :: s = pre ++ y ++ post /\ Matches r y post).
    { intros n y Hy. apply IH in Hy. destruct Hy as (pre & post & -> & Hm).
      exists (a :: pre), post. auto. }
    destruct skip; cbn [scan] in H; [|eauto].
    destruct (exec (Group 0 r) (a :: s) [] _) as [[len c]|] eqn:E; [|eauto].
    apply exec_group0_sound with (f := fun s' => length (a :: s) - length s') in E.
    destruct E as (m & post & Heq & Hm & _ & Hg). cbn [snd] in Hg.
    rewrite Hg in H. cbn [app] in H. destruct H as [<-|H].
    + exists [], post. auto.
    + destruct len; eauto.
Qed.

Lemma re_findall_sound : forall r s x,
  In x (re_findall r s) -> occurs x s /\ exists post, Matches r x post.
Proof.
  intros r s x H. apply scan_sound in H. destruct H as (pre & post & -> & Hm).
  split; [now exists pre, post|eauto].
Qed.

(** C1.  A text that carries a timeout marker (a count "N time out" with
    N >= 1, "Z3 ran out of resources", "timed out" or ERRORS_TIMEOUT) and a
    failure marker is classified 'timeout': the timeout rule comes before
    the verified and the failure rules. *)
Theorem timeout_precedes_failure : forall verifier_output,
  timeout_marker verifier_output ->
  failure_marker verifier_output ->
  verification_result verifier_output = "timeout".
Proof.
  intros s Ht _. unfold verification_result.
  apply found_timeout in Ht. now rewrite Ht.
Qed.

Lemma timeout_precedes_failure_witness :
  let output : text := "Z3 ran out of resources; 3 verified, 2 errors" in
  timeout_marker output /\ failure_marker output /\
  verification_result output = "timeout".
Proof.
  assert (Ht : timeout_marker "Z3 ran out of resources; 3 verified, 2 errors")
    by (apply found_timeout; vm_compute; reflexivity).
  assert (Hf : failure_marker "Z3 ran out of resources; 3 verified, 2 errors")
    by (apply found_failure; vm_compute; reflexivity).
  exact (conj Ht (conj Hf (timeout_precedes_failure Ht Hf))).
Defined.

(** C2, as stated, fails for K = 0: "0 verified, 0 errors" carries no
    timeout marker and is classified 'unknown'. *)
Lemma zero_verified_is_unknown :
  let output : text := "0 verified, 0 errors" in
  occurs (lit "0" ++ lit " verified, 0 errors") output /\
  ~ timeout_marker output /\
  verification_result output = "unknown" /\
  verification_result output <> "verified".
Proof.
  split; [exists [], []; reflexivity|].
  split; [apply (not_found_inv (found_timeout _)); vm_compute; reflexivity|].
  split; [vm_compute; reflexivity|vm_compute; discriminate].
Qed.

(** C2, amended.  A text with an occurrence of "K verified, 0 errors" where
    K >= 1, and with no timeout marker, is classified 'verified'. *)
Theorem positive_verified_count : forall verifier_output k,
  positive_count k ->
  occurs (k ++ lit " verified, 0 errors") verifier_output ->
  ~ timeout_marker verifier_output ->
  verification_result verifier_output = "verified".
Proof.
  intros s k Hk Ho Ht. unfold verification_result.
  rewrite (not_found (found_timeout s) Ht).
  assert (Hv : verified_marker s).
  { left. exists k. split; [assumption|].
    change (lit " verified, 0 errors") with (lit " verified, 0 error" ++ lit "s") in Ho.
    rewrite app_assoc in Ho. now apply occurs_app_r in Ho. }
  apply found_verified in Hv. now rewrite Hv.
Qed.

Lemma positive_verified_count_witness :
  let output : text := "Boogie program verifier finished with 1 verified, 0 errors" in
  positive_count "1" /\
  occurs (lit "1" ++ lit " verified, 0 errors") output /\
  ~ timeout_marker output /\
  verification_result output = "verified".
Proof.
  assert (Hk : positive_count "1")
    by (exists "1"%char, []; repeat split; constructor).
  assert (Ho : occurs (lit "1" ++ lit " verified, 0 errors")
                 "Boogie program verifier finished with 1 verified, 0 errors")
    by (exists (lit "Boogie program verifier finished with "), []; reflexivity).
  assert (Ht : ~ timeout_marker
                 "Boogie program verifier finished with 1 verified, 0 errors")
    by (apply (not_found_inv (found_timeout _)); vm_compute; reflexivity).
  exact (conj Hk (conj Ho (conj Ht (positive_verified_count Hk Ho Ht)))).
Defined.

(** C7, as stated, fails: the valid_deref marker on its own, with no failure
    marker, is classified 'unknown'; with a timeout marker, 'timeout'. *)
Lemma valid_deref_alone_is_unknown :
  let output : text := "ASSERTION FAILS assert {:valid_deref}" in
  occurs valid_deref_marker output /\
  verification_result output = "unknown" /\
  verification_result output <> "invalid-deref".
Proof.
  split; [exists [], []; reflexivity|].
  split; [vm_compute; reflexivity|vm_compute; discriminate].
Qed.

(** C7, amended.  When the failure rule applies (a failure marker, and
    neither a timeout nor a verified marker), a text with the valid_deref
    marker is classified 'invalid-deref', whatever other category markers
    it carries and wherever they stand. *)
Theorem valid_deref_first : forall verifier_output,
  ~ timeout_marker verifier_output ->
  ~ verified_marker verifier_output ->
  failure_marker verifier_output ->
  occurs valid_deref_marker verifier_output ->
  verification_result verifier_output = "invalid-deref".
Proof.
  intros s Ht Hv Hf Hd. unfold verification_result.
  rewrite (not_found (found_timeout s) Ht), (not_found (found_verified s) Hv).
  apply found_failure in Hf. rewrite Hf.
  apply found_lit in Hd. unfold valid_deref_re.
  unfold valid_deref_marker in Hd. now rewrite Hd.
Qed.

Lemma valid_deref_first_witness :
  let output : text :=
    "ASSERTION FAILS assert {:overflow} ASSERTION FAILS assert {:valid_free} 0 verified, 1 error ASSERTION FAILS assert {:valid_deref}" in
  ~ timeout_marker output /\ ~ verified_marker output /\
  failure_marker output /\ occurs valid_deref_marker output /\
  verification_result output = "invalid-deref".
Proof.
  intros output.
  assert (Ht : ~ timeout_marker output)
    by (apply (not_found_inv (found_timeout _)); vm_compute; reflexivity).
  assert (Hv : ~ verified_marker output)
    by (apply (not_found_inv (found_verified _)); vm_compute; reflexivity).
  assert (Hf : failure_marker output)
    by (apply found_failure; vm_compute; reflexivity).
  assert (Hd : occurs valid_deref_marker output)
    by (apply found_lit; vm_compute; reflexivity).
  exact (conj Ht (conj Hv (conj Hf (conj Hd (valid_deref_first Ht Hv Hf Hd))))).
Defined.

(** The texts found by the scan for calls are occurrences of
    "(CALL " + one or more characters other than a newline + ")". *)
Lemma call_shape : forall s call,
  In call (re_findall call_re s) ->
  occurs call s /\
  exists body, call = lit "(CALL " ++ body ++ lit ")" /\ body <> [] /\
               Forall (fun a => is_dot a = true) body.
Proof.
  intros s call H. apply re_findall_sound in H. destruct H as (Ho & post & Hm).
  split; [assumption|]. unfold call_re in Hm. inv_matches.
  match goal with
  | Ha : is_dot ?a = true, Hb : Forall _ ?body |- _ =>
      exists (a :: body); repeat split; [discriminate|now constructor]
  end.
Qed.


End Classifier.

(** * The annotation lookup of [error_step] and the prose trace *)

Module Annotation.
Import ReFacts Smack.
Local Open Scope string_scope.
Local Open Scope list_scope.

Lemma skipn_nth_error : forall (lines : list text) N,
  skipn N lines =
  match nth_error lines N with
  | Some l => l :: skipn (S N) lines
  | None => []
  end.
Proof.
  induction lines as [|l lines IH]; intros [|N]; try reflexivity.
  simpl nth_error. rewrite <- IH. reflexivity.
Qed.

Lemma first_sourceloc_window : forall lines k N,
  match first_sourceloc (firstn k (skipn N lines)) with
  | Some loc =>
      exists n l, N < n <= N + k /\ line_at lines n = Some l /\
                  sourceloc l = Some loc /\
                  forall m l', N < m < n -> line_at lines m = Some l' ->
                               sourceloc l' = None
  | None =>
      forall n l, N < n <= N + k -> line_at lines n = Some l ->
                  sourceloc l = None
  end.
Proof.
  intros lines k. induction k as [|k IH]; intros N.
  - simpl. intros n l Hn. lia.
  - rewrite skipn_nth_error. destruct (nth_error lines N) as [l0|] eqn:E0.
    + cbn [firstn first_sourceloc]. destruct (sourceloc l0) as [loc|] eqn:El0.
      * exists (S N), l0. repeat split; auto; try lia.
      * specialize (IH (S N)).
        destruct (first_sourceloc (firstn k (skipn (S N) lines))) as [loc|].
        -- destruct IH as (n & l & Hn & Hl & Hs & Hmin).
           exists n, l. repeat split; auto; try lia.
           intros m l' Hm Hl'. destruct (Nat.eq_dec m (S N)) as [->|Hne].
           ++ simpl in Hl'. congruence.
           ++ apply (Hmin m); auto. lia.
        -- intros n l Hn Hl. destruct (Nat.eq_dec n (S N)) as [->|Hne].
           ++ simpl in Hl. congruence.
           ++ apply (IH n); auto. lia.
    + cbn [firstn first_sourceloc]. intros n l Hn Hl.
      destruct n as [|i]; [lia|]. simpl in Hl.
      assert (Hlen : length lines <= N) by now apply nth_error_None.
      assert (Hi : i < length lines) by (apply nth_error_Some; congruence).
      lia.
Qed.

(** C4, as stated, fails: the window does not start at line N.  Here line 1
    carries an annotation and the lookup for N = 1 finds nothing; in the
    second artifact only line 11 carries one and the lookup for N = 1
    returns it. *)
Lemma window_skips_reported_line :
  let annotated : text :=
    lit "  assume " ++ annotation "a.c" "7" "3" ++ lit " true;" in
  let plain : text := "  call foo();" in
  (line_at [annotated; plain] 1 = Some annotated /\
   sourceloc annotated = Some (lit "a.c", lit "7", lit "3") /\
   first_sourceloc (window [annotated; plain] 1) = None) /\
  (forall n l, 1 <= n < 1 + 10 ->
     line_at (repeat plain 10 ++ [annotated]) n = Some l -> sourceloc l = None) /\
  first_sourceloc (window (repeat plain 10 ++ [annotated]) 1)
    = Some (lit "a.c", lit "7", lit "3").
Proof.
  cbv zeta. split; [|split].
  - repeat split; vm_compute; reflexivity.
  - intros n l Hn Hl.
    do 11 (destruct n as [|n]; [first [lia|vm_compute in Hl; inversion Hl; vm_compute; reflexivity]|]).
    lia.
  - vm_compute. reflexivity.
Qed.

(** C4, amended.  For a reported line N the lookup examines the (at most
    10) artifact lines that follow line N, that is lines N+1 to N+10, and
    returns the three groups of the first of these lines that matches the
    sourceloc pattern; it returns nothing exactly when none of them
    matches. *)
Theorem lookup_window : forall lines N,
  match first_sourceloc (window lines N) with
  | Some loc =>
      exists n l, N + 1 <= n <= N + 10 /\ line_at lines n = Some l /\
                  sourceloc l = Some loc /\
                  forall m l', N + 1 <= m < n -> line_at lines m = Some l' ->
                               sourceloc l' = None
  | None =>
      forall n l, N + 1 <= n <= N + 10 -> line_at lines n = Some l ->
                  sourceloc l = None
  end.
Proof.
  intros lines N. unfold window.
  pose proof (first_sourceloc_window lines 10 N) as H.
  destruct (first_sourceloc (firstn 10 (skipn N lines))) as [loc|].
  - destruct H as (n & l & Hn & Hl & Hs & Hmin). exists n, l.
    repeat split; auto; try lia. intros m l' Hm. apply Hmin. lia.
  - intros n l Hn. apply H. lia.
Qed.

(** The lookup is determined by the first annotated line after line N. *)
Lemma lookup_found : forall lines N n l loc,
  N + 1 <= n <= N + 10 -> line_at lines n = Some l -> sourceloc l = Some loc ->
  (forall m l', N + 1 <= m < n -> line_at lines m = Some l' -> sourceloc l' = None) ->
  first_sourceloc (window lines N) = Some loc.
Proof.
  intros lines N n l loc Hn Hl Hs Hmin. unfold window.
  pose proof (first_sourceloc_window lines 10 N) as H.
  destruct (first_sourceloc (firstn 10 (skipn N lines))) as [loc'|].
  - destruct H as (n' & l' & Hn' & Hl' & Hs' & Hmin').
    destruct (Nat.lt_trichotomy n n') as [Hlt|[->|Hgt]].
    + rewrite (Hmin' n l) in Hs; [discriminate|lia|assumption].
    + congruence.
    + rewrite (Hmin n' l') in Hs'; [discriminate|lia|assumption].
  - rewrite (H n l) in Hs; [discriminate|lia|assumption].
Qed.

Lemma proper_suffix_head : forall (w t1 t2 : text),
  w = t1 ++ t2 -> t1 <> [] ->
  match t2 with [] => True | b :: _ => In b (tl w) end.
Proof.
  intros w t1 t2 -> Hne. destruct t1 as [|a t1]; [congruence|].
  destruct t2 as [|b t2]; [exact I|]. simpl. apply in_or_app. right. now left.
Qed.

Lemma all_in_not_in : forall (p : ascii -> bool) w a,
  all_in p w -> p a = false -> ~ In a w.
Proof.
  intros p w a Hw Ha Hin. unfold all_in in Hw. rewrite Forall_forall in Hw.
  apply Hw in Hin. congruence.
Qed.

(** A line that carries an annotation as its last one yields its fields. *)
Lemma sourceloc_carries : forall l file ln col,
  all_in is_filename_char file ->
  all_in is_digit ln -> ln <> [] -> all_in is_digit col -> col <> [] ->
  carries l file ln col ->
  sourceloc l = Some (file, ln, col).
Proof.
  intros l file ln col Hfile Hln Hln0 Hcol Hcol0 (pre & post & -> & Hpre & Hpost).
  unfold sourceloc, re_match, sourceloc_re.
  rewrite exec_group_eq, exec_seq_eq, exec_star_chr.
  erewrite greedy_chr_backtrack; [|exact Hpre| |]; cycle 1.
  - cbv beta. unfold annotation.
    eapply runs_exec; [run_along; auto; reflexivity|reflexivity].
  - intros t1 t2 Heq Hne _. apply exec_lit_head.
    pose proof (proper_suffix_head _ Heq Hne) as Hh.
    destruct t2 as [|b t2]; [exact I|]. intros ->.
    unfold annotation, sourceloc_open, sourceloc_sep in Hh.
    cbn [lit list_ascii_of_string app tl] in Hh.
    repeat match type of Hh with
    | In _ (_ :: _) => destruct Hh as [Hh|Hh]; [discriminate Hh|]
    | In _ ((_ :: _) ++ _) => cbn [app] in Hh
    | In _ ([] ++ _) => cbn [app] in Hh
    | In _ (_ ++ _) => apply in_app_or in Hh; destruct Hh as [Hh|Hh]
    end;
    try contradiction;
    revert Hh; eapply all_in_not_in; eauto; reflexivity.
  - reflexivity.
Qed.

Section ErrorStep.
Variable fs : text -> option text.

(** [error_step] on a diagnostic that points into a readable artifact. *)
Lemma error_step_artifact : forall step m content,
  re_match step_re step = Some m ->
  found (re_match bpl_re (grp m 2)) = true ->
  fs (grp m 2) = Some content ->
  error_step fs step =
  Ok (match first_sourceloc (window (splitlines content)
                               (N.to_nat (int_of_digits (grp m 3)))) with
      | Some (src1, src2, src3) =>
          Some (grp m 1 ++ src1 ++ lit "(" ++ src2 ++ lit "," ++ src3 ++ lit "): "
                  ++ (if found (re_match bb_re (grp m 4)) then [] else grp m 4))
      | None => None
      end).
Proof.
  intros step m content Hm Hb Hfs. unfold error_step, open_read.
  rewrite Hm, Hb, Hfs. cbn [bind].
  destruct (first_sourceloc _) as [[[s1 s2] s3]|]; reflexivity.
Qed.

(** C5.  The diagnostic "a.bpl(42,3): error ASSERT0001: assertion
    violation", where line 45 of a.bpl carries the annotation
    sourceloc "main.c", 10, 2 and lines 43 and 44 carry none, is rendered
    as "main.c(10,2): assertion violation" followed by the
    "Execution trace:" header line. *)
Theorem scenario_D : forall content l45 eol,
  fs "a.bpl" = Some content ->
  line_at (splitlines content) 45 = Some l45 ->
  carries l45 "main.c" "10" "2" ->
  (forall n l, 43 <= n < 45 -> line_at (splitlines content) n = Some l ->
               sourceloc l = None) ->
  eol = [] \/ eol = [newline] ->
  error_trace fs (lit "a.bpl(42,3): error ASSERT0001: assertion violation" ++ eol)
  = Ok (lit "main.c(10,2): assertion violation" ++ [newline]
          ++ lit "Execution trace:" ++ [newline]).
Proof.
  intros content l45 eol Hfs H45 Hc Hnone Heol.
  assert (Hs : sourceloc l45 = Some (lit "main.c", lit "10", lit "2")).
  { apply sourceloc_carries; auto; try discriminate;
      repeat constructor. }
  assert (Hw : first_sourceloc (window (splitlines content) 42)
               = Some (lit "main.c", lit "10", lit "2")).
  { apply (@lookup_found _ 42 45 l45);
      [lia|assumption|assumption|intros m l' Hm; apply Hnone; lia]. }
  unfold error_trace.
  assert (Hstep : forall line,
            line = lit "a.bpl(42,3): error ASSERT0001: assertion violation" ++ eol ->
            error_step fs line
            = Ok (Some (lit "main.c(10,2): error ASSERT0001: assertion violation"))).
  { intros line ->.
    erewrite error_step_artifact;
      [| destruct Heol as [-> | ->]; vm_compute; reflexivity | | ].
    - destruct Heol as [-> | ->].
      + change (N.to_nat (int_of_digits (grp _ 3))) with 42. rewrite Hw.
        vm_compute. reflexivity.
      + change (N.to_nat (int_of_digits (grp _ 3))) with 42. rewrite Hw.
        vm_compute. reflexivity.
    - vm_compute. reflexivity.
    - exact Hfs. }
  destruct Heol as [-> | ->].
  - change (splitlines _) with
      [lit "a.bpl(42,3): error ASSERT0001: assertion violation" ++ []].
    cbn [error_trace_loop]. rewrite (Hstep _ eq_refl). vm_compute. reflexivity.
  - change (splitlines _) with
      [lit "a.bpl(42,3): error ASSERT0001: assertion violation" ++ [newline]].
    cbn [error_trace_loop]. rewrite (Hstep _ eq_refl). vm_compute. reflexivity.
Qed.

End ErrorStep.

Lemma scenario_D_witness :
  let fs := fun path : text =>
    if text_eqb path "a.bpl" then Some scenario_D_artifact else None in
  let l45 : text :=
    lit "  assume " ++ annotation "main.c" "10" "2" ++ lit " true;" ++ [newline] in
  fs "a.bpl" = Some scenario_D_artifact /\
  line_at (splitlines scenario_D_artifact) 45 = Some l45 /\
  carries l45 "main.c" "10" "2" /\
  (forall n l, 43 <= n < 45 ->
     line_at (splitlines scenario_D_artifact) n = Some l -> sourceloc l = None) /\
  error_trace fs (lit "a.bpl(42,3): error ASSERT0001: assertion violation" ++ [])
  = Ok (lit "main.c(10,2): assertion violation" ++ [newline]
          ++ lit "Execution trace:" ++ [newline]).
Proof.
  intros fs l45.
  assert (Hfs : fs "a.bpl" = Some scenario_D_artifact) by reflexivity.
  assert (H45 : line_at (splitlines scenario_D_artifact) 45 = Some l45)
    by (vm_compute; reflexivity).
  assert (Hc : carries l45 "main.c" "10" "2").
  { exists (lit "  assume "), (lit " true;" ++ [newline]).
    split; [reflexivity|]. split; [repeat constructor|].
    simpl. intros H. repeat destruct H as [H|H]; discriminate H || contradiction. }
  assert (Hnone : forall n l, 43 <= n < 45 ->
            line_at (splitlines scenario_D_artifact) n = Some l -> sourceloc l = None).
  { intros n l Hn Hl.
    assert (Hcase : n = 43 \/ n = 44) by lia.
    destruct Hcase as [-> | ->]; vm_compute in Hl; inversion Hl;
      vm_compute; reflexivity. }
  exact (conj Hfs (conj H45 (conj Hc (conj Hnone
           (scenario_D fs Hfs H45 Hc Hnone (or_introl eq_refl)))))).
Defined.

End Annotation.

(** * The structured report of [smackdOutput] *)

Module Report.
Import ReFacts Smack.
Local Open Scope string_scope.
Local Open Scope list_scope.

Ltac outside_class :=
  first [apply seq_lit_fails_inside | apply lit_fails_inside]; reflexivity.

Lemma exec_located : forall A r fname ln cn rest c (k : cont A),
  filename fname -> number ln -> number cn ->
  exec (Seq located_re r) (located fname ln cn ++ rest) c k
  = exec r rest (located_caps fname ln cn c) k.
Proof.
  intros A r fname ln cn rest c k [Hf Hf0] [Hl Hl0] [Hc Hc0].
  unfold located_re, located, filename_re. rewrite <- !app_assoc.
  rewrite !exec_seq_eq.
  rewrite exec_group_plus_exact;
    [|assumption|assumption|reflexivity|outside_class].
  rewrite exec_seq_eq, exec_lit_app.
  rewrite exec_seq_eq, exec_group_plus_exact;
    [|assumption|assumption|reflexivity|outside_class].
  rewrite exec_seq_eq, exec_lit_app.
  rewrite exec_seq_eq, exec_group_plus_exact;
    [|assumption|assumption|reflexivity|outside_class].
  rewrite exec_lit_app. reflexivity.
Qed.

Lemma exec_thread : forall A r fname ln cn tid rest c (k : cont A),
  filename fname -> number ln -> number cn -> number tid ->
  exec (located_re >> Lit "Trace: Thread=" >> Group 4 (Plus (Chr is_digit))
          >> Lit "  " >> r)%re
       (located fname ln cn ++ lit "Trace: Thread=" ++ tid ++ lit "  " ++ rest) c k
  = exec r rest (trace_caps fname ln cn tid c) k.
Proof.
  intros A r fname ln cn tid rest c k Hf Hl Hc [Ht Ht0].
  rewrite exec_located by assumption.
  rewrite exec_seq_eq, exec_lit_app.
  rewrite exec_seq_eq, exec_group_plus_exact;
    [|assumption|assumption|reflexivity|outside_class].
  rewrite exec_seq_eq, exec_lit_app. reflexivity.
Qed.

Lemma exec_trace_re : forall A fname ln cn tid rest c (k : cont A),
  filename fname -> number ln -> number cn -> number tid ->
  exec trace_re (trace_line fname ln cn tid [] rest) c k
  = exec fragment_re rest (trace_caps fname ln cn tid c) k.
Proof. intros. unfold trace_re, trace_line, fragment_re. now apply exec_thread. Qed.

Lemma exec_trace_assume_re : forall A fname ln cn tid rest c (k : cont A),
  filename fname -> number ln -> number cn -> number tid ->
  exec trace_assume_re (trace_line fname ln cn tid [] rest) c k
  = exec assume_fragment_re rest (trace_caps fname ln cn tid c) k.
Proof.
  intros. unfold trace_assume_re, trace_line, assume_fragment_re.
  now apply exec_thread.
Qed.

Lemma trace_line_fragment : forall fname ln cn tid fragment eol,
  trace_line fname ln cn tid fragment eol
  = trace_line fname ln cn tid [] (fragment ++ eol).
Proof. reflexivity. Qed.

Lemma re_match_eq : forall r s,
  re_match r s
  = exec r s [] (fun s' c' => Some ((0, firstn (length s - length s') s) :: c')).
Proof. reflexivity. Qed.

(** No fragment: the optional group takes no part. *)
Lemma fragment_absent : forall A eol c (k : cont A),
  eol = [] \/ eol = [newline] ->
  exec fragment_re eol c k = k eol c.
Proof.
  intros A eol c k [-> | ->]; cbn; now destruct (k _ c).
Qed.

Lemma assume_fragment_absent : forall A eol c (k : cont A),
  eol = [] \/ eol = [newline] ->
  exec assume_fragment_re eol c k = None.
Proof. intros A eol c k [-> | ->]; reflexivity. Qed.

(** Facts on the character classes, by enumeration of the 256 characters. *)
Lemma word_char : forall a,
  is_word a = true ->
  is_space a = false /\ is_dot a = true /\ a <> "="%char /\ a <> ")"%char.
Proof.
  intros a. destruct a as [[] [] [] [] [] [] [] []]; vm_compute;
    intros H; try discriminate H; repeat split; discriminate.
Qed.

Lemma digit_word : forall a, is_digit a = true -> is_word a = true.
Proof.
  intros a H. unfold is_word. rewrite H. now rewrite !orb_true_r.
Qed.

Lemma all_in_impl : forall (p q : ascii -> bool) w,
  (forall a, p a = true -> q a = true) -> all_in p w -> all_in q w.
Proof. intros p q w H. apply Forall_impl. exact H. Qed.

Lemma all_in_app : forall (p : ascii -> bool) u v,
  all_in p u -> all_in p v -> all_in p (u ++ v).
Proof. intros p u v Hu Hv. apply Forall_app. now split. Qed.

Lemma stops_head : forall (p q : ascii -> bool) w rest,
  all_in q w -> w <> [] -> (forall a, q a = true -> p a = false) ->
  stops p (w ++ rest).
Proof.
  intros p q w rest Hw Hne H. destruct Hw as [|a w Ha _]; [congruence|].
  simpl. now apply H.
Qed.

Lemma bv_assumption_word : forall var v w,
  word var -> number v -> number w ->
  all_in is_word var /\ all_in is_word (v ++ lit "bv" ++ w) /\
  all_in is_dot (bv_assumption var v w).
Proof.
  intros var v w [Hvar _] [Hv _] [Hw _].
  assert (Hdot : forall a, is_word a = true -> is_dot a = true)
    by (intros a Ha; now apply word_char).
  assert (Hval : all_in is_word (v ++ lit "bv" ++ w)).
  { apply all_in_app; [exact (@all_in_impl is_digit is_word v digit_word Hv)|].
    apply all_in_app; [repeat constructor|].
    exact (@all_in_impl is_digit is_word w digit_word Hw). }
  repeat split; auto. unfold bv_assumption.
  apply all_in_app; [exact (@all_in_impl is_word is_dot var Hdot Hvar)|].
  apply all_in_app; [repeat constructor|].
  exact (@all_in_impl is_word is_dot _ Hdot Hval).
Qed.

(** A parenthesised fragment without a newline in it is taken whole by the
    trace pattern: the repetition backs up over the closing parenthesis. *)
Lemma fragment_present : forall A body eol c (k : cont A) x,
  all_in is_dot body -> eol = [] \/ eol = [newline] ->
  k eol ((5, lit "(" ++ body ++ lit ")") :: (6, body) :: c) = Some x ->
  exec fragment_re (lit "(" ++ body ++ lit ")" ++ eol) c k = Some x.
Proof.
  intros A body eol c k x Hbody He Hk. unfold fragment_re, Opt.
  rewrite exec_seq_eq.
  rewrite exec_alt_eq.
  rewrite exec_group_eq, exec_seq_eq, exec_lit_app.
  rewrite exec_seq_eq, exec_group_eq, exec_star_chr.
  erewrite greedy_chr_backtrack; [reflexivity|exact Hbody| |].
  - cbv beta. rewrite exec_lit_app, firstn_consumed.
    replace (firstn _ _) with (lit "(" ++ body ++ lit ")").
    + destruct He as [-> | ->]; exact Hk.
    + replace (lit "(" ++ body ++ lit ")" ++ eol)
        with ((lit "(" ++ body ++ lit ")") ++ eol)
        by (now rewrite <- !app_assoc).
      now rewrite firstn_consumed.
  - intros t1 t2 Heq Hne _. cbv beta.
    destruct t1 as [|a t1]; [congruence|]. injection Heq as _ Heq.
    destruct He as [-> | ->].
    + symmetry in Heq. apply app_eq_nil in Heq. destruct Heq as [_ ->].
      reflexivity.
    + destruct t1 as [|b t1].
      * simpl in Heq. subst t2. reflexivity.
      * injection Heq as _ Heq. symmetry in Heq. apply app_eq_nil in Heq.
        destruct Heq as [_ ->]. reflexivity.
Qed.

(** The assume pattern takes "variable = VALUEbvWIDTH" in one run. *)
Lemma assume_fragment_present : forall A var v w eol c (k : cont A) x,
  word var -> number v -> number w -> eol = [] \/ eol = [newline] ->
  k eol ((5, lit "(" ++ bv_assumption var v w ++ lit ")")
           :: (6, bv_assumption var v w) :: c) = Some x ->
  exec assume_fragment_re (lit "(" ++ bv_assumption var v w ++ lit ")" ++ eol) c k
  = Some x.
Proof.
  intros A var v w eol c k x Hvar Hv Hw He Hk.
  destruct (bv_assumption_word Hvar Hv Hw) as (Wvar & Wval & _).
  destruct Hvar as [_ Hvar0]. destruct Hv as [Dv Hv0].
  unfold assume_fragment_re.
  replace (lit "(" ++ bv_assumption var v w ++ lit ")" ++ eol)
    with (((lit "(" ++ ([] ++ var ++ lit " " ++ lit "=" ++ lit " "
                          ++ (v ++ lit "bv" ++ w) ++ []) ++ lit ")") ++ []) ++ eol)
    by (unfold bv_assumption; cbn [app lit list_ascii_of_string];
        rewrite !app_nil_r, <- !app_assoc; reflexivity).
  eapply runs_exec.
  - run_along; auto; try reflexivity; try discriminate; try (constructor; fail).
    + rewrite <- !app_assoc. apply stops_head with (q := is_word); auto.
      intros a Ha. now apply word_char.
    + repeat constructor.
    + repeat constructor.
    + rewrite <- !app_assoc. apply stops_head with (q := is_digit); auto.
      intros a Ha. now apply word_char, digit_word.
    + destruct v; [congruence|discriminate].
  - cbv beta. unfold same. rewrite !app_nil_r.
    cbn [app]. unfold bv_assumption in Hk.
    cbn [app lit list_ascii_of_string] in Hk. exact Hk.
Qed.

Lemma smackd_line_traces : forall st l,
  st_traces (smackd_line st l) = st_traces st ++ line_trace l.
Proof.
  intros st l. unfold line_trace, smackd_line.
  destruct (re_match trace_re l) as [tm|]; cbn [st_traces init_state app].
  - reflexivity.
  - destruct (re_match error_re l); cbn [st_traces]; now rewrite app_nil_r.
Qed.

Lemma fold_smackd_traces : forall ls st,
  st_traces (fold_left smackd_line ls st)
  = st_traces st ++ flat_map line_trace ls.
Proof.
  induction ls as [|l ls IH]; intros st; cbn [fold_left flat_map].
  - now rewrite app_nil_r.
  - now rewrite IH, smackd_line_traces, app_assoc.
Qed.

(** Without the "Program has no bugs" marker the report is a failure
    record whose steps are those of the lines, in their order. *)
Lemma smackdOutput_traces : forall raw,
  ~ occurs "Program has no bugs" raw ->
  exists failsAt,
    smackdOutput raw
    = Failed "corral" failsAt 1 (flat_map line_trace (splitlines raw)).
Proof.
  intros raw Hno. unfold smackdOutput, passed_re.
  replace (found (re_search (Lit "Program has no bugs") raw)) with false.
  - eexists. f_equal. now rewrite fold_smackd_traces.
  - symmetry. apply re_search_none. now rewrite matches_in_lit.
Qed.

Lemma text_eqb_eq : forall a b, text_eqb a b = true <-> a = b.
Proof.
  intros a b. unfold text_eqb. destruct (list_eq_dec ascii_dec a b); split;
    congruence.
Qed.

(** The step of a trace line without a fragment. *)
Lemma line_trace_no_fragment : forall fname ln cn tid eol,
  filename fname -> number ln -> number cn -> number tid ->
  eol = [] \/ eol = [newline] ->
  line_trace (trace_line fname ln cn tid [] eol)
  = [mk_trace (int_of_digits tid) fname (int_of_digits ln) (int_of_digits cn)
              [] []].
Proof.
  intros fname ln cn tid eol Hf Hl Hc Ht He. unfold line_trace, smackd_line.
  rewrite !re_match_eq.
  rewrite exec_trace_re, exec_trace_assume_re by assumption.
  rewrite fragment_absent, assume_fragment_absent by assumption.
  reflexivity.
Qed.

(** *** Stripping the width suffix *)

Lemma scan_eq : forall B r (emit : caps -> list B) keep s,
  scan r emit keep 0 s =
  match exec (Group 0 r) s [] (fun s' c => Some (length s - length s', c)) with
  | Some (len, c) =>
      emit c ++
      match s with
      | [] => []
      | a :: s' =>
          match len with
          | O => keep a ++ scan r emit keep 0 s'
          | S n => scan r emit keep n s'
          end
      end
  | None =>
      match s with
      | [] => []
      | a :: s' => keep a ++ scan r emit keep 0 s'
      end
  end.
Proof. intros B r emit keep [|a s]; reflexivity. Qed.

(** Characters other than "=" are copied. *)
Lemma bv_sub_keep : forall u s,
  ~ In "="%char u ->
  scan bv_re bv_repl keep_char 0 (u ++ s)
  = u ++ scan bv_re bv_repl keep_char 0 s.
Proof.
  induction u as [|a u IH]; intros s Hu; [reflexivity|].
  cbn [app]. rewrite scan_eq. unfold bv_re at 1.
  change (Lit (lit "=")) with (Lit ["="%char]).
  rewrite exec_group_eq, exec_lit_head.
  - cbn [keep_char app]. f_equal. apply IH. intros H. apply Hu. now right.
  - intros ->. apply Hu. now left.
Qed.

(** The characters of a match are passed over. *)
Lemma bv_sub_skip : forall s,
  scan bv_re bv_repl keep_char (length s) s = [].
Proof. induction s as [|a s IH]; [reflexivity|exact IH]. Qed.

Lemma bv_exec : forall B v w (f : text -> B),
  number v -> number w ->
  exec (Group 0 bv_re) (lit "=" ++ lit " " ++ v ++ lit "bv" ++ w) []
       (fun s' c => Some (f s', c))
  = Some (f [], [(0, lit "=" ++ lit " " ++ v ++ lit "bv" ++ w);
                 (1, lit " " ++ v)]).
Proof.
  intros B v w f [Dv Hv0] [Dw Hw0]. unfold bv_re.
  replace (lit "=" ++ lit " " ++ v ++ lit "bv" ++ w)
    with ((lit "=" ++ (lit " " ++ v) ++ lit "bv" ++ w) ++ [])
    by (rewrite app_nil_r, <- !app_assoc; reflexivity).
  eapply runs_exec.
  - run_along; auto; try reflexivity; try (repeat constructor; fail).
    apply stops_head with (q := is_digit); auto.
    intros a Ha. now apply word_char, digit_word.
  - cbv beta. unfold same. rewrite !app_nil_r, <- !app_assoc. reflexivity.
Qed.

(** "variable = VALUEbvWIDTH" becomes "variable = VALUE". *)
Lemma bv_sub : forall var v w,
  word var -> number v -> number w ->
  re_sub bv_re bv_repl (bv_assumption var v w) = var ++ lit " = " ++ v.
Proof.
  intros var v w [Hvar _] Hv Hw. unfold re_sub, bv_assumption.
  change (fun a : ascii => [a]) with keep_char.
  replace (var ++ lit " = " ++ v ++ lit "bv" ++ w)
    with ((var ++ lit " ") ++ lit "=" ++ lit " " ++ v ++ lit "bv" ++ w)
    by (rewrite <- !app_assoc; reflexivity).
  rewrite bv_sub_keep.
  - rewrite scan_eq, bv_exec by assumption.
    set (T := lit " " ++ v ++ lit "bv" ++ w).
    change (lit "=" ++ T) with ("="%char :: T).
    cbn [length Nat.sub]. rewrite bv_sub_skip.
    unfold bv_repl, grp. cbn [group Nat.eqb].
    rewrite app_nil_r, <- !app_assoc. reflexivity.
  - intros H. apply in_app_or in H. destruct H as [H|[H|[]]]; [|discriminate H].
    unfold all_in in Hvar. rewrite Forall_forall in Hvar.
    apply Hvar in H. now apply word_char in H.
Qed.

Lemma bv_assumption_not_None : forall var v w,
  word var -> text_eqb (bv_assumption var v w) "None" = false.
Proof.
  intros var v w [_ Hvar]. destruct (text_eqb _ _) eqn:E; [|reflexivity].
  apply text_eqb_eq in E. apply (f_equal (@length ascii)) in E.
  unfold bv_assumption in E. rewrite !length_app in E. simpl in E.
  destruct var; [congruence|simpl in E; lia].
Qed.

(** The step of a trace line with the fragment
    "(variable = VALUEbvWIDTH)". *)
Lemma line_trace_bv : forall fname ln cn tid var v w eol,
  filename fname -> number ln -> number cn -> number tid ->
  word var -> number v -> number w ->
  eol = [] \/ eol = [newline] ->
  line_trace (trace_line fname ln cn tid
                (lit "(" ++ bv_assumption var v w ++ lit ")") eol)
  = [mk_trace (int_of_digits tid) fname (int_of_digits ln) (int_of_digits cn)
              (bv_assumption var v w) (var ++ lit " = " ++ v)].
Proof.
  intros fname ln cn tid var v w eol Hf Hl Hc Ht Hvar Hv Hw He.
  unfold line_trace, smackd_line.
  rewrite trace_line_fragment, !re_match_eq.
  rewrite exec_trace_re, exec_trace_assume_re by assumption.
  rewrite <- !app_assoc.
  erewrite fragment_present;
    [|now apply bv_assumption_word|assumption|reflexivity].
  erewrite assume_fragment_present; [|assumption..|reflexivity].
  cbv zeta. cbn [group grp Nat.eqb py_str st_traces init_state app].
  now rewrite bv_assumption_not_None, bv_sub.
Qed.

(** C3 fails on the code: a trace line after the error line overwrites the
    variables from which failsAt is built, description included (here the
    string 'None' of an absent fragment); and a trace line alone, with no
    error line at all, fills failsAt as well. *)
Lemma failsAt_overwritten_by_trace :
  smackdOutput (lit "a.c(1,2): error PF5001: This assertion can fail" ++ [newline]
                ++ lit "b.c(3,4): Trace: Thread=1  " ++ [newline])
  = Failed "corral" (mk_fails_at "b.c" 3 4 "None") 1
           [mk_trace 1 "b.c" 3 4 [] []]
  /\
  smackdOutput (lit "b.c(3,4): Trace: Thread=1  (x = 5)" ++ [newline])
  = Failed "corral" (mk_fails_at "b.c" 3 4 "x = 5") 1
           [mk_trace 1 "b.c" 3 4 "x = 5" "x = 5"].
Proof. split; vm_compute; reflexivity. Qed.

(** C8.  A report built from an output one of whose lines is a trace line
    with the parenthesised assumption "variable = VALUEbvWIDTH" (the
    scenario of the claim is "x = 5bv32") has, for that line, a step whose
    assumption is exactly "variable = VALUE" ("x = 5"): the width suffix is
    stripped and the value kept. *)
Theorem bitvector_suffix_stripped :
  forall raw before after fname ln cn tid var v w eol,
  ~ occurs "Program has no bugs" raw ->
  splitlines raw
    = before ++ trace_line fname ln cn tid
                  (lit "(" ++ bv_assumption var v w ++ lit ")") eol :: after ->
  filename fname -> number ln -> number cn -> number tid ->
  word var -> number v -> number w ->
  eol = [] \/ eol = [newline] ->
  exists failsAt step,
    smackdOutput raw
    = Failed "corral" failsAt 1
        (flat_map line_trace before ++ step :: flat_map line_trace after) /\
    assumption step = var ++ lit " = " ++ v /\
    step = mk_trace (int_of_digits tid) fname (int_of_digits ln)
                    (int_of_digits cn) (bv_assumption var v w)
                    (var ++ lit " = " ++ v).
Proof.
  intros raw before after fname ln cn tid var v w eol
         Hno Hlines Hf Hl Hc Ht Hvar Hv Hw He.
  destruct (smackdOutput_traces Hno) as (failsAt & Hout).
  exists failsAt. eexists. split; [|split; [|reflexivity]]; [|reflexivity].
  rewrite Hout, Hlines, flat_map_app. cbn [flat_map].
  now rewrite line_trace_bv.
Qed.

Lemma bitvector_suffix_stripped_witness :
  let raw : text := lit "f.c(12,3): Trace: Thread=1  (x = 5bv32)" ++ [newline] in
  ~ occurs "Program has no bugs" raw /\
  splitlines raw
    = [] ++ trace_line "f.c" "12" "3" "1"
              (lit "(" ++ bv_assumption "x" "5" "32" ++ lit ")") [newline] :: [] /\
  exists failsAt step,
    smackdOutput raw = Failed "corral" failsAt 1 ([] ++ step :: []) /\
    assumption step = lit "x" ++ lit " = " ++ lit "5" /\
    step = mk_trace 1 "f.c" 12 3 "x = 5bv32" "x = 5".
Proof.
  intros raw.
  assert (Hno : ~ occurs "Program has no bugs" raw).
  { rewrite <- matches_in_lit. apply re_search_none. vm_compute. reflexivity. }
  assert (Hlines : splitlines raw
            = [] ++ trace_line "f.c" "12" "3" "1"
                      (lit "(" ++ bv_assumption "x" "5" "32" ++ lit ")")
                      [newline] :: [])
    by (vm_compute; reflexivity).
  assert (Hf : filename "f.c") by (split; [repeat constructor|discriminate]).
  assert (Hl : number "12") by (split; [repeat constructor|discriminate]).
  assert (Hc : number "3") by (split; [repeat constructor|discriminate]).
  assert (Ht : number "1") by (split; [repeat constructor|discriminate]).
  assert (Hx : word "x") by (split; [repeat constructor|discriminate]).
  assert (H5 : number "5") by (split; [repeat constructor|discriminate]).
  assert (H32 : number "32") by (split; [repeat constructor|discriminate]).
  exact (conj Hno (conj Hlines
           (@bitvector_suffix_stripped raw [] [] _ _ _ _ _ _ _ _
              Hno Hlines Hf Hl Hc Ht Hx H5 H32 (or_intror eq_refl)))).
Defined.

(** C10.  A trace line "file(line,col): Trace: Thread=T  " without a
    parenthesised fragment yields a step whose description and assumption
    are both empty; no step has the description 'None'; and a step has an
    assumption only when its line matches the 'variable = value' pattern. *)
Theorem absent_fragment_is_empty :
  (forall raw before after fname ln cn tid eol,
     ~ occurs "Program has no bugs" raw ->
     splitlines raw = before ++ trace_line fname ln cn tid [] eol :: after ->
     filename fname -> number ln -> number cn -> number tid ->
     eol = [] \/ eol = [newline] ->
     exists failsAt step,
       smackdOutput raw
       = Failed "corral" failsAt 1
           (flat_map line_trace before ++ step :: flat_map line_trace after) /\
       description step = [] /\ assumption step = [] /\
       step = mk_trace (int_of_digits tid) fname (int_of_digits ln)
                       (int_of_digits cn) [] []) /\
  (forall l step, In step (line_trace l) -> description step <> lit "None") /\
  (forall l step, In step (line_trace l) ->
     re_match trace_assume_re l = None -> assumption step = []).
Proof.
  split; [|split].
  - intros raw before after fname ln cn tid eol Hno Hlines Hf Hl Hc Ht He.
    destruct (smackdOutput_traces Hno) as (failsAt & Hout).
    exists failsAt. eexists. split; [|repeat split]; [|reflexivity..].
    rewrite Hout, Hlines, flat_map_app. cbn [flat_map].
    now rewrite line_trace_no_fragment.
  - intros l step. unfold line_trace, smackd_line.
    destruct (re_match trace_re l) as [tm|]; cbn [st_traces init_state app].
    + intros [<-|[]]. cbn [description].
      destruct (text_eqb (py_str (group tm 6)) "None") eqn:E; [discriminate|].
      intros H. apply text_eqb_eq in H. congruence.
    + destruct (re_match error_re l); intros [].
  - intros l step. unfold line_trace, smackd_line.
    destruct (re_match trace_re l) as [tm|]; cbn [st_traces init_state app].
    + intros [<-|[]] ->. reflexivity.
    + destruct (re_match error_re l); intros [].
Qed.

Lemma absent_fragment_is_empty_witness :
  let raw : text := lit "f.c(12,3): Trace: Thread=1  " ++ [newline] in
  ~ occurs "Program has no bugs" raw /\
  splitlines raw = [] ++ trace_line "f.c" "12" "3" "1" [] [newline] :: [] /\
  exists failsAt step,
    smackdOutput raw = Failed "corral" failsAt 1 ([] ++ step :: []) /\
    description step = [] /\ assumption step = [] /\
    step = mk_trace 1 "f.c" 12 3 [] [].
Proof.
  intros raw.
  assert (Hno : ~ occurs "Program has no bugs" raw).
  { rewrite <- matches_in_lit. apply re_search_none. vm_compute. reflexivity. }
  assert (Hlines : splitlines raw
            = [] ++ trace_line "f.c" "12" "3" "1" [] [newline] :: [])
    by (vm_compute; reflexivity).
  assert (Hf : filename "f.c") by (split; [repeat constructor|discriminate]).
  assert (Hl : number "12") by (split; [repeat constructor|discriminate]).
  assert (Hc : number "3") by (split; [repeat constructor|discriminate]).
  assert (Ht : number "1") by (split; [repeat constructor|discriminate]).
  exact (conj Hno (conj Hlines
           (proj1 absent_fragment_is_empty raw [] [] _ _ _ _ _
              Hno Hlines Hf Hl Hc Ht (or_intror eq_refl)))).
Defined.

End Report.

(** * The output transform hook *)

Module Transform.
Import Smack.
Local Open Scope string_scope.
Local Open Scope list_scope.

(** C9, as stated, fails: a command that exits with a non-zero status is
    not reported; its output is returned as if it had succeeded. *)
Lemma failed_command_not_surfaced :
  failing_filter [lit "sed-script"] "raw output"
    = Ok (lit "partial", lit "filter: broken", 1%N) /\
  1%N <> 0%N /\
  fst (transform_out split_words failing_filter (Some (lit "sed-script"))
         "raw output" [])
    = Ok (lit "partial") /\
  forall e, fst (transform_out split_words failing_filter
                   (Some (lit "sed-script")) "raw output" []) <> Raise e.
Proof.
  split; [reflexivity|]. split; [discriminate|]. split; [reflexivity|].
  intros e. vm_compute. discriminate.
Qed.

(** C9, amended.  A configured command is started once and its standard
    output is returned as it is, whatever the exit status and the error
    stream; an error is raised only when the command line cannot be split
    or the program cannot be started; at most one process is started, so
    nothing is retried; without a command the text is returned unchanged
    and no process is started. *)
Theorem transform_out_spec :
  forall (shlex_split : text -> result (list text))
         (popen_communicate : list text -> text -> result (text * text * N))
         (args_transform_out : option text) (old : text) (w : world),
  (forall cmd argv out err returncode,
     args_transform_out = Some cmd -> cmd <> [] ->
     shlex_split cmd = Ok argv ->
     popen_communicate argv old = Ok (out, err, returncode) ->
     transform_out shlex_split popen_communicate args_transform_out old w
     = (Ok out, w ++ [(argv, old)])) /\
  (forall e,
     fst (transform_out shlex_split popen_communicate args_transform_out old w)
       = Raise e ->
     exists cmd, args_transform_out = Some cmd /\
       (shlex_split cmd = Raise e \/
        exists argv, shlex_split cmd = Ok argv /\
                     popen_communicate argv old = Raise e)) /\
  (exists started,
     snd (transform_out shlex_split popen_communicate args_transform_out old w)
       = w ++ started /\ length started <= 1) /\
  (args_transform_out = None \/ args_transform_out = Some [] ->
   transform_out shlex_split popen_communicate args_transform_out old w
   = (Ok old, w)).
Proof.
  intros split run args old w. unfold transform_out.
  split; [|split; [|split]].
  - intros cmd argv out err rc -> Hne Hs Hr.
    destruct cmd as [|a cmd]; [congruence|]. cbn [truthy].
    now rewrite Hs, Hr.
  - intros e. destruct args as [[|a cmd]|]; cbn [truthy fst];
      try discriminate.
    destruct (split (a :: cmd)) as [argv|e'] eqn:Hs.
    + destruct (run argv old) as [[[out err] rc]|e'] eqn:Hr; cbn [fst];
        [discriminate|].
      intros H; inversion H; subst. exists (a :: cmd). eauto.
    + cbn [fst]. intros H; inversion H; subst. exists (a :: cmd). auto.
  - destruct args as [[|a cmd]|]; cbn [truthy];
      try solve [exists []; rewrite app_nil_r; simpl; auto].
    destruct (split (a :: cmd)) as [argv|e'].
    + destruct (run argv old) as [[[out err] rc]|e']; cbn [snd];
        (exists ((argv, old) :: nil)); (split; [reflexivity|simpl; lia]).
    + exists []. rewrite app_nil_r. simpl. auto.
  - intros [-> | ->]; reflexivity.
Qed.

Lemma transform_out_spec_witness :
  transform_out split_words failing_filter (Some (lit "sed-script"))
    "raw output" []
  = (Ok (lit "partial"), [] ++ [([lit "sed-script"], lit "raw output")]) /\
  transform_out split_words failing_filter None "raw output" []
  = (Ok (lit "raw output"), []).
Proof.
  split.
  - apply (proj1 (transform_out_spec split_words failing_filter
                    (Some (lit "sed-script")) "raw output" []))
      with (cmd := lit "sed-script") (err := lit "filter: broken")
           (returncode := 1%N);
      [reflexivity|discriminate|reflexivity|reflexivity].
  - apply (proj2 (proj2 (proj2 (transform_out_spec split_words failing_filter
                    None "raw output" [])))).
    left. reflexivity.
Defined.

End Transform.

(** * More on the outcome classifier *)

Module Outcomes.
Import ReFacts Smack Markers Classifier.
Local Open Scope string_scope.
Local Open Scope list_scope.

Ltac by_rules :=
  unfold verification_result;
  repeat match goal with
  | |- context [if ?b then _ else _] => destruct b eqn:?
  end.

(** X1.  The result is 'timeout' exactly for the texts with a timeout marker. *)
Theorem timeout_iff : forall verifier_output,
  verification_result verifier_output = "timeout" <->
  timeout_marker verifier_output.
Proof.
  intros s. rewrite <- found_timeout. by_rules; split; congruence.
Qed.

(** X2.  The result is 'verified' exactly for the texts with a verified marker
    and no timeout marker; a failure marker in the text does not matter
    (the success token NO_ERRORS_NO_TIMEOUT itself contains the failure
    token ERRORS_NO_TIMEOUT). *)
Theorem verified_iff : forall verifier_output,
  verification_result verifier_output = "verified" <->
  ~ timeout_marker verifier_output /\ verified_marker verifier_output.
Proof.
  intros s. rewrite <- found_timeout, <- found_verified.
  by_rules; split; try congruence; try (intros [H1 H2]; congruence);
    intros _; split; congruence.
Qed.

(** X3.  The result is 'unknown' exactly for the texts with none of the three
    kinds of marker. *)
Theorem unknown_iff : forall verifier_output,
  verification_result verifier_output = "unknown" <->
  ~ timeout_marker verifier_output /\ ~ verified_marker verifier_output /\
  ~ failure_marker verifier_output.
Proof.
  intros s. rewrite <- found_timeout, <- found_verified, <- found_failure.
  by_rules; split; try congruence;
    try (intros (H1 & H2 & H3); congruence);
    intros _; repeat split; congruence.
Qed.

(** X4.  Inside the failure rule the categories are tried in the order
    valid_deref, valid_free, valid_memtrack, overflow: each one decides
    when the ones before it are absent. *)
Theorem category_order : forall verifier_output,
  ~ timeout_marker verifier_output ->
  ~ verified_marker verifier_output ->
  failure_marker verifier_output ->
  ~ occurs valid_deref_marker verifier_output ->
  (occurs valid_free_marker verifier_output ->
   verification_result verifier_output = "invalid-free") /\
  (~ occurs valid_free_marker verifier_output ->
   occurs valid_memtrack_marker verifier_output ->
   verification_result verifier_output = "invalid-memtrack") /\
  (~ occurs valid_free_marker verifier_output ->
   ~ occurs valid_memtrack_marker verifier_output ->
   occurs overflow_marker verifier_output ->
   verification_result verifier_output = "overflow").
Proof.
  intros s Ht Hv Hf Hd. unfold verification_result.
  rewrite (not_found (found_timeout s) Ht), (not_found (found_verified s) Hv).
  apply found_failure in Hf. rewrite Hf.
  unfold valid_deref_re, valid_free_re, valid_memtrack_re, overflow_re.
  unfold valid_deref_marker, valid_free_marker, valid_memtrack_marker,
    overflow_marker in *.
  rewrite (not_found (found_lit _ s) Hd).
  split; [|split].
  - intros H. apply found_lit in H. now rewrite H.
  - intros H2 H. rewrite (not_found (found_lit _ s) H2).
    apply found_lit in H. now rewrite H.
  - intros H2 H3 H. rewrite (not_found (found_lit _ s) H2),
      (not_found (found_lit _ s) H3).
    apply found_lit in H. now rewrite H.
Qed.

Lemma category_order_witness :
  let output : text :=
    "1 verified, 2 errors ASSERTION FAILS assert {:overflow} ASSERTION FAILS assert {:valid_memtrack}" in
  verification_result output = "invalid-memtrack".
Proof.
  intros output.
  assert (Ht : ~ timeout_marker output)
    by (apply (not_found_inv (found_timeout _)); vm_compute; reflexivity).
  assert (Hv : ~ verified_marker output)
    by (apply (not_found_inv (found_verified _)); vm_compute; reflexivity).
  assert (Hf : failure_marker output)
    by (apply found_failure; vm_compute; reflexivity).
  assert (Hd : ~ occurs valid_deref_marker output)
    by (apply (not_found_inv (found_lit _ _)); vm_compute; reflexivity).
  assert (H2 : ~ occurs valid_free_marker output)
    by (apply (not_found_inv (found_lit _ _)); vm_compute; reflexivity).
  assert (H3 : occurs valid_memtrack_marker output)
    by (apply found_lit; vm_compute; reflexivity).
  exact (proj1 (proj2 (category_order Ht Hv Hf Hd)) H2 H3).
Defined.

(** X5.  Without any "(CALL " in the text a failure with no category marker is
    the generic 'error'. *)
Theorem no_call_is_error : forall verifier_output,
  ~ timeout_marker verifier_output ->
  ~ verified_marker verifier_output ->
  failure_marker verifier_output ->
  ~ occurs valid_deref_marker verifier_output ->
  ~ occurs valid_free_marker verifier_output ->
  ~ occurs valid_memtrack_marker verifier_output ->
  ~ occurs overflow_marker verifier_output ->
  ~ occurs "(CALL " verifier_output ->
  verification_result verifier_output = "error".
Proof.
  intros s Ht Hv Hf H1 H2 H3 H4 Hc. unfold verification_result.
  rewrite (not_found (found_timeout s) Ht), (not_found (found_verified s) Hv).
  apply found_failure in Hf. rewrite Hf.
  unfold valid_deref_re, valid_free_re, valid_memtrack_re, overflow_re.
  unfold valid_deref_marker, valid_free_marker, valid_memtrack_marker,
    overflow_marker in *.
  rewrite (not_found (found_lit _ s) H1), (not_found (found_lit _ s) H2),
          (not_found (found_lit _ s) H3), (not_found (found_lit _ s) H4).
  cbv zeta. destruct (re_findall call_re s) as [|call calls] eqn:E;
    [reflexivity|].
  exfalso. apply Hc.
  destruct (@call_shape s call) as (Ho & body & -> & _).
  - rewrite E. now left.
  - now apply occurs_app_r in Ho.
Qed.

Lemma no_call_is_error_witness :
  let output : text := "f.c(3,1): error PF5001: This assertion can fail" in
  verification_result output = "error".
Proof.
  intros output.
  assert (Ht : ~ timeout_marker output)
    by (apply (not_found_inv (found_timeout _)); vm_compute; reflexivity).
  assert (Hv : ~ verified_marker output)
    by (apply (not_found_inv (found_verified _)); vm_compute; reflexivity).
  assert (Hf : failure_marker output)
    by (apply found_failure; vm_compute; reflexivity).
  assert (H1 : ~ occurs valid_deref_marker output)
    by (apply (not_found_inv (found_lit _ _)); vm_compute; reflexivity).
  assert (H2 : ~ occurs valid_free_marker output)
    by (apply (not_found_inv (found_lit _ _)); vm_compute; reflexivity).
  assert (H3 : ~ occurs valid_memtrack_marker output)
    by (apply (not_found_inv (found_lit _ _)); vm_compute; reflexivity).
  assert (H4 : ~ occurs overflow_marker output)
    by (apply (not_found_inv (found_lit _ _)); vm_compute; reflexivity).
  assert (Hc : ~ occurs "(CALL " output)
    by (apply (not_found_inv (found_lit _ _)); vm_compute; reflexivity).
  exact (no_call_is_error Ht Hv Hf H1 H2 H3 H4 Hc).
Defined.

End Outcomes.

(** * The step resolver and the prose trace *)

Module Steps.
Import ReFacts Smack Markers Classifier Annotation Report.
Local Open Scope string_scope.
Local Open Scope list_scope.

(** Facts on the file-name class, by enumeration of the 256 characters. *)
Lemma filename_char : forall a,
  is_filename_char a = true ->
  is_space a = false /\ is_dot a = true /\ a <> "("%char.
Proof.
  intros a. destruct a as [[] [] [] [] [] [] [] []]; vm_compute;
    intros H; try discriminate H; repeat split; discriminate.
Qed.

Lemma stops_or_head : forall (p q : ascii -> bool) w rest,
  all_in q w -> (forall a, q a = true -> p a = false) -> stops p rest ->
  stops p (w ++ rest).
Proof.
  intros p q w rest Hw H Hr. destruct Hw as [|a w Ha _]; [exact Hr|].
  simpl. now apply H.
Qed.

(** [error_step] recognises a located diagnostic, whatever follows its
    message on the line. *)
Lemma step_re_diagnostic : forall indent fname ln cn msg rest,
  all_in is_space indent -> all_in is_filename_char fname ->
  number ln -> number cn -> all_in is_dot msg -> stops is_dot rest ->
  re_match step_re (diagnostic indent fname ln cn msg ++ rest)
  = Some [(0, diagnostic indent fname ln cn msg); (4, msg); (3, ln);
          (2, fname); (1, indent)].
Proof.
  intros indent fname ln cn msg rest Hi Hf [Hl Hl0] [Hc Hc0] Hm Hr.
  unfold re_match. eapply runs_exec.
  - apply runs_group. unfold diagnostic, step_re.
    run_along; auto; try reflexivity.
    rewrite <- !app_assoc. apply stops_or_head with (q := is_filename_char);
      [exact Hf|intros a Ha; now apply filename_char|reflexivity].
  - reflexivity.
Qed.

Lemma occurs_here : forall (m y : text), occurs m (m ++ y).
Proof. intros m y. now exists [], y. Qed.

Lemma occurs_right : forall (m x s : text), occurs m s -> occurs m (x ++ s).
Proof.
  intros m x s (pre & post & ->). exists (x ++ pre), post.
  now rewrite <- app_assoc.
Qed.

Lemma occurs_cons : forall (m s : text) a, occurs m s -> occurs m (a :: s).
Proof. intros m s a H. now apply (occurs_right [a]). Qed.

(** Find the literal in a text given as a chain of pieces. *)
Ltac find_occurrence :=
  rewrite <- ?app_assoc;
  repeat first [apply occurs_here | apply occurs_right | apply occurs_cons].

(** The test for the artifact extension, on a file name. *)
Lemma bpl_re_ends_with : forall fname,
  all_in is_filename_char fname ->
  (found (re_match bpl_re fname) = true <-> ends_with ".bpl" fname).
Proof.
  intros fname Hf. rewrite re_match_found. split.
  - intros (m & post & -> & H). unfold bpl_re in H. inv_matches.
    match goal with H : _ \/ _ |- _ => destruct H as [-> | ->] end.
    + eexists. rewrite !app_nil_r. reflexivity.
    + exfalso. apply Forall_app in Hf. destruct Hf as [_ Hf].
      inversion Hf; subst. discriminate.
  - intros (pre & ->). exists (pre ++ lit ".bpl" ++ []), [].
    split; [now rewrite !app_nil_r|]. unfold bpl_re.
    apply Forall_app in Hf. destruct Hf as [Hpre _].
    constructor; [|constructor; [constructor|constructor; now left]].
    apply forall_star_chr. eapply Forall_impl; [|exact Hpre].
    intros a Ha. now apply filename_char.
Qed.

(** The test for a basic-block label, on a message. *)
Lemma bb_re_label : forall msg,
  found (re_match bb_re msg) = true <-> has_block_label msg.
Proof.
  intros msg. rewrite re_match_found. split.
  - intros (m & post & -> & H). unfold bb_re in H. inv_matches.
    match goal with
    | Hp : Forall _ ?pre, Hd : is_digit ?d = true |- _ =>
        exists pre, d; eexists; split; [|split; [exact Hp|exact Hd]];
        rewrite <- !app_assoc; reflexivity
    end.
  - intros (pre & d & post & -> & Hpre & Hd).
    exists (pre ++ lit "$bb" ++ ([d] ++ []) ++ []), post.
    split; [now rewrite !app_nil_r, <- !app_assoc|]. unfold bb_re.
    constructor; [now apply forall_star_chr|].
    constructor; [constructor|]. constructor; [|constructor].
    constructor; [now constructor|constructor].
Qed.

(** A line without the opening of an annotation has no source location. *)
Lemma sourceloc_absent : forall l,
  ~ occurs sourceloc_open l -> sourceloc l = None.
Proof.
  intros l Hno. unfold sourceloc.
  destruct (re_match sourceloc_re l) as [m|] eqn:E; [|reflexivity].
  exfalso. apply Hno.
  assert (Hf : found (re_match sourceloc_re l) = true) by now rewrite E.
  apply re_match_found in Hf. destruct Hf as (w & post & -> & H).
  unfold sourceloc_re in H. inv_matches. find_occurrence.
Qed.

Section Resolver.
Variable fs : text -> option text.

Lemma step_unlocated : forall line,
  ~ occurs "): " line -> error_step fs line = Ok None.
Proof.
  intros line Hno. unfold error_step.
  destruct (re_match step_re line) as [m|] eqn:E; [|reflexivity].
  exfalso. apply Hno.
  assert (Hf : found (re_match step_re line) = true) by now rewrite E.
  apply re_match_found in Hf. destruct Hf as (w & post & -> & H).
  unfold step_re in H. inv_matches. find_occurrence.
Qed.

(** A line in which "): " does not occur is not a located diagnostic:
    [error_step] returns None for it, and reads no file. *)
Theorem unlocated_line_dropped : forall line,
  ~ occurs "): " line -> error_step fs line = Ok None.
Proof.
  intros line Hno. unfold error_step.
  destruct (re_match step_re line) as [m|] eqn:E; [|reflexivity].
  exfalso. apply Hno.
  assert (Hf : found (re_match step_re line) = true) by now rewrite E.
  apply re_match_found in Hf. destruct Hf as (w & post & -> & H).
  unfold step_re in H. inv_matches. find_occurrence.
Qed.

Lemma step_other_file : forall indent fname ln cn msg rest,
  all_in is_space indent -> all_in is_filename_char fname ->
  number ln -> number cn -> all_in is_dot msg -> stops is_dot rest ->
  ~ ends_with ".bpl" fname ->
  error_step fs (diagnostic indent fname ln cn msg ++ rest)
  = Ok (Some (diagnostic indent fname ln cn msg)).
Proof.
  intros indent fname ln cn msg rest Hi Hf Hl Hc Hm Hr Hext.
  unfold error_step. rewrite step_re_diagnostic by assumption.
  unfold grp. cbn [group Nat.eqb].
  now rewrite (not_found (bpl_re_ends_with Hf) Hext).
Qed.

(** X6.  A located diagnostic whose file name does not end in ".bpl" is passed
    through as it is, without what follows its message on the line (the
    line terminator), and without reading any file. *)
Theorem other_file_passed_through : forall indent fname ln cn msg rest,
  all_in is_space indent -> all_in is_filename_char fname ->
  number ln -> number cn -> all_in is_dot msg -> stops is_dot rest ->
  ~ ends_with ".bpl" fname ->
  error_step fs (diagnostic indent fname ln cn msg ++ rest)
  = Ok (Some (diagnostic indent fname ln cn msg)).
Proof.
  intros indent fname ln cn msg rest Hi Hf Hl Hc Hm Hr Hext.
  unfold error_step. rewrite step_re_diagnostic by assumption.
  unfold grp. cbn [group Nat.eqb].
  now rewrite (not_found (bpl_re_ends_with Hf) Hext).
Qed.

(** X7.  A located diagnostic that points into an artifact (a file name
    ending in ".bpl") that cannot be opened raises IOError: the line is not
    dropped. *)
Theorem missing_artifact_raises : forall indent fname ln cn msg rest,
  all_in is_space indent -> all_in is_filename_char fname ->
  number ln -> number cn -> all_in is_dot msg -> stops is_dot rest ->
  ends_with ".bpl" fname -> fs fname = None ->
  error_step fs (diagnostic indent fname ln cn msg ++ rest)
  = Raise (IOError fname).
Proof.
  intros indent fname ln cn msg rest Hi Hf Hl Hc Hm Hr Hext Hfs.
  unfold error_step. rewrite step_re_diagnostic by assumption.
  unfold grp. cbn [group Nat.eqb].
  apply (bpl_re_ends_with Hf) in Hext. rewrite Hext.
  unfold open_read. now rewrite Hfs.
Qed.

(** X8.  A located diagnostic that points into a readable artifact is
    resolved in the ten lines after the reported one.  When none of them
    holds the opening of an annotation, the line is dropped.  When the
    first of them that does carries a well-formed annotation with no "{"
    after it on the line (the last annotation of that line, whatever
    precedes it), the diagnostic is rewritten with the file, line and
    column of that annotation, the indentation kept and the reported
    column dropped; its message is kept, unless it names a basic block, in
    which case it is emptied. *)
Theorem artifact_line_resolved : forall indent fname ln cn msg rest content,
  all_in is_space indent -> all_in is_filename_char fname ->
  number ln -> number cn -> all_in is_dot msg -> stops is_dot rest ->
  ends_with ".bpl" fname -> fs fname = Some content ->
  let reported := N.to_nat (int_of_digits ln) in
  let lines := splitlines content in
  ((forall m l', reported + 1 <= m <= reported + 10 ->
      line_at lines m = Some l' -> ~ occurs sourceloc_open l') ->
   error_step fs (diagnostic indent fname ln cn msg ++ rest) = Ok None) /\
  (forall n l src_file src_line src_col,
     reported + 1 <= n <= reported + 10 -> line_at lines n = Some l ->
     carries l src_file src_line src_col ->
     all_in is_filename_char src_file -> number src_line -> number src_col ->
     (forall m l', reported + 1 <= m < n -> line_at lines m = Some l' ->
                   ~ occurs sourceloc_open l') ->
     (has_block_label msg ->
      error_step fs (diagnostic indent fname ln cn msg ++ rest)
      = Ok (Some (diagnostic indent src_file src_line src_col []))) /\
     (~ has_block_label msg ->
      error_step fs (diagnostic indent fname ln cn msg ++ rest)
      = Ok (Some (diagnostic indent src_file src_line src_col msg)))).
Proof.
  intros indent fname ln cn msg rest content Hi Hf Hl Hc Hm Hr Hext Hfs
         reported lines.
  assert (Hstep : error_step fs (diagnostic indent fname ln cn msg ++ rest)
            = Ok (match first_sourceloc (window lines reported) with
                  | Some (src1, src2, src3) =>
                      Some (indent ++ src1 ++ lit "(" ++ src2 ++ lit "," ++ src3
                              ++ lit "): "
                              ++ (if found (re_match bb_re msg) then [] else msg))
                  | None => None
                  end)).
  { pose proof (@step_re_diagnostic indent fname ln cn msg rest
                  Hi Hf Hl Hc Hm Hr) as Hmatch.
    rewrite (@error_step_artifact fs _ _ content Hmatch);
      [reflexivity| |exact Hfs].
    unfold grp. cbn [group Nat.eqb]. now apply (bpl_re_ends_with Hf). }
  rewrite Hstep. split.
  - intros Hnone. unfold window.
    pose proof (first_sourceloc_window lines 10 reported) as H.
    destruct (first_sourceloc (firstn 10 (skipn reported lines))) as [loc|];
      [|reflexivity].
    destruct H as (n & l & Hn & Hline & Hs & _).
    rewrite sourceloc_absent in Hs; [discriminate Hs|].
    apply (Hnone n); [lia|exact Hline].
  - intros n l file sln scol Hn Hline Hcar Hfile [Hsl Hsl0] [Hsc Hsc0] Hfirst.
    assert (Hw : first_sourceloc (window lines reported) = Some (file, sln, scol)).
    { apply (@lookup_found lines reported n l); [exact Hn|exact Hline| |].
      - now apply sourceloc_carries.
      - intros m l' Hm' Hl'. apply sourceloc_absent. now apply (Hfirst m). }
    rewrite Hw. split; intros Hb.
    + apply bb_re_label in Hb. now rewrite Hb.
    + now rewrite (not_found (bb_re_label msg) Hb).
Qed.

End Resolver.

(** ** Lines *)

(** [splitlines(True)] loses nothing: the lines put together are the text. *)
Lemma splitlines_from_concat : forall n s cur,
  length s <= n -> concat (splitlines_from cur s) = rev cur ++ s.
Proof.
  induction n as [|n IH]; intros s cur Hn.
  - destruct s; [|simpl in Hn; lia]. simpl.
    destruct cur; simpl; now rewrite ?app_nil_r.
  - destruct s as [|c s]; [simpl; destruct cur; simpl; now rewrite ?app_nil_r|].
    simpl in Hn. cbn [splitlines_from].
    destruct (Ascii.eqb c carriage_return) eqn:Ecr.
    + destruct s as [|d s].
      * simpl. now rewrite app_nil_r.
      * destruct (Ascii.eqb d newline) eqn:Enl.
        -- cbn [concat]. rewrite IH by (simpl in Hn; lia). simpl.
           rewrite <- !app_assoc. reflexivity.
        -- cbn [concat]. rewrite IH by lia. simpl.
           rewrite <- !app_assoc. reflexivity.
    + destruct (Ascii.eqb c newline) eqn:Enl.
      * cbn [concat]. rewrite IH by lia. simpl.
        rewrite <- !app_assoc. reflexivity.
      * rewrite IH by lia. simpl. rewrite <- !app_assoc. reflexivity.
Qed.

Lemma splitlines_concat : forall s, concat (splitlines s) = s.
Proof. intros s. unfold splitlines. now rewrite (splitlines_from_concat (n := length s)). Qed.

Lemma in_concat_occurs : forall (ls : list text) l,
  In l ls -> occurs l (concat ls).
Proof.
  induction ls as [|l0 ls IH]; intros l H; [contradiction|].
  destruct H as [<-|H]; simpl.
  - apply occurs_here.
  - apply occurs_right. now apply IH.
Qed.

Lemma line_occurs : forall s l, In l (splitlines s) -> occurs l s.
Proof.
  intros s l H. rewrite <- (splitlines_concat s). now apply in_concat_occurs.
Qed.

Lemma occurs_trans : forall (m l s : text), occurs m l -> occurs l s -> occurs m s.
Proof.
  intros m l s (p1 & q1 & ->) (p2 & q2 & ->). exists (p2 ++ p1), (q1 ++ q2).
  now rewrite <- !app_assoc.
Qed.

(** A text that ends a line can be split there. *)
Lemma splitlines_from_app : forall n a cur b,
  length a <= n ->
  splitlines_from cur (a ++ newline :: b)
  = splitlines_from cur (a ++ [newline]) ++ splitlines b.
Proof.
  induction n as [|n IH]; intros a cur b Hn.
  - destruct a; [|simpl in Hn; lia]. reflexivity.
  - destruct a as [|c a]; [reflexivity|]. simpl in Hn.
    cbn [app splitlines_from].
    destruct (Ascii.eqb c carriage_return) eqn:Ecr.
    + destruct a as [|d a].
      * reflexivity.
      * cbn [app]. destruct (Ascii.eqb d newline) eqn:Enl.
        -- cbn [app]. f_equal. apply IH. simpl in Hn. lia.
        -- cbn [app]. f_equal. apply (IH (d :: a)). simpl in *. lia.
    + destruct (Ascii.eqb c newline) eqn:Enl.
      * cbn [app]. f_equal. apply IH. lia.
      * apply IH. lia.
Qed.

Lemma splitlines_app : forall a b,
  splitlines (a ++ newline :: b) = splitlines (a ++ [newline]) ++ splitlines b.
Proof. intros a b. unfold splitlines. now apply (splitlines_from_app (n := length a)). Qed.

Lemma splitlines_from_plain : forall s cur,
  all_in is_plain s ->
  splitlines_from cur (s ++ [newline]) = [rev cur ++ s ++ [newline]].
Proof.
  induction s as [|c s IH]; intros cur Hs.
  - reflexivity.
  - inversion Hs as [|c' s' Hc Hs']; subst. cbn [app splitlines_from].
    unfold is_plain in Hc. apply negb_true_iff, orb_false_iff in Hc.
    destruct Hc as [Hn Hr]. rewrite Hn, Hr, IH by assumption.
    simpl. now rewrite <- !app_assoc.
Qed.

Lemma splitlines_plain : forall s,
  all_in is_plain s -> splitlines (s ++ [newline]) = [s ++ [newline]].
Proof. intros s Hs. unfold splitlines. now rewrite splitlines_from_plain. Qed.

(** ** The prose trace *)

Lemma diagnostic_position : forall indent fname ln cn msg,
  diagnostic indent fname ln cn msg
  = position indent fname ln cn ++ lit ": " ++ msg.
Proof.
  intros. unfold diagnostic, position. now rewrite <- !app_assoc.
Qed.

(** A step without "rror " in it is no error header. *)
Lemma no_header : forall step,
  ~ occurs "rror " step -> re_match error_header_re step = None.
Proof.
  intros step Hno. destruct (re_match error_header_re step) as [m|] eqn:E;
    [|reflexivity].
  exfalso. apply Hno.
  assert (Hf : found (re_match error_header_re step) = true) by now rewrite E.
  apply re_match_found in Hf. destruct Hf as (w & post & -> & H).
  unfold error_header_re in H. inv_matches. find_occurrence.
Qed.

Lemma code_char_not_r : forall a, is_code_char a = true -> a <> "r"%char /\ a <> ":"%char.
Proof.
  intros a. destruct a as [[] [] [] [] [] [] [] []]; vm_compute;
    intros H; try discriminate H; split; discriminate.
Qed.

(** "rror " cannot start inside the code or its separator. *)
Lemma rror_in_description : forall code desc,
  all_in is_code_char code ->
  occurs "rror " (code ++ lit ": " ++ desc) -> occurs "rror " desc.
Proof.
  intros code desc Hc. induction Hc as [|c code Hcc _ IH].
  - intros (pre & post & H). cbn [app lit list_ascii_of_string] in H.
    destruct pre as [|a [|b pre]]; try discriminate H.
    injection H as _ _ H. now exists pre, post.
  - intros (pre & post & H). destruct pre as [|a pre].
    + cbn [app lit list_ascii_of_string] in H. injection H as H _.
      apply code_char_not_r in Hcc. destruct Hcc as [Hr _]. congruence.
    + cbn [app] in H. injection H as _ H. apply IH. now exists pre, post.
Qed.

Lemma runs_chr : forall (p : ascii -> bool) a rest,
  p a = true -> runs (Chr p) [a] rest same.
Proof. intros p a rest Ha A k c x H. simpl. now rewrite Ha. Qed.

Ltac run_chain :=
  lazymatch goal with
  | |- runs (Plus (Chr _)) _ _ _ => apply runs_plus
  | |- runs (Star (Chr _)) _ _ _ => apply runs_star
  | |- runs (Chr _) _ _ _ => apply runs_chr
  | |- runs (Lit _) _ _ _ => apply runs_lit
  | |- runs (Group _ _) _ _ _ => eapply runs_group; run_chain
  | |- runs (Seq _ _) _ _ _ => eapply runs_seq; [run_chain|run_chain]
  | |- runs Eol _ _ _ => apply runs_eol
  end.

(** The header pattern splits a step at its error message. *)
Lemma header_match : forall loc e code desc,
  all_in is_dot loc -> one_of "Ee" e = true ->
  all_in is_code_char code -> code <> [] ->
  all_in is_dot desc -> ~ occurs "rror " desc ->
  exists whole,
    re_match error_header_re (loc ++ lit ": " ++ error_message e code desc)
    = Some [(0, whole); (2, desc); (1, loc)].
Proof.
  intros loc e code desc Hloc He Hcode Hc0 Hdesc Hno.
  eexists. unfold re_match, error_header_re.
  rewrite exec_group_eq, exec_seq_eq, exec_group_eq, exec_star_chr.
  erewrite greedy_chr_backtrack; [reflexivity|exact Hloc| |].
  - cbv beta. rewrite firstn_consumed. unfold error_message.
    replace (lit ": " ++ e :: lit "rror " ++ code ++ lit ": " ++ desc)
      with ((lit ": " ++ [e] ++ lit "rror " ++ code ++ lit ": " ++ desc) ++ [])
      by (now rewrite app_nil_r).
    eapply runs_exec.
    + run_chain; auto; try reflexivity; try exact I.
    + reflexivity.
  - intros t1 t2 Heq Hne _. cbv beta.
    match goal with |- ?lhs = None => destruct lhs eqn:E; [|reflexivity] end.
    exfalso. apply exec_sound in E.
    destruct E as (m & post & c' & -> & Hm & _).
    inv_matches. unfold error_message in Heq.
    cbn [app lit list_ascii_of_string] in Heq.
    do 8 (destruct t1 as [|? t1]; [try congruence; discriminate Heq|];
          injection Heq as _ Heq).
    apply Hno. apply rror_in_description with (code := code); [exact Hcode|].
    change (code ++ lit ": " ++ desc) with (code ++ ":"%char :: " "%char :: desc).
    rewrite Heq. apply occurs_right. do 3 apply occurs_cons.
    match goal with |- occurs _ (_ :: _ :: _ :: _ :: _ :: ?y) =>
      now exists [], y
    end.
Qed.

Lemma class_facts : forall a,
  (is_filename_char a = true -> is_plain a = true) /\
  (is_digit a = true -> is_plain a = true) /\
  (is_code_char a = true -> is_plain a = true) /\
  (is_plain a = true -> is_dot a = true) /\
  (is_filename_char a = true -> a <> " "%char).
Proof.
  intros a. destruct a as [[] [] [] [] [] [] [] []]; vm_compute;
    repeat split; intros H; try discriminate H; try reflexivity; discriminate.
Qed.

Lemma filename_plain : forall w, all_in is_filename_char w -> all_in is_plain w.
Proof. intros w. apply all_in_impl. intros a. apply class_facts. Qed.

Lemma digits_plain : forall w, all_in is_digit w -> all_in is_plain w.
Proof. intros w. apply all_in_impl. intros a. apply class_facts. Qed.

Lemma code_plain : forall w, all_in is_code_char w -> all_in is_plain w.
Proof. intros w. apply all_in_impl. intros a. apply class_facts. Qed.

Lemma plain_dot : forall w, all_in is_plain w -> all_in is_dot w.
Proof. intros w. apply all_in_impl. intros a. apply class_facts. Qed.

Lemma position_plain : forall indent fname ln cn,
  all_in is_plain indent -> all_in is_filename_char fname ->
  number ln -> number cn -> all_in is_plain (position indent fname ln cn).
Proof.
  intros indent fname ln cn Hi Hf [Hl _] [Hc _]. unfold position.
  repeat (apply all_in_app; [first [assumption | now apply filename_plain
                                   | now apply digits_plain
                                   | repeat constructor]|]).
  repeat constructor.
Qed.

Lemma diagnostic_plain : forall indent fname ln cn msg,
  all_in is_plain indent -> all_in is_filename_char fname ->
  number ln -> number cn -> all_in is_plain msg ->
  all_in is_plain (diagnostic indent fname ln cn msg).
Proof.
  intros indent fname ln cn msg Hi Hf Hl Hc Hm. rewrite diagnostic_position.
  apply all_in_app; [now apply position_plain|].
  apply all_in_app; [repeat constructor|assumption].
Qed.

Lemma truthy_nonempty : forall step : text,
  step <> [] -> truthy (Some step) = Some step.
Proof. intros [|a step] H; [congruence|reflexivity]. Qed.

Section Trace.
Variable fs : text -> option text.

(** The trace collected so far is only ever extended. *)
Lemma loop_acc : forall ls acc,
  error_trace_loop fs ls acc =
  match error_trace_loop fs ls [] with
  | Ok t => Ok (acc ++ t)
  | Raise e => Raise e
  end.
Proof.
  induction ls as [|l ls IH]; intros acc; cbn [error_trace_loop].
  - now rewrite app_nil_r.
  - destruct (error_step fs l) as [step|e]; cbn [bind]; [|reflexivity].
    destruct (truthy step) as [st|]; [|apply IH].
    destruct (re_match error_header_re st) as [m|].
    + rewrite IH. rewrite (IH ([] ++ _)).
      destruct (error_trace_loop fs ls []); [|reflexivity].
      cbn [app]. now rewrite <- !app_assoc.
    + rewrite IH. rewrite (IH ([] ++ _)).
      destruct (error_trace_loop fs ls []); [|reflexivity].
      cbn [app]. now rewrite <- !app_assoc.
Qed.

Lemma loop_app : forall l1 l2 acc,
  error_trace_loop fs (l1 ++ l2) acc
  = bind (error_trace_loop fs l1 acc) (error_trace_loop fs l2).
Proof.
  induction l1 as [|l l1 IH]; intros l2 acc; cbn [app error_trace_loop].
  - reflexivity.
  - destruct (error_step fs l) as [step|e]; cbn [bind]; [|reflexivity].
    destruct (truthy step) as [st|]; [|apply IH].
    destruct (re_match error_header_re st); apply IH.
Qed.

(** X9.  The trace is assembled line by line: the trace of an output cut
    after a newline is the trace of the first part followed by the trace
    of the second. *)
Theorem trace_of_parts : forall first second t1 t2,
  error_trace fs (first ++ [newline]) = Ok t1 ->
  error_trace fs second = Ok t2 ->
  error_trace fs (first ++ newline :: second) = Ok (t1 ++ t2).
Proof.
  intros o1 o2 t1 t2 H1 H2. unfold error_trace in *.
  rewrite splitlines_app, loop_app, H1. cbn [bind].
  now rewrite loop_acc, H2.
Qed.

(** X10.  An output in which "): " does not occur has no located line:
    its trace is empty, and no file is read. *)
Theorem unlocated_output_empty_trace : forall verifier_output,
  ~ occurs "): " verifier_output ->
  error_trace fs verifier_output = Ok [].
Proof.
  intros out Hno. unfold error_trace.
  assert (H : forall l, In l (splitlines out) -> error_step fs l = Ok None).
  { intros l Hl. apply step_unlocated. intros Ho. apply Hno.
    eapply occurs_trans; [exact Ho|now apply line_occurs]. }
  induction (splitlines out) as [|l ls IH]; [reflexivity|].
  cbn [error_trace_loop]. rewrite (H l) by now left. cbn [bind truthy].
  apply IH. intros l' Hl'. apply H. now right.
Qed.

(** X11.  A located line of a file other than an artifact, with no
    "rror " in it, becomes one line of the trace: unchanged when it starts
    with a space, behind four spaces otherwise (also when it starts with a
    tab). *)
Theorem plain_step_indented : forall indent fname ln cn msg,
  all_in is_space indent -> all_in is_plain indent ->
  all_in is_filename_char fname -> number ln -> number cn ->
  all_in is_plain msg -> ~ ends_with ".bpl" fname ->
  ~ occurs "rror " (diagnostic indent fname ln cn msg) ->
  let line := diagnostic indent fname ln cn msg ++ [newline] in
  (forall rest, indent = " "%char :: rest -> error_trace fs line = Ok line) /\
  ((forall rest, indent <> " "%char :: rest) ->
   error_trace fs line = Ok (lit "    " ++ line)).
Proof.
  intros indent fname ln cn msg Hi Hip Hf Hl Hc Hm Hext Hno line.
  assert (Hstep : error_step fs line
                  = Ok (Some (diagnostic indent fname ln cn msg))).
  { apply step_other_file; auto; [now apply plain_dot|reflexivity]. }
  assert (Hnz : diagnostic indent fname ln cn msg <> []).
  { unfold diagnostic. intros H. apply app_eq_nil in H. destruct H as [_ H].
    apply app_eq_nil in H. destruct H as [_ H]. discriminate H. }
  assert (Hrun : error_trace fs line
            = Ok ((match diagnostic indent fname ln cn msg with
                   | " "%char :: _ => []
                   | _ => lit "    "
                   end) ++ line)).
  { unfold error_trace, line.
    rewrite splitlines_plain by now apply diagnostic_plain.
    cbn [error_trace_loop]. fold line. rewrite Hstep. cbn [bind].
    rewrite (truthy_nonempty Hnz), (no_header Hno). reflexivity. }
  rewrite Hrun. split.
  - intros rest ->. reflexivity.
  - intros Hns. destruct indent as [|a indent].
    + unfold diagnostic. cbn [app]. destruct fname as [|c fname]; [reflexivity|].
      cbn [app]. inversion Hf; subst.
      destruct (Ascii.eqb c " ") eqn:E.
      * apply Ascii.eqb_eq in E. subst c.
        match goal with H : is_filename_char " " = true |- _ => discriminate H end.
      * destruct c as [[] [] [] [] [] [] [] []]; try reflexivity; discriminate E.
    + unfold diagnostic. cbn [app].
      destruct a as [[] [] [] [] [] [] [] []]; try reflexivity.
      exfalso. now apply (Hns indent).
Qed.

(** X12.  An error line of a file other than an artifact,
    "file(line,col): error CODE: description", whose description holds no
    further "rror " (and, like the rest of the line, neither a newline nor
    a carriage return), becomes the header of the trace: its location,
    ": ", its description, and the line "Execution trace:"; the code is
    dropped and no indentation is added.  (The location of the header
    pattern is greedy: with a second "rror CODE: " in the description the
    header is cut there instead.) *)
Theorem error_line_is_header : forall indent fname ln cn e code desc,
  all_in is_space indent -> all_in is_plain indent ->
  all_in is_filename_char fname -> number ln -> number cn ->
  one_of "Ee" e = true -> all_in is_code_char code -> code <> [] ->
  all_in is_plain desc -> ~ occurs "rror " desc ->
  ~ ends_with ".bpl" fname ->
  error_trace fs (diagnostic indent fname ln cn (error_message e code desc)
                    ++ [newline])
  = Ok (position indent fname ln cn ++ lit ": " ++ desc ++ [newline]
          ++ lit "Execution trace:" ++ [newline]).
Proof.
  intros indent fname ln cn e code desc Hi Hip Hf Hl Hc He Hcode Hc0 Hd Hno Hext.
  assert (Hep : is_plain e = true)
    by (destruct e as [[] [] [] [] [] [] [] []]; try discriminate He; reflexivity).
  assert (Hm : all_in is_plain (error_message e code desc)).
  { unfold error_message. constructor; [exact Hep|].
    apply all_in_app; [repeat constructor|].
    apply all_in_app; [now apply code_plain|].
    apply all_in_app; [repeat constructor|assumption]. }
  unfold error_trace.
  rewrite splitlines_plain by now apply diagnostic_plain.
  cbn [error_trace_loop].
  rewrite step_other_file; auto;
    [|now apply plain_dot|reflexivity].
  cbn [bind]. rewrite diagnostic_position.
  destruct (@header_match (position indent fname ln cn) e code desc)
    as (whole & Hh); auto.
  { apply plain_dot. now apply position_plain. }
  { now apply plain_dot. }
  rewrite truthy_nonempty, Hh.
  - unfold grp. cbn [group Nat.eqb app]. reflexivity.
  - intros E. apply app_eq_nil in E. destruct E as [_ E]. discriminate E.
Qed.

End Trace.

Lemma unlocated_line_dropped_witness :
  error_step (fun _ => None) "Boogie program verifier finished" = Ok None.
Proof.
  apply unlocated_line_dropped.
  apply (not_found_inv (found_lit _ _)). vm_compute. reflexivity.
Defined.

Lemma other_file_passed_through_witness :
  error_step (fun _ => None)
    (diagnostic "  " "main.c" "10" "2" "Trace: Thread=1" ++ [newline])
  = Ok (Some (diagnostic "  " "main.c" "10" "2" "Trace: Thread=1")).
Proof.
  apply other_file_passed_through.
  - repeat constructor.
  - repeat constructor.
  - split; [repeat constructor|discriminate].
  - split; [repeat constructor|discriminate].
  - repeat constructor.
  - reflexivity.
  - apply (not_found_inv (@bpl_re_ends_with "main.c" ltac:(repeat constructor))).
    vm_compute. reflexivity.
Defined.

Lemma missing_artifact_raises_witness :
  error_step (fun _ => None)
    (diagnostic [] "a.bpl" "42" "3" "error ASSERT0001: assertion violation"
       ++ [newline])
  = Raise (IOError "a.bpl").
Proof.
  apply missing_artifact_raises.
  - constructor.
  - repeat constructor.
  - split; [repeat constructor|discriminate].
  - split; [repeat constructor|discriminate].
  - repeat constructor.
  - reflexivity.
  - exists (lit "a"). reflexivity.
  - reflexivity.
Defined.

Lemma artifact_line_resolved_witness :
  let fs := fun path : text =>
    if text_eqb path "two.bpl" then Some two_annotations_artifact else None in
  error_step fs (diagnostic " " "two.bpl" "1" "7" "assertion violation" ++ [newline])
  = Ok (Some (diagnostic " " "y.c" "30" "4" "assertion violation")).
Proof.
  intros fs.
  refine (proj2 (proj2 (@artifact_line_resolved fs " " "two.bpl" "1" "7"
                          "assertion violation" [newline] two_annotations_artifact
                          _ _ _ _ _ _ _ _)
                   2 (lit "  assume " ++ annotation "x.c" "1" "2" ++ lit " "
                        ++ annotation "y.c" "30" "4" ++ lit " true;" ++ [newline])
                   "y.c" "30" "4" _ _ _ _ _ _ _) _).
  - repeat constructor.
  - repeat constructor.
  - split; [repeat constructor|discriminate].
  - split; [repeat constructor|discriminate].
  - repeat constructor.
  - reflexivity.
  - exists (lit "two"). reflexivity.
  - reflexivity.
  - vm_compute. lia.
  - vm_compute. reflexivity.
  - exists (lit "  assume " ++ annotation "x.c" "1" "2" ++ lit " "),
           (lit " true;" ++ [newline]).
    split; [now rewrite <- !app_assoc|]. split; [repeat constructor|].
    simpl. intros H. repeat destruct H as [H|H]; discriminate H || contradiction.
  - repeat constructor.
  - split; [repeat constructor|discriminate].
  - split; [repeat constructor|discriminate].
  - intros m l' Hm Hl'. vm_compute in Hm. lia.
  - apply (not_found_inv (bb_re_label _)). vm_compute. reflexivity.
Defined.

Lemma trace_of_parts_witness :
  error_trace (fun _ => None)
    (lit "f.c(9,5): error PF5001: This assertion can fail" ++ newline
       :: lit "f.c(3,1): Trace: Thread=1")
  = Ok ((lit "f.c(9,5): This assertion can fail" ++ [newline]
           ++ lit "Execution trace:" ++ [newline])
        ++ (lit "    f.c(3,1): Trace: Thread=1" ++ [newline])).
Proof.
  apply trace_of_parts; vm_compute; reflexivity.
Defined.

Lemma unlocated_output_empty_trace_witness :
  error_trace (fun _ => None)
    (lit "Boogie program verifier finished with 0 verified, 1 error" ++ [newline])
  = Ok [].
Proof.
  apply unlocated_output_empty_trace.
  apply (not_found_inv (found_lit _ _)). vm_compute. reflexivity.
Defined.

Lemma plain_step_indented_witness :
  error_trace (fun _ => None)
    (diagnostic [] "f.c" "3" "1" "Trace: Thread=1" ++ [newline])
  = Ok (lit "    " ++ diagnostic [] "f.c" "3" "1" "Trace: Thread=1" ++ [newline]).
Proof.
  refine (proj2 (@plain_step_indented (fun _ => None) [] "f.c" "3" "1"
                   "Trace: Thread=1" _ _ _ _ _ _ _ _) _).
  - constructor.
  - constructor.
  - repeat constructor.
  - split; [repeat constructor|discriminate].
  - split; [repeat constructor|discriminate].
  - repeat constructor.
  - apply (not_found_inv (@bpl_re_ends_with "f.c" ltac:(repeat constructor))).
    vm_compute. reflexivity.
  - apply (not_found_inv (found_lit _ _)). vm_compute. reflexivity.
  - discriminate.
Defined.

Lemma error_line_is_header_witness :
  error_trace (fun _ => None)
    (diagnostic [] "f.c" "9" "5"
       (error_message "e" "PF5001" "This assertion can fail") ++ [newline])
  = Ok (position [] "f.c" "9" "5" ++ lit ": " ++ lit "This assertion can fail"
          ++ [newline] ++ lit "Execution trace:" ++ [newline]).
Proof.
  apply error_line_is_header.
  - constructor.
  - constructor.
  - repeat constructor.
  - split; [repeat constructor|discriminate].
  - split; [repeat constructor|discriminate].
  - reflexivity.
  - repeat constructor.
  - discriminate.
  - repeat constructor.
  - apply (not_found_inv (found_lit _ _)). vm_compute. reflexivity.
  - apply (not_found_inv (@bpl_re_ends_with "f.c" ltac:(repeat constructor))).
    vm_compute. reflexivity.
Defined.

End Steps.

(** * More on the structured report *)

Module Reports.
Import ReFacts Smack Markers Classifier Annotation Report Steps.
Local Open Scope string_scope.
Local Open Scope list_scope.

(** The pass marker decides alone: whatever else the output holds, trace
    and error lines included, the report is the pass record. *)
Theorem pass_marker_wins : forall corralOutput,
  occurs "Program has no bugs" corralOutput ->
  smackdOutput corralOutput = Passed "corral".
Proof.
  intros raw H. unfold smackdOutput, passed_re.
  apply found_lit in H. now rewrite H.
Qed.

Lemma pass_marker_wins_witness :
  smackdOutput (lit "f.c(3,1): Trace: Thread=1  (x = 1)" ++ [newline]
                ++ lit "Program has no bugs")
  = Passed "corral".
Proof.
  apply pass_marker_wins.
  exists (lit "f.c(3,1): Trace: Thread=1  (x = 1)" ++ [newline]), [].
  reflexivity.
Defined.

(** A line in which "): " does not occur is neither a trace line nor an
    error line: it changes nothing. *)
Lemma smackd_line_unlocated : forall st l,
  ~ occurs "): " l -> smackd_line st l = st.
Proof.
  intros st l Hno. unfold smackd_line.
  assert (Ht : re_match trace_re l = None).
  { destruct (re_match trace_re l) eqn:E; [|reflexivity]. exfalso. apply Hno.
    assert (Hf : found (re_match trace_re l) = true) by now rewrite E.
    apply re_match_found in Hf. destruct Hf as (w & post & -> & H).
    unfold trace_re, located_re in H. inv_matches; find_occurrence. }
  assert (He : re_match error_re l = None).
  { destruct (re_match error_re l) eqn:E; [|reflexivity]. exfalso. apply Hno.
    assert (Hf : found (re_match error_re l) = true) by now rewrite E.
    apply re_match_found in Hf. destruct Hf as (w & post & -> & H).
    unfold error_re, located_re in H. inv_matches; find_occurrence. }
  now rewrite Ht, He.
Qed.

Lemma fold_unlocated : forall ls st,
  (forall l, In l ls -> ~ occurs "): " l) ->
  fold_left smackd_line ls st = st.
Proof.
  induction ls as [|l ls IH]; intros st H; [reflexivity|].
  cbn [fold_left]. rewrite smackd_line_unlocated by (apply H; now left).
  apply IH. intros l' Hl'. apply H. now right.
Qed.

(** X13.  An output without the pass marker and without "): " anywhere has no
    trace and no error line: the report is a failure record with the
    initial location (empty file, line 0, column 0, empty description) and
    no step. *)
Theorem unlocated_output_default_report : forall corralOutput,
  ~ occurs "Program has no bugs" corralOutput ->
  ~ occurs "): " corralOutput ->
  smackdOutput corralOutput = Failed "corral" (mk_fails_at [] 0 0 []) 1 [].
Proof.
  intros raw Hno Hloc. unfold smackdOutput, passed_re.
  rewrite (not_found (found_lit _ raw) Hno).
  rewrite fold_unlocated; [reflexivity|].
  intros l Hl Ho. apply Hloc.
  eapply occurs_trans; [exact Ho|now apply line_occurs].
Qed.

Lemma unlocated_output_default_report_witness :
  smackdOutput "Corral could not parse the input"
  = Failed "corral" (mk_fails_at [] 0 0 []) 1 [].
Proof.
  apply unlocated_output_default_report;
    apply (not_found_inv (found_lit _ _)); vm_compute; reflexivity.
Defined.

(** An error line is no trace line, and sets the four variables of the
    failure location. *)
Lemma smackd_line_error : forall st fname ln cn desc eol,
  filename fname -> number ln -> number cn -> all_in is_dot desc ->
  line_end eol ->
  smackd_line st (error_line fname ln cn desc eol)
  = mk_state (st_traces st) fname (int_of_digits ln) (int_of_digits cn)
             (st_threadid st) (lit "error " ++ desc).
Proof.
  intros st fname ln cn desc eol Hf Hl Hc Hd He. unfold smackd_line, error_line.
  assert (Ht : re_match trace_re
                 (located fname ln cn ++ lit "error " ++ desc ++ eol) = None).
  { rewrite re_match_eq. unfold trace_re. rewrite exec_located by assumption.
    apply exec_lit_head. simpl. discriminate. }
  assert (Hm : exists whole,
             re_match error_re (located fname ln cn ++ lit "error " ++ desc ++ eol)
             = Some ((0, whole) :: (4, lit "error " ++ desc)
                       :: located_caps fname ln cn [])).
  { eexists. rewrite re_match_eq. unfold error_re.
    rewrite exec_located by assumption.
    replace (lit "error " ++ desc ++ eol)
      with (((lit "error " ++ desc) ++ []) ++ eol)
      by (now rewrite app_nil_r, <- app_assoc).
    eapply runs_exec.
    - run_along; auto. destruct He as [-> | ->]; reflexivity.
    - reflexivity. }
  destruct Hm as (whole & Hm). rewrite Ht, Hm. reflexivity.
Qed.

(** X14.  When the last located line of the output is an error line, failsAt is
    that line's file, line, column and description ("error" included), and
    the steps are those of the lines before it. *)
Theorem last_error_line_is_failsAt :
  forall corralOutput before after fname ln cn desc eol,
  ~ occurs "Program has no bugs" corralOutput ->
  splitlines corralOutput = before ++ error_line fname ln cn desc eol :: after ->
  (forall l, In l after -> ~ occurs "): " l) ->
  filename fname -> number ln -> number cn -> all_in is_dot desc ->
  line_end eol ->
  smackdOutput corralOutput
  = Failed "corral"
      (mk_fails_at fname (int_of_digits ln) (int_of_digits cn)
                   (lit "error " ++ desc))
      1 (flat_map line_trace before).
Proof.
  intros raw before after fname ln cn desc eol Hno Hlines Hafter Hf Hl Hc Hd He.
  unfold smackdOutput, passed_re. rewrite (not_found (found_lit _ raw) Hno).
  rewrite Hlines, fold_left_app. cbn [fold_left].
  rewrite smackd_line_error by assumption.
  rewrite fold_unlocated by assumption. cbn [st_filename st_lineno st_colno
    st_desc st_traces].
  now rewrite fold_smackd_traces.
Qed.

Lemma last_error_line_is_failsAt_witness :
  smackdOutput (lit "f.c(3,1): Trace: Thread=1  (x = 1)" ++ [newline]
                ++ lit "f.c(9,5): error PF5001: This assertion can fail"
                ++ [newline] ++ lit "Boogie verification time: 0.5 s")
  = Failed "corral"
      (mk_fails_at "f.c" 9 5 "error PF5001: This assertion can fail") 1
      [mk_trace 1 "f.c" 3 1 "x = 1" "x = 1"].
Proof.
  apply (@last_error_line_is_failsAt _
           [lit "f.c(3,1): Trace: Thread=1  (x = 1)" ++ [newline]]
           [lit "Boogie verification time: 0.5 s"]
           "f.c" "9" "5" "PF5001: This assertion can fail" [newline]).
  - apply (not_found_inv (found_lit _ _)). vm_compute. reflexivity.
  - vm_compute. reflexivity.
  - intros l [<-|[]]. apply (not_found_inv (found_lit _ _)).
    vm_compute. reflexivity.
  - split; [repeat constructor|discriminate].
  - split; [repeat constructor|discriminate].
  - split; [repeat constructor|discriminate].
  - repeat constructor.
  - now right.
Defined.

(** X15.  The steps of a failure record are those of the lines of the output,
    in their order, at most one for a line, and none for a line without
    "Trace: Thread="; the thread count is always 1. *)
Theorem steps_follow_trace_lines : forall corralOutput,
  ~ occurs "Program has no bugs" corralOutput ->
  (exists failsAt,
     smackdOutput corralOutput
     = Failed "corral" failsAt 1 (flat_map line_trace (splitlines corralOutput))) /\
  (forall l, length (line_trace l) <= 1) /\
  (forall l, ~ occurs "Trace: Thread=" l -> line_trace l = []).
Proof.
  intros raw Hno. split; [now apply smackdOutput_traces|]. split.
  - intros l. unfold line_trace, smackd_line.
    destruct (re_match trace_re l); [simpl; lia|].
    destruct (re_match error_re l); simpl; lia.
  - intros l Hl. unfold line_trace, smackd_line.
    destruct (re_match trace_re l) eqn:E.
    + exfalso. apply Hl.
      assert (Hf : found (re_match trace_re l) = true) by now rewrite E.
      apply re_match_found in Hf. destruct Hf as (w & post & -> & H).
      unfold trace_re, located_re in H. inv_matches; find_occurrence.
    + destruct (re_match error_re l); reflexivity.
Qed.

Lemma steps_follow_trace_lines_witness :
  exists failsAt,
    smackdOutput (lit "f.c(3,1): Trace: Thread=1  (x = 1)" ++ [newline]
                  ++ lit "Boogie verification time: 0.5 s")
    = Failed "corral" failsAt 1
        (flat_map line_trace
           (splitlines (lit "f.c(3,1): Trace: Thread=1  (x = 1)" ++ [newline]
                        ++ lit "Boogie verification time: 0.5 s"))).
Proof.
  apply steps_follow_trace_lines.
  apply (not_found_inv (found_lit _ _)). vm_compute. reflexivity.
Defined.

End Reports.

(** * The front ends *)

Module Dispatch.
Import ReFacts Smack Report.
Local Open Scope string_scope.
Local Open Scope list_scope.

Lemma language_has_frontend : forall ext lang,
  lookup languages ext = Some lang -> exists f, lookup frontends lang = Some f.
Proof.
  intros ext lang H. unfold languages in H. cbn [lookup] in H.
  repeat match type of H with
  | (if ?b then _ else _) = _ =>
      destruct b; [injection H as <-; vm_compute; eauto|]
  end.
  discriminate H.
Qed.

Section Paths.
Variable isfile : text -> bool.
Variable extension : text -> text.

Lemma per_file_total : forall input_files libs calls,
  Forall (fun file => validate_input_file isfile extension file = None) input_files ->
  exists libs' calls',
    frontend_per_file extension input_files libs calls = Some (libs', calls') /\
    map snd calls' = map snd calls ++ input_files.
Proof.
  induction input_files as [|file files IH]; intros libs calls H.
  - exists libs, calls. split; [reflexivity|now rewrite app_nil_r].
  - inversion H as [|? ? Hv Hrest]; subst. cbn [frontend_per_file].
    unfold validate_input_file in Hv.
    destruct (isfile file); [|discriminate Hv]. cbn [negb] in Hv.
    destruct (lookup languages (extension file)) as [lang|] eqn:E;
      [|discriminate Hv].
    destruct (@language_has_frontend _ _ E) as (f & ->).
    destruct (IH (add_libs libs lang) (calls ++ [(f, file)]) Hrest)
      as (libs' & calls' & -> & Hc).
    exists libs', calls'. split; [reflexivity|].
    rewrite Hc, map_app, <- app_assoc. reflexivity.
Qed.

(** X16.  With no --language, the dispatch of validated input files cannot fail:
    every accepted extension has a language and every language a front end;
    one front end is called for each file, in the order of the command
    line. *)
Theorem validated_files_dispatch : forall args input_files,
  Args.language args = None ->
  Forall (fun file => validate_input_file isfile extension file = None) input_files ->
  exists libs calls,
    frontend_dispatch extension args input_files = Some (libs, calls) /\
    map snd calls = input_files.
Proof.
  intros args files Hl Hv. unfold frontend_dispatch. rewrite Hl. cbn [truthy].
  destruct (per_file_total [] [] Hv) as (libs & calls & H & Hc).
  exists libs, calls. auto.
Qed.

(** X17.  With --language set to any of the values the command line accepts (the
    keys of [frontends]), the dispatch fails: the value is looked up in
    [languages], whose keys are the file extensions, and none of the
    accepted values is one. *)
Theorem language_option_fails : forall args input_files language,
  Args.language args = Some language ->
  In language (map fst frontends) ->
  frontend_dispatch extension args input_files = None.
Proof.
  intros args files language Hl Hin. unfold frontend_dispatch. rewrite Hl.
  cbn [map fst frontends] in Hin.
  repeat destruct Hin as [<-|Hin]; try reflexivity. contradiction.
Qed.

End Paths.

Lemma validated_files_dispatch_witness :
  exists libs calls,
    frontend_dispatch (fun file => skipn 2 file)
      (default_arguments "a.bpl") [lit "a.cc"; lit "b.c"] = Some (libs, calls) /\
    map snd calls = [lit "a.cc"; lit "b.c"].
Proof.
  apply (@validated_files_dispatch (fun _ => true)).
  - reflexivity.
  - repeat constructor.
Defined.

Lemma language_option_fails_witness :
  frontend_dispatch (fun file => skipn 2 file)
    (language_arguments "C" "a.bpl")
    [lit "a.i"] = None.
Proof.
  apply (@language_option_fails _ _ _ (lit "C")).
  - reflexivity.
  - left. reflexivity.
Defined.

End Dispatch.

(** * The attributes of the procedures *)

Module Declarations.
Import ReFacts Smack Markers Classifier Report Steps.
Local Open Scope string_scope.
Local Open Scope list_scope.

(** ** The attribute of a procedure *)

Lemma alternation_matches : forall names m post,
  names <> [] -> (Matches (alternation names) m post <-> In m names).
Proof.
  induction names as [|name names IH]; intros m post Hne; [congruence|].
  destruct names as [|name' names].
  - cbn [alternation]. split.
    + intros H. inversion H; subst. now left.
    + intros [<-|[]]. constructor.
  - change (alternation (name :: name' :: names))
      with (Alt (Lit name) (alternation (name' :: names))).
    split.
    + intros H. inversion H; subst.
      * match goal with H : Matches (Lit _) _ _ |- _ => inversion H; subst end.
        now left.
      * right. apply (IH m post); [discriminate|assumption].
    + intros [<-|Hin].
      * apply M_AltL. constructor.
      * apply M_AltR. apply IH; [discriminate|assumption].
Qed.

Lemma found_alternation : forall names s,
  names <> [] ->
  (found (re_match (alternation names) s) = true <->
   exists p, In p names /\ starts_with p s).
Proof.
  intros names s Hne. rewrite re_match_found. split.
  - intros (m & post & -> & H). apply alternation_matches in H; [|exact Hne].
    exists m. split; [exact H|now exists post].
  - intros (p & Hin & post & ->). exists p, post. split; [reflexivity|].
    now apply alternation_matches.
Qed.

Lemma member_In : forall x l, member x l = true <-> In x l.
Proof.
  intros x l. unfold member. rewrite existsb_exists. split.
  - intros (y & Hy & E). apply text_eqb_eq in E. now subst.
  - intros H. exists x. split; [exact H|now apply text_eqb_eq].
Qed.

(** X18.  In modular mode a procedure that is no entry point is inlined exactly
    when its name starts with one of the names of [inlined_procedures]; any
    other procedure gets no attribute, whatever the verifier and the unroll
    bound. *)
Theorem modular_inlining : forall name args,
  Args.modular args = true -> ~ In name (Args.entry_points args) ->
  ((exists p, In p inlined_procedures /\ starts_with p name) ->
   procedure_annotation name args = "{:inline 1}") /\
  (~ (exists p, In p inlined_procedures /\ starts_with p name) ->
   procedure_annotation name args = []).
Proof.
  intros name args Hm He. unfold procedure_annotation.
  rewrite (not_found (member_In _ _) He), Hm. cbn [negb andb].
  assert (Hne : inlined_procedures <> []) by discriminate.
  split; intros H.
  - apply (found_alternation name Hne) in H. now rewrite H.
  - now rewrite (not_found (found_alternation name Hne) H).
Qed.

Lemma modular_inlining_witness :
  procedure_annotation "__VERIFIER_assert"
    (modular_arguments "a.bpl")
  = "{:inline 1}".
Proof.
  refine (proj1 (@modular_inlining "__VERIFIER_assert" _ _ _) _).
  - reflexivity.
  - intros [H|[]]. discriminate H.
  - exists (lit "__VERIFIER_"). split.
    + right; right; right; right; right; right; left. reflexivity.
    + exists (lit "assert"). reflexivity.
Defined.

(** ** Substitution *)

Lemma exec_group0_none : forall B r s (f : text -> caps -> B),
  ~ (exists m post, s = m ++ post /\ Matches r m post) ->
  exec (Group 0 r) s [] (fun s' c => Some (f s' c)) = None.
Proof.
  intros B r s f H.
  destruct (exec _ _ _ _) eqn:E; [|reflexivity]. exfalso. apply H.
  apply exec_sound in E. destruct E as (s1 & rest & c' & -> & Hm & _).
  inversion Hm; subst. eauto.
Qed.

(** Where no match starts, the text is copied. *)
Lemma re_sub_keep : forall r repl u s,
  (forall t1 t2, u = t1 ++ t2 -> t2 <> [] ->
     ~ exists m post, t2 ++ s = m ++ post /\ Matches r m post) ->
  re_sub r repl (u ++ s) = u ++ re_sub r repl s.
Proof.
  intros r repl. unfold re_sub. induction u as [|a u IH]; intros s H; [reflexivity|].
  cbn [app]. rewrite scan_eq.
  rewrite (@exec_group0_none _ r (a :: u ++ s)
             (fun s' c => (length (a :: u ++ s) - length s', c))).
  - cbn [app]. f_equal. apply IH. intros t1 t2 -> Hne.
    apply (H (a :: t1) t2); [reflexivity|exact Hne].
  - apply (H [] (a :: u)); [reflexivity|discriminate].
Qed.

Lemma re_sub_none : forall r repl s,
  ~ matches_in r s -> re_sub r repl s = s.
Proof.
  intros r repl s H. rewrite <- (app_nil_r s) at 1.
  rewrite re_sub_keep.
  - unfold re_sub. rewrite scan_eq.
    rewrite (@exec_group0_none _ r []
               (fun s' c => (length (@nil ascii) - length s', c))).
    + apply app_nil_r.
    + intros (m & post & Heq & Hm). apply H. exists s, m, post.
      rewrite <- Heq, app_nil_r. auto.
  - intros t1 t2 -> _ (m & post & Heq & Hm). apply H.
    rewrite app_nil_r in Heq. exists t1, m, post. rewrite Heq. auto.
Qed.

Lemma scan_skip : forall B r (emit : caps -> list B) keep u s,
  scan r emit keep (length u) (u ++ s) = scan r emit keep 0 s.
Proof. induction u as [|a u IH]; intros s; [reflexivity|apply IH]. Qed.

(** A match is replaced, and the scan goes on behind it. *)
Lemma re_sub_run : forall r repl m rest f,
  runs r m rest f -> m <> [] ->
  re_sub r repl (m ++ rest) = repl ((0, m) :: f []) ++ re_sub r repl rest.
Proof.
  intros r repl m rest f Hr Hne. unfold re_sub. rewrite scan_eq.
  erewrite runs_exec; [|apply runs_group; exact Hr|reflexivity].
  destruct m as [|a m]; [congruence|]. cbn [app].
  replace (length (a :: m ++ rest) - length rest) with (S (length m))
    by (cbn [length]; rewrite length_app; lia).
  now rewrite scan_skip.
Qed.

(** ** Declarations *)

Lemma proc_decl_starts : forall m post,
  Matches proc_decl m post -> starts_with "procedure" (m ++ post).
Proof.
  intros m post H. unfold proc_decl in H. inv_matches.
  eexists. rewrite <- !app_assoc. reflexivity.
Qed.

Lemma last_of_lines : forall (pre t1 t2 : text),
  ends_with [newline] pre -> pre = t1 ++ t2 -> t2 <> [] -> In newline t2.
Proof.
  intros pre t1 t2 (p & ->) Heq Hne.
  destruct (exists_last Hne) as (t & z & ->).
  rewrite app_assoc in Heq. apply app_inj_tail in Heq. destruct Heq as [_ <-].
  apply in_or_app. right. now left.
Qed.

(** No declaration starts inside whole lines that do not hold the word. *)
Lemma no_declaration_inside : forall pre s t1 t2,
  whole_lines pre -> ~ occurs "procedure" pre ->
  pre = t1 ++ t2 -> t2 <> [] ->
  ~ exists m post, t2 ++ s = m ++ post /\ Matches proc_decl m post.
Proof.
  intros pre s t1 t2 Hw Hno Heq Hne (m & post & Hs & Hm).
  apply proc_decl_starts in Hm. destruct Hm as (x & Hx). rewrite <- Hs in Hx.
  apply app_eq_app in Hx. destruct Hx as (l & [[Ht _] | [Hp _]]).
  - apply Hno. exists t1, l. now rewrite Heq, Ht.
  - destruct Hw as [-> | Hw].
    + symmetry in Heq. apply app_eq_nil in Heq. now destruct Heq.
    + assert (Hin : In newline (lit "procedure")).
      { rewrite Hp. apply in_or_app. left.
        now apply (@last_of_lines pre t1 t2). }
      simpl in Hin. repeat destruct Hin as [Hin|Hin]; discriminate Hin || contradiction.
Qed.

Lemma name_char : forall a,
  is_name_char a = true -> is_space a = false /\ a <> "("%char.
Proof.
  intros a. unfold is_name_char. destruct (is_space a); [discriminate|].
  destruct (Ascii.eqb a "(") eqn:E; [discriminate|]. intros _.
  split; [reflexivity|]. intros ->. discriminate E.
Qed.

Lemma space_not_name : forall a, is_space a = true -> is_name_char a = false.
Proof. intros a H. unfold is_name_char. now rewrite H. Qed.

Lemma declaration_runs : forall gap name gap' post,
  all_in is_space gap -> gap <> [] -> all_in is_name_char name -> name <> [] ->
  all_in is_space gap' ->
  runs proc_decl (declaration gap name gap') post
       (fun c => (1, name) :: c).
Proof.
  intros gap name gap' post Hg Hg0 Hn Hn0 Hg' A k c x H.
  unfold proc_decl, declaration. eapply runs_exec.
  - run_chain; auto.
    + rewrite <- !app_assoc.
      apply stops_head with (q := is_name_char); [exact Hn|exact Hn0|].
      intros a Ha. apply name_char in Ha. apply Ha.
    + rewrite <- !app_assoc.
      apply stops_or_head with (q := is_space); [exact Hg'| |reflexivity].
      intros a Ha. now apply space_not_name.
    + reflexivity.
  - exact H.
Qed.

(** X19.  A text in which "procedure" does not occur is written back behind the
    header, unchanged. *)
Theorem no_declaration_only_header : forall args argv content,
  ~ occurs "procedure" content ->
  annotated args argv content
  = generated_header (Args.verifier args) argv ++ content.
Proof.
  intros args argv content Hno. unfold annotated, annotate_procedures.
  rewrite re_sub_none.
  - unfold generated_header, VERSION. rewrite <- !app_assoc. reflexivity.
  - intros (pre & m & post & -> & Hm). apply Hno.
    apply proc_decl_starts in Hm. destruct Hm as (x & Hx).
    exists pre, x. now rewrite Hx.
Qed.

Lemma no_declaration_only_header_witness :
  annotated (default_arguments "a.bpl") [lit "smack"; lit "a.c"]
    (lit "var $M.0: [ref] i8;" ++ [newline])
  = generated_header "corral" [lit "smack"; lit "a.c"]
    ++ lit "var $M.0: [ref] i8;" ++ [newline].
Proof.
  apply no_declaration_only_header.
  apply (not_found_inv (found_lit _ _)). vm_compute. reflexivity.
Defined.

(** X20.  A declaration at the start of a line, after lines that do not hold the
    word "procedure", gets the attribute of its name: the white space
    after "procedure" becomes one space, the attribute and one space, the
    white space before "(" is dropped, and what precedes the declaration is
    copied. *)
Theorem declaration_annotated : forall args pre gap name gap' post,
  whole_lines pre -> ~ occurs "procedure" pre ->
  all_in is_space gap -> gap <> [] ->
  all_in is_name_char name -> name <> [] -> all_in is_space gap' ->
  annotate_procedures args (pre ++ declaration gap name gap' ++ post)
  = pre ++ annotated_declaration (procedure_annotation name args) name
        ++ annotate_procedures args post.
Proof.
  intros args pre gap name gap' post Hw Hno Hg Hg0 Hn Hn0 Hg'.
  unfold annotate_procedures. rewrite re_sub_keep.
  - f_equal. rewrite (re_sub_run _ (@declaration_runs gap name gap' post Hg Hg0 Hn Hn0 Hg')).
    + reflexivity.
    + discriminate.
  - intros t1 t2. now apply no_declaration_inside.
Qed.

Lemma declaration_annotated_witness :
  annotate_procedures (default_arguments "a.bpl")
    ((lit "const $0: ref;" ++ [newline])
       ++ declaration "  " "main" " " ++ lit ")" ++ [newline])
  = (lit "const $0: ref;" ++ [newline])
      ++ annotated_declaration "{:entrypoint}" "main" ++ lit ")" ++ [newline].
Proof.
  apply (@declaration_annotated (default_arguments "a.bpl")
           (lit "const $0: ref;" ++ [newline]) "  " "main" " "
           (lit ")" ++ [newline])).
  - right. exists (lit "const $0: ref;"). reflexivity.
  - apply (not_found_inv (found_lit _ _)). vm_compute. reflexivity.
  - repeat constructor.
  - discriminate.
  - repeat constructor.
  - discriminate.
  - repeat constructor.
Defined.

End Declarations.

(** * The selection of a property *)

Module Selection.
Import ReFacts Smack Markers Classifier Annotation Report Steps Declarations.
Local Open Scope string_scope.
Local Open Scope list_scope.

(** ** Lines *)

Lemma readlines_from_concat : forall s cur,
  concat (readlines_from cur s) = rev cur ++ s.
Proof.
  induction s as [|c s IH]; intros cur.
  - cbn [readlines_from]. destruct cur; [reflexivity|].
    cbn [concat]. now rewrite !app_nil_r.
  - cbn [readlines_from]. destruct (Ascii.eqb c newline).
    + cbn [concat]. rewrite IH. cbn [rev app]. now rewrite <- app_assoc.
    + rewrite IH. cbn [rev]. now rewrite <- app_assoc.
Qed.

Lemma readlines_concat : forall s, concat (readlines s) = s.
Proof. intros s. unfold readlines. now rewrite readlines_from_concat. Qed.

Lemma readlines_from_app : forall a b cur,
  readlines_from cur (a ++ newline :: b)
  = readlines_from cur (a ++ [newline]) ++ readlines b.
Proof.
  induction a as [|c a IH]; intros b cur.
  - reflexivity.
  - cbn [app readlines_from]. destruct (Ascii.eqb c newline).
    + cbn [app]. f_equal. apply IH.
    + apply IH.
Qed.

Lemma readlines_from_line : forall s cur,
  all_in is_dot s ->
  readlines_from cur (s ++ [newline]) = [rev cur ++ s ++ [newline]].
Proof.
  induction s as [|c s IH]; intros cur Hs.
  - reflexivity.
  - inversion Hs as [|c' s' Hc Hs']; subst. cbn [app readlines_from].
    unfold is_dot in Hc. apply negb_true_iff in Hc.
    rewrite Hc, IH by assumption. cbn [rev]. now rewrite <- !app_assoc.
Qed.

Lemma readlines_line : forall s,
  all_in is_dot s -> readlines (s ++ [newline]) = [s ++ [newline]].
Proof. intros s Hs. unfold readlines. now rewrite readlines_from_line. Qed.

(** ** The substitution at the start of a line *)

Lemma exec_group0_rest : forall r s rest c,
  exec (Group 0 r) s [] (fun s' c => Some (s', c)) = Some (rest, c) ->
  exists m, s = m ++ rest /\ Matches r m rest /\ group c 0 = Some m.
Proof.
  intros r s rest c H. cbn [exec] in H.
  apply exec_sound in H. destruct H as (s1 & rest' & c' & -> & Hm & Hk).
  inversion Hk; subst. exists s1. cbn [group Nat.eqb].
  rewrite firstn_consumed. auto.
Qed.

Lemma nothing_selected : forall args,
  Args.only_check_valid_deref args = false ->
  Args.only_check_valid_free args = false ->
  Args.only_check_memleak args = false ->
  forall line, re_sub_at_start assert_re (replace_assertion args) line = line.
Proof.
  intros args H1 H2 H3 line. unfold re_sub_at_start.
  destruct (exec _ _ _ _) as [[rest c]|] eqn:E; [|reflexivity].
  apply exec_group0_rest in E. destruct E as (m & -> & _ & Hg).
  unfold replace_assertion, selected_props. rewrite H1, H2, H3.
  cbn [length Nat.ltb Nat.leb]. unfold grp. now rewrite Hg.
Qed.

Lemma assert_re_occurs : forall m post,
  Matches assert_re m post -> occurs "assert" m.
Proof.
  intros m post H. unfold assert_re in H. inv_matches; find_occurrence.
Qed.

(** ** Theorems *)

(** X21.  Without --only-check-valid-deref, --only-check-valid-free and
    --only-check-memleak the text is written back as it was read. *)
Theorem nothing_selected_unchanged : forall args content,
  Args.only_check_valid_deref args = false ->
  Args.only_check_valid_free args = false ->
  Args.only_check_memleak args = false ->
  selected args content = content.
Proof.
  intros args content H1 H2 H3. unfold selected.
  rewrite <- (readlines_concat content) at 2. f_equal.
  rewrite <- (map_id (readlines content)) at 2.
  apply map_ext. intros line. now apply nothing_selected.
Qed.

(** X22.  The lines are rewritten one by one: what is written for a text is
    what is written for its part up to a newline, followed by what is
    written for the rest. *)
Theorem selection_by_lines : forall args first rest,
  selected args (first ++ newline :: rest)
  = selected args (first ++ [newline]) ++ selected args rest.
Proof.
  intros args a b. unfold selected, readlines.
  now rewrite readlines_from_app, map_app, concat_app.
Qed.

(** X23.  Lines in which "assert" does not occur are written back unchanged,
    whatever is selected. *)
Theorem other_lines_unchanged : forall args content,
  ~ occurs "assert" content -> selected args content = content.
Proof.
  intros args content Hno. unfold selected.
  rewrite <- (readlines_concat content) at 2. f_equal.
  rewrite <- (map_id (readlines content)) at 2.
  apply map_ext_in. intros line Hin. unfold re_sub_at_start.
  rewrite exec_group0_none; [reflexivity|].
  intros (m & post & -> & Hm). apply Hno.
  apply assert_re_occurs in Hm.
  eapply occurs_trans; [exact Hm|].
  eapply occurs_trans; [|rewrite <- (readlines_concat content);
                          apply in_concat_occurs; exact Hin].
  exists [], post. reflexivity.
Qed.

Lemma nothing_selected_unchanged_witness :
  selected (default_arguments "a.bpl")
    (lit "  assert {:valid_free} $r != 0;" ++ [newline])
  = lit "  assert {:valid_free} $r != 0;" ++ [newline].
Proof.
  apply nothing_selected_unchanged; reflexivity.
Defined.

Lemma other_lines_unchanged_witness :
  selected (valid_deref_arguments "a.bpl")
    (lit "  assume {:verifier.code 0} true;" ++ [newline] ++ lit "  return;")
  = lit "  assume {:verifier.code 0} true;" ++ [newline] ++ lit "  return;".
Proof.
  apply other_lines_unchanged.
  apply (not_found_inv (found_lit _ _)). vm_compute. reflexivity.
Defined.

(** ** Assertions *)

Lemma firstn_consumed_eq : forall (s s1 rest : text),
  s = s1 ++ rest -> firstn (length s - length rest) s = s1.
Proof. intros s s1 rest ->. apply firstn_consumed. Qed.

(** A literal fails where the text goes on with another character. *)
Lemma exec_lit_other : forall A a l t c (k : cont A),
  match t with [] => True | b :: _ => b <> a end ->
  exec (Lit (a :: l)) t c k = None.
Proof.
  intros A a l [|b t] c k H; [reflexivity|]. cbn [exec strip_prefix].
  destruct (Ascii.eqb a b) eqn:E; [|reflexivity].
  apply Ascii.eqb_eq in E. congruence.
Qed.

(** A group of one or more characters of a class gives back what the
    continuation needs: the match ends where the continuation succeeds,
    when it fails after every longer run. *)
Lemma exec_group_plus_backtrack : forall A i p (k : cont A) w rest c x,
  all_in p w -> w <> [] -> k rest ((i, w) :: c) = Some x ->
  (forall t1 t2 c', rest = t1 ++ t2 -> t1 <> [] -> k t2 c' = None) ->
  exec (Group i (Plus (Chr p))) (w ++ rest) c k = Some x.
Proof.
  intros A i p k w rest c x Hw Hne Hk Hlater.
  rewrite exec_group_eq. destruct Hw as [|a w Ha Hw]; [congruence|].
  change (exec (Plus (Chr p)) ((a :: w) ++ rest) c ?K)
    with (if p a then exec (Star (Chr p)) (w ++ rest) c K else None).
  rewrite Ha, exec_star_chr. apply greedy_chr_backtrack; [exact Hw| |].
  - rewrite (@firstn_consumed_eq _ (a :: w) rest) by reflexivity. exact Hk.
  - intros t1 t2 Heq Hne' _. now apply (Hlater t1 t2).
Qed.

Lemma not_in_head : forall (a : ascii) (w t1 t2 : text),
  w = t1 ++ t2 -> t1 <> [] -> ~ In a (tl w) ->
  match t2 with [] => True | b :: _ => b <> a end.
Proof.
  intros a w t1 t2 Heq Hne Hno.
  pose proof (proper_suffix_head _ Heq Hne) as Hh.
  destruct t2 as [|b t2]; [exact I|]. intros ->. now apply Hno.
Qed.

Lemma first_alternative : forall A (e1 e2 : option A) x,
  e1 = Some x ->
  match e1 with Some y => Some y | None => e2 end = Some x.
Proof. intros A e1 e2 x ->. reflexivity. Qed.

Lemma second_alternative : forall A (e1 e2 : option A) x,
  e1 = None -> e2 = Some x ->
  match e1 with Some y => Some y | None => e2 end = Some x.
Proof. intros A e1 e2 x -> H. exact H. Qed.

(** The expression and its ";": the last ";" of the text. *)
Lemma expression_exec : forall A (k : cont A) expr tail c x,
  all_in is_dot expr -> expr <> [] -> ~ In ";"%char tail ->
  k tail ((4, expr) :: c) = Some x ->
  exec (Seq (Group 4 (Plus (Chr is_dot))) (Lit ";")) (expr ++ lit ";" ++ tail) c k
  = Some x.
Proof.
  intros A k expr tail c x He He0 Ht Hk. rewrite exec_seq_eq.
  apply exec_group_plus_backtrack; [exact He|exact He0| |].
  - rewrite exec_lit_app. exact Hk.
  - intros t1 t2 c' Heq Hne. apply exec_lit_other.
    now apply (@not_in_head ";"%char _ t1 t2 Heq Hne).
Qed.

(** The attribute: its "}" is the last one of the text. *)
Lemma attribute_exec : forall A (k : cont A) attr rest c x,
  all_in is_dot attr -> attr <> [] -> ~ In "}"%char rest ->
  k rest ((2, attribute attr) :: (3, attr) :: c) = Some x ->
  exec (Group 2 (Seq (Lit "{:") (Seq (Group 3 (Plus (Chr is_dot))) (Lit "}"))))
       (attribute attr ++ rest) c k
  = Some x.
Proof.
  intros A k attr rest c x Ha Ha0 Hr Hk.
  rewrite exec_group_eq, exec_seq_eq. unfold attribute at 1.
  rewrite <- !app_assoc, exec_lit_app, exec_seq_eq.
  apply exec_group_plus_backtrack; [exact Ha|exact Ha0| |].
  - rewrite exec_lit_app.
    rewrite (@firstn_consumed_eq _ (attribute attr) rest); [exact Hk|].
    unfold attribute. now rewrite <- !app_assoc.
  - intros t1 t2 c' Heq Hne. apply exec_lit_other.
    now apply (@not_in_head "}"%char _ t1 t2 Heq Hne).
Qed.

Lemma blank_space : forall w, all_in is_blank w -> all_in is_space w.
Proof.
  intros w. apply all_in_impl. intros a Ha. unfold is_blank in Ha.
  now apply andb_true_iff in Ha.
Qed.

Lemma blank_dot : forall w, all_in is_blank w -> all_in is_dot w.
Proof.
  intros w. apply all_in_impl. intros a Ha. unfold is_blank in Ha.
  now apply andb_true_iff in Ha.
Qed.

(** "assert" with the white space around it. *)
Lemma assert_runs : forall indent gap rest,
  all_in is_space indent -> all_in is_space gap -> stops is_space rest ->
  runs (Group 1 (Seq (Star (Chr is_space))
                     (Seq (Lit "assert") (Star (Chr is_space)))))
       (indent ++ lit "assert" ++ gap) rest
       (fun c => (1, indent ++ lit "assert" ++ gap) :: c).
Proof.
  intros indent gap rest Hi Hg Hr A k c x H. eapply runs_exec.
  - run_chain; [exact Hi|reflexivity|exact Hg|exact Hr].
  - exact H.
Qed.

Section Exec.
Variable B : Type.
Variable f : text -> caps -> B.

Lemma attributed_exec : forall indent gap attr expr tail,
  all_in is_space indent -> all_in is_space gap ->
  all_in is_dot attr -> attr <> [] ->
  all_in is_dot expr -> expr <> [] -> ~ In "}"%char expr ->
  ~ In ";"%char tail -> ~ In "}"%char tail ->
  exec (Group 0 assert_re) (assertion indent gap (attribute attr) expr ++ tail) []
       (fun s' c => Some (f s' c))
  = Some (f tail [(0, assertion indent gap (attribute attr) expr);
                  (4, expr); (2, attribute attr); (3, attr);
                  (1, indent ++ lit "assert" ++ gap)]).
Proof.
  intros indent gap attr expr tail Hi Hg Ha Ha0 He He0 Hec Hts Htc.
  assert (Heq : assertion indent gap (attribute attr) expr ++ tail
                = (indent ++ lit "assert" ++ gap)
                    ++ attribute attr ++ expr ++ lit ";" ++ tail).
  { unfold assertion. now rewrite <- !app_assoc. }
  rewrite exec_group_eq. unfold assert_re. rewrite exec_seq_eq.
  rewrite Heq. apply assert_runs; [exact Hi|exact Hg|reflexivity|].
  rewrite exec_seq_eq. unfold Opt. rewrite exec_alt_eq.
  apply first_alternative. apply attribute_exec; [exact Ha|exact Ha0| |].
  - intros H. apply in_app_or in H. destruct H as [H|H]; [now apply Hec|].
    cbn [lit list_ascii_of_string app] in H.
    destruct H as [H|H]; [discriminate H|now apply Htc].
  - apply expression_exec; [exact He|exact He0|exact Hts|].
    rewrite (@firstn_consumed_eq _ (assertion indent gap (attribute attr) expr) tail);
      [reflexivity|].
    unfold assertion. now rewrite <- !app_assoc.
Qed.

Lemma expression_start : forall e,
  is_expression_start e = true ->
  is_space e = false /\ e <> "{"%char /\ is_dot e = true.
Proof.
  intros e. unfold is_expression_start. destruct (is_space e); [discriminate|].
  destruct (Ascii.eqb e "{") eqn:E; [discriminate|]. cbn [orb negb andb].
  intros H. split; [reflexivity|]. split; [|exact H]. intros ->. discriminate E.
Qed.

Lemma plain_exec : forall indent gap e expr tail,
  all_in is_space indent -> all_in is_space gap ->
  is_expression_start e = true -> all_in is_dot expr ->
  ~ In ";"%char tail ->
  exec (Group 0 assert_re) (assertion indent gap [] (e :: expr) ++ tail) []
       (fun s' c => Some (f s' c))
  = Some (f tail [(0, assertion indent gap [] (e :: expr));
                  (4, e :: expr); (1, indent ++ lit "assert" ++ gap)]).
Proof.
  intros indent gap e expr tail Hi Hg Hs He Hts.
  apply expression_start in Hs. destruct Hs as (Hsp & Hbr & Hd).
  assert (Heq : assertion indent gap [] (e :: expr) ++ tail
                = (indent ++ lit "assert" ++ gap)
                    ++ (e :: expr) ++ lit ";" ++ tail).
  { unfold assertion. now rewrite <- !app_assoc. }
  rewrite exec_group_eq. unfold assert_re. rewrite exec_seq_eq.
  rewrite Heq. apply assert_runs; [exact Hi|exact Hg|exact Hsp|].
  rewrite exec_seq_eq. unfold Opt. rewrite exec_alt_eq.
  apply second_alternative.
  - rewrite exec_group_eq.
    change (Lit (lit "{:")) with (Lit ("{"%char :: [":"%char])).
    apply exec_lit_head. exact Hbr.
  - change (exec Eps ?s ?c ?k) with (k s c). cbv beta.
    apply expression_exec; [now constructor|discriminate|exact Hts|].
    rewrite (@firstn_consumed_eq _ (assertion indent gap [] (e :: expr)) tail);
      [reflexivity|].
    unfold assertion. now rewrite <- !app_assoc.
Qed.

End Exec.

Ltac all_dot :=
  repeat match goal with
  | |- all_in _ (_ ++ _) => apply all_in_app
  | |- all_in _ (_ :: _) => apply Forall_cons
  | |- all_in _ [] => apply Forall_nil
  | |- all_in _ (lit _) => repeat constructor
  end;
  auto using blank_dot.

Lemma some_selected : forall args,
  (Args.only_check_valid_deref args || Args.only_check_valid_free args
   || Args.only_check_memleak args)%bool = true ->
  Nat.ltb 0 (length (selected_props args)) = true.
Proof.
  intros args H. unfold selected_props.
  destruct (Args.only_check_valid_deref args); [reflexivity|].
  destruct (Args.only_check_valid_free args); [reflexivity|].
  destruct (Args.only_check_memleak args); [reflexivity|discriminate H].
Qed.

(** X24.  An assertion with an attribute, on a line where the "}" that
    closes the attribute is the last "}" of the line (none in the
    expression, none after the last ";"): the attribute is the text
    between "{:" and that "}", other braces included.  The assertion is
    kept when this attribute is the selected one; otherwise the attribute
    is dropped and the expression becomes "true".  What follows the last
    ";" of the line is kept. *)
Theorem attributed_assertion : forall args indent gap attr expr tail,
  (Args.only_check_valid_deref args || Args.only_check_valid_free args
   || Args.only_check_memleak args)%bool = true ->
  all_in is_blank indent -> all_in is_blank gap ->
  all_in is_dot attr -> attr <> [] ->
  all_in is_dot expr -> expr <> [] -> ~ In "}"%char expr ->
  all_in is_dot tail -> ~ In ";"%char tail -> ~ In "}"%char tail ->
  selected args (assertion indent gap (attribute attr) expr ++ tail ++ [newline])
  = if member attr (selected_props args)
    then assertion indent gap (attribute attr) expr ++ tail ++ [newline]
    else assertion indent gap [] "true" ++ tail ++ [newline].
Proof.
  intros args indent gap attr expr tail Hsel Hi Hg Ha Ha0 He He0 Hec Ht Hts Htc.
  unfold selected.
  replace (assertion indent gap (attribute attr) expr ++ tail ++ [newline])
    with ((assertion indent gap (attribute attr) expr ++ tail) ++ [newline])
    by now rewrite <- app_assoc.
  rewrite readlines_line.
  - cbn [map concat]. rewrite app_nil_r. unfold re_sub_at_start.
    rewrite <- app_assoc.
    rewrite (@attributed_exec _ (fun s' c => (s', c))); auto using blank_space.
    + unfold replace_assertion. rewrite (some_selected _ Hsel).
      unfold grp. cbn [group Nat.eqb].
      assert (Hne : truthy (Some (attribute attr)) = Some (attribute attr))
        by reflexivity.
      rewrite Hne.
      destruct (member attr (selected_props args)).
      * unfold assertion. now rewrite <- !app_assoc.
      * unfold assertion. now rewrite <- !app_assoc.
    + intros H. apply in_app_or in H. destruct H as [H|[H|[]]];
        [now apply Hts|discriminate H].
    + intros H. apply in_app_or in H. destruct H as [H|[H|[]]];
        [now apply Htc|discriminate H].
  - unfold assertion, attribute. all_dot.
Qed.

(** X25.  An assertion without an attribute has its expression replaced by
    "true" as soon as a property is selected. *)
Theorem plain_assertion_disabled : forall args indent gap e expr tail,
  (Args.only_check_valid_deref args || Args.only_check_valid_free args
   || Args.only_check_memleak args)%bool = true ->
  all_in is_blank indent -> all_in is_blank gap ->
  is_expression_start e = true -> all_in is_dot expr ->
  all_in is_dot tail -> ~ In ";"%char tail ->
  selected args (assertion indent gap [] (e :: expr) ++ tail ++ [newline])
  = assertion indent gap [] "true" ++ tail ++ [newline].
Proof.
  intros args indent gap e expr tail Hsel Hi Hg Hs He Ht Hts.
  unfold selected.
  replace (assertion indent gap [] (e :: expr) ++ tail ++ [newline])
    with ((assertion indent gap [] (e :: expr) ++ tail) ++ [newline])
    by now rewrite <- app_assoc.
  rewrite readlines_line.
  - cbn [map concat]. rewrite app_nil_r. unfold re_sub_at_start.
    rewrite <- app_assoc.
    rewrite (@plain_exec _ (fun s' c => (s', c))); auto using blank_space.
    + unfold replace_assertion. rewrite (some_selected _ Hsel).
      unfold grp. cbn [group Nat.eqb truthy].
      unfold assertion. now rewrite <- !app_assoc.
    + intros H. apply in_app_or in H. destruct H as [H|[H|[]]];
        [now apply Hts|discriminate H].
  - apply expression_start in Hs. destruct Hs as (_ & _ & Hd).
    unfold assertion. all_dot.
Qed.

Lemma attributed_assertion_witness :
  selected (valid_deref_arguments "a.bpl")
    (assertion " " " " (attribute "valid_deref} {:foo") " p != 0" ++ lit " // p"
       ++ [newline])
  = assertion " " " " [] "true" ++ lit " // p" ++ [newline].
Proof.
  apply (@attributed_assertion (valid_deref_arguments "a.bpl")
           " " " " "valid_deref} {:foo" " p != 0" " // p").
  - reflexivity.
  - repeat constructor.
  - repeat constructor.
  - repeat constructor.
  - discriminate.
  - repeat constructor.
  - discriminate.
  - apply (@all_in_not_in (fun c => negb (Ascii.eqb c "}")));
      [repeat constructor|reflexivity].
  - repeat constructor.
  - apply (@all_in_not_in (fun c => negb (Ascii.eqb c ";")));
      [repeat constructor|reflexivity].
  - apply (@all_in_not_in (fun c => negb (Ascii.eqb c "}")));
      [repeat constructor|reflexivity].
Defined.

Lemma plain_assertion_disabled_witness :
  selected (valid_deref_arguments "a.bpl")
    (assertion "  " " " [] ("$"%char :: lit "i0 != $0") ++ [] ++ [newline])
  = assertion "  " " " [] "true" ++ [] ++ [newline].
Proof.
  apply plain_assertion_disabled.
  - reflexivity.
  - repeat constructor.
  - repeat constructor.
  - reflexivity.
  - repeat constructor.
  - constructor.
  - intros [].
Defined.

End Selection.

(** * The call entries of [verification_result] *)

Module Calls.
Import ReFacts Smack Markers Classifier Annotation Report Steps Declarations Selection.
Local Open Scope string_scope.
Local Open Scope list_scope.

(** ** Matches of the call pattern stay within a line *)







Section Scan.
Variable B : Type.
Variable emit : caps -> list B.
Variable keep : ascii -> list B.




End Scan.











End Calls.

(** * The filter of the Boogie file and the run of the verifier *)

Module Driver.
Import ReFacts Smack Markers Classifier Annotation Report Steps.
Local Open Scope string_scope.
Local Open Scope list_scope.

(** ** The filter of the Boogie file *)

Lemma write_file_same : forall fs path content,
  write_file fs path content path = Some content.
Proof.
  intros fs path content. unfold write_file.
  now rewrite (proj2 (text_eqb_eq path path) eq_refl).
Qed.

Lemma write_file_other : forall fs path content p,
  p <> path -> write_file fs path content p = fs p.
Proof.
  intros fs path content p Hp. unfold write_file.
  destruct (text_eqb p path) eqn:E; [|reflexivity].
  apply text_eqb_eq in E. congruence.
Qed.

(** X26.  The Boogie file is emptied before the filter is started: when the
    command line of the filter cannot be split, or the filter cannot be
    started, the exception comes with the file left empty; the other files
    are as they were. *)
Theorem failed_filter_empties_file :
  forall (shlex_split : text -> result (list text))
         (popen_into_file : list text -> text -> result text)
         args fs cmd old e,
  Args.transform_bpl args = Some cmd -> cmd <> [] ->
  fs (Args.bpl_file args) = Some old ->
  (shlex_split cmd = Raise e \/
   exists argv, shlex_split cmd = Ok argv /\ popen_into_file argv old = Raise e) ->
  let run := transform_bpl shlex_split popen_into_file args fs in
  fst run = Raise e /\
  snd run (Args.bpl_file args) = Some [] /\
  forall p, p <> Args.bpl_file args -> snd run p = fs p.
Proof.
  intros split popen args fs cmd old e Hc Hne Hfs Hfail. unfold transform_bpl.
  rewrite Hc. destruct cmd as [|a cmd]; [congruence|]. cbn [truthy].
  unfold open_read. rewrite Hfs.
  destruct Hfail as [Hs | (argv & Hs & Hr)]; rewrite Hs; [|rewrite Hr];
    cbn [fst snd]; (split; [reflexivity|]);
    (split; [apply write_file_same|]); intros p Hp; now apply write_file_other.
Qed.

Lemma failed_filter_empties_file_witness :
  let args := filtered_arguments "bplfilter" "a.bpl" in
  let fs := fun path : text =>
    if text_eqb path "a.bpl" then Some (lit "procedure main();") else None in
  let run := transform_bpl split_words missing_filter args fs in
  fst run = Raise (OSError [lit "bplfilter"]) /\
  snd run (Args.bpl_file args) = Some [] /\
  forall p, p <> Args.bpl_file args -> snd run p = fs p.
Proof.
  intros args fs.
  apply (@failed_filter_empties_file split_words missing_filter args fs
           (lit "bplfilter") (lit "procedure main();") (OSError [lit "bplfilter"])).
  - reflexivity.
  - discriminate.
  - reflexivity.
  - right. exists [lit "bplfilter"]. split; reflexivity.
Defined.

(** ** The verifier run *)

Lemma outcome_has_message : forall args verifier_output,
  exists message,
    lookup (results args) (lit (verification_result verifier_output))
    = Some message.
Proof.
  intros args out. unfold verification_result.
  repeat match goal with
  | |- context [if ?b then _ else _] => destruct b
  end; eexists; reflexivity.
Qed.

Section Run.
Variable try_command : list text -> Z -> result text.
Variable shlex_split : text -> result (list text).
Variable popen_communicate : list text -> text -> result (text * text * N).
Variable fs : files.
Variable svcomp : Args.t -> bool.

(** X27.  Whatever the verifier answers, the run never ends in a failed lookup
    of the message: [results] has a message for every outcome of
    [verification_result]. *)
Theorem message_for_every_outcome : forall args key,
  snd (verify_bpl try_command shlex_split popen_communicate fs svcomp args) <> KeyError key.
Proof.
  intros args key. unfold verify_bpl.
  destruct (text_eqb (Args.verifier args) "svcomp");
    [destruct (svcomp args); discriminate|].
  destruct (try_command _ _) as [out|e]; [|discriminate].
  destruct (transform_out _ _ _ _ _) as [[out'|e] started]; [|discriminate].
  destruct (Args.smackd args); [discriminate|].
  unfold exit_with.
  destruct (outcome_has_message args out') as (m & Hm). rewrite Hm.
  destruct (String.eqb _ _); [discriminate|].
  destruct (is_error_result _); [|discriminate].
  destruct (report_error _ _ _); discriminate.
Qed.


(** X29.  Without --smackd, a run of the verifier whose output is not filtered
    returns exactly when the output has a verified marker and no timeout
    marker; otherwise it exits with a message or ends in an exception. *)
Theorem returns_iff_verified : forall args verifier_output,
  Args.verifier args <> lit "svcomp" -> Args.smackd args = false ->
  Args.transform_out args = None ->
  try_command (verifier_command args) (Args.time_limit args) = Ok verifier_output ->
  (snd (verify_bpl try_command shlex_split popen_communicate fs svcomp args) = Returns <->
   ~ timeout_marker verifier_output /\ verified_marker verifier_output).
Proof.
  intros args out Hv Hs Ht Hrun. unfold verify_bpl.
  rewrite (not_found (text_eqb_eq _ _) Hv), Hrun, Ht. cbn [transform_out truthy].
  rewrite Hs. cbn [map app].
  rewrite <- found_timeout, <- found_verified.
  unfold exit_with. destruct (outcome_has_message args out) as (m & Hm).
  rewrite Hm. clear Hm. unfold verification_result.
  destruct (found (re_search timeout_re out)).
  { cbn. split; [discriminate|]. intros [H _]. now elim H. }
  destruct (found (re_search verified_re out)).
  { cbn. split; [intros _; split; [discriminate|reflexivity]|reflexivity]. }
  assert (Hno : forall r : list event * ending, snd r <> Returns ->
            (snd r = Returns <-> false <> true /\ false = true)).
  { intros r Hr. split; [intros H; now elim Hr|intros [_ H]; discriminate H]. }
  repeat match goal with
  | |- context [if ?b then _ else _] =>
      lazymatch b with
      | String.eqb _ _ => fail
      | is_error_result _ => fail
      | _ => destruct b
      end
  end; cbn [String.eqb Ascii.eqb Bool.eqb is_error_result orb];
    (destruct (report_error _ _ _); apply Hno; discriminate) || (apply Hno; discriminate).
Qed.

(** X30.  Without --smackd, an output with a timeout marker, or with no marker
    at all, makes the run exit with the message of the outcome: nothing is
    printed, no file is read or written. *)
Theorem undecided_run_exits_silently : forall args verifier_output,
  Args.verifier args <> lit "svcomp" -> Args.smackd args = false ->
  Args.transform_out args = None ->
  try_command (verifier_command args) (Args.time_limit args) = Ok verifier_output ->
  (timeout_marker verifier_output ->
   verify_bpl try_command shlex_split popen_communicate fs svcomp args
   = ([RunVerifier (verifier_command args) (Args.time_limit args)],
               Exits "SMACK timed out.")) /\
  (~ timeout_marker verifier_output -> ~ verified_marker verifier_output ->
   ~ failure_marker verifier_output ->
   verify_bpl try_command shlex_split popen_communicate fs svcomp args
   = ([RunVerifier (verifier_command args) (Args.time_limit args)],
               Exits "SMACK result is unknown.")).
Proof.
  intros args out Hv Hs Ht Hrun. unfold verify_bpl.
  rewrite (not_found (text_eqb_eq _ _) Hv), Hrun, Ht. cbn [transform_out truthy].
  rewrite Hs. cbn [map app]. unfold verification_result. split.
  - intros H. apply found_timeout in H. rewrite H. reflexivity.
  - intros H1 H2 H3.
    rewrite (not_found (found_timeout out) H1),
            (not_found (found_verified out) H2),
            (not_found (found_failure out) H3).
    reflexivity.
Qed.

End Run.


Lemma returns_iff_verified_witness :
  snd (verify_bpl (answering "Program has no bugs") split_words failing_filter
         (fun _ => None) svcomp_returns (default_arguments "a.bpl")) = Returns <->
  ~ timeout_marker "Program has no bugs" /\ verified_marker "Program has no bugs".
Proof.
  apply (@returns_iff_verified (answering "Program has no bugs") split_words
           failing_filter (fun _ => None) svcomp_returns (default_arguments "a.bpl")
           "Program has no bugs").
  - discriminate.
  - reflexivity.
  - reflexivity.
  - reflexivity.
Defined.

Lemma undecided_run_exits_silently_witness :
  verify_bpl (answering "Boogie verification timed out") split_words
    failing_filter (fun _ => None) svcomp_returns (default_arguments "a.bpl")
  = ([RunVerifier (verifier_command (default_arguments "a.bpl")) 1200],
     Exits "SMACK timed out.").
Proof.
  refine (proj1 (@undecided_run_exits_silently
                   (answering "Boogie verification timed out") split_words
                   failing_filter (fun _ => None) svcomp_returns
                   (default_arguments "a.bpl")
                   "Boogie verification timed out" _ _ _ _) _).
  - discriminate.
  - reflexivity.
  - reflexivity.
  - reflexivity.
  - right; right; left. apply (found_lit _ _). vm_compute. reflexivity.
Defined.

End Driver.
